(** * Multi-model authorization service: ACL / RBAC / ABAC / ReBAC engines

    A shallow embedding of the decision engines of
    [internal/core/services] (and of the older single-file service in
    [main.go]) together with the properties of the specification that
    concern them.

    Conventions of the embedding.
    - Go strings are byte strings: [string].
    - A Go [map] whose iteration order can be observed ([range]) is an
      association list ([GoMap.t]); the order of the list stands for the
      order in which [range] visits the keys, which Go leaves
      unspecified, so every statement below is made for every list.
    - A Go [map] that is only indexed is a [gmap].
    - [*ABACPolicy] values are locations in a heap ([Heap]); the policy
      cache maps ids to locations, as in the source.
    - Repositories are interfaces: type classes over the repository state.
    - Functions of the Go library that have no counterpart here
      ([regexp.MatchString], [strconv.ParseFloat], [sort.Slice]) are the
      fields of [GoLibrary]; [sort.Slice] is taken there with what its
      documentation promises, and [gosort] has its algorithm.
    - A Go slice is the list of its elements; where it matters whether a
      slice is nil ([sqlite]), it is a [sqlite.slice].
    - Locks are not modelled: every operation is taken atomically. *)

From Stdlib Require Import ZArith String Ascii List Bool Lia.
From Stdlib Require Import Sorting.Permutation Sorting.Sorted.
From stdpp Require Import base option strings gmap list.

#[local] Open Scope Z_scope.

(* ================================================================== *)
(** * Part I: definitions                                              *)
(* ================================================================== *)

(** ** The Go [strings] package, as far as the engines use it *)

Module strings.

  (** [strings.Split(s, sep)] for a one-byte separator (the engines split
      on ":" and on ","): [n + 1] fields for [n] occurrences of [sep]. *)
Fixpoint Split (s : string) (sep : ascii) : list string :=
    match s with
    | EmptyString => [EmptyString]
    | String c rest =>
        if Ascii.eqb c sep then EmptyString :: Split rest sep
        else match Split rest sep with
             | field :: fields => String c field :: fields
             | [] => [String c EmptyString]
             end
    end.

Definition HasPrefix (s prefix : string) : bool := String.prefix prefix s.

Definition HasSuffix (s suffix : string) : bool :=
    String.prefix (String.rev suffix) (String.rev s).

Fixpoint Contains (s substr : string) : bool :=
    match s with
    | EmptyString => String.prefix substr EmptyString
    | String _ rest => String.prefix substr s || Contains rest substr
    end.

  (** The UTF-8 encodings of the code points that [unicode.IsSpace]
      accepts: tab, line feed, vertical tab, form feed, carriage return
      and space, U+0085, U+00A0, U+1680, U+2000 to U+200A, U+2028, U+2029,
      U+202F, U+205F and U+3000.  None is a prefix of another. *)
Definition white_space : list string :=
    map (fun codes => string_of_list_ascii (map ascii_of_nat codes))
        [[9]; [10]; [11]; [12]; [13]; [32]; [194; 133]; [194; 160];
         [225; 154; 128];
         [226; 128; 128]; [226; 128; 129]; [226; 128; 130]; [226; 128; 131];
         [226; 128; 132]; [226; 128; 133]; [226; 128; 134]; [226; 128; 135];
         [226; 128; 136]; [226; 128; 137]; [226; 128; 138];
         [226; 128; 168]; [226; 128; 169]; [226; 128; 175];
         [226; 129; 159]; [227; 128; 128]]%nat.

Fixpoint skip (n : nat) (s : string) : string :=
    match n, s with
    | S n, String _ rest => skip n rest
    | _, _ => s
    end.

  (** [s] without the strings of [set] at its front, one after another;
      every one of them takes a byte away, so [fuel] bytes are enough. *)
Fixpoint trim_front (set : list string) (fuel : nat) (s : string) : string :=
    match fuel with
    | O => s
    | S fuel =>
        match List.find (fun w => String.prefix w s) set with
        | Some w => trim_front set fuel (skip (String.length w) s)
        | None => s
        end
    end.

  (** [strings.TrimSpace]: the white-space code points are taken from the
      front and then from the back (a byte that is not part of a complete
      encoding stops the trimming, as the replacement character does in
      Go). *)
Definition TrimSpace (s : string) : string :=
    let s := trim_front white_space (String.length s) s in
    String.rev
      (trim_front (map String.rev white_space) (String.length s) (String.rev s)).

Definition Compare (a b : string) : Z :=
    match String.compare a b with
    | Lt => -1
    | Eq => 0
    | Gt => 1
    end.

  (** Number of occurrences of a byte. *)
Fixpoint Count (s : string) (c : ascii) : nat :=
    match s with
    | EmptyString => 0%nat
    | String c' rest => ((if Ascii.eqb c' c then 1 else 0) + Count rest c)%nat
    end.

End strings.

(** ** Go maps that are ranged over

    A map is held as the list of its entries in the order of one [range]
    over it.  Go does not fix that order and may change it from one range
    to the next: a theorem stated for every list covers every order, and
    of what [store] and [delete] do to a list only what does not depend on
    the place of an entry (lookups, membership, permutations) is a fact
    about the program. *)

Module GoMap.

Definition t (V : Type) : Type := list (string * V).

Section Ops.
Context {V : Type}.

    (** [v, ok := m[k]] *)
Fixpoint lookup (m : t V) (k : string) : option V :=
      match m with
      | [] => None
      | (k', v) :: m' => if String.eqb k' k then Some v else lookup m' k
      end.

    (** [m[k]] with the zero value [zero] for a missing key *)
Definition index (zero : V) (m : t V) (k : string) : V :=
      default zero (lookup m k).

    (** [m[k] = v]: an existing key keeps its place, a new key is visited
        last. *)
Fixpoint store (m : t V) (k : string) (v : V) : t V :=
      match m with
      | [] => [(k, v)]
      | (k', v') :: m' =>
          if String.eqb k' k then (k, v) :: m' else (k', v') :: store m' k v
      end.

    (** [delete(m, k)] *)
Fixpoint delete (m : t V) (k : string) : t V :=
      match m with
      | [] => []
      | (k', v') :: m' =>
          if String.eqb k' k then delete m' k else (k', v') :: delete m' k
      end.
End Ops.

End GoMap.

(** ** [internal/core/domain] *)

Module domain.

Inductive error : Type :=
  | ErrNotFound
  | ErrAlreadyExists
  | ErrInvalidInput
  | ErrUnauthorized
  | ErrServiceUnavailable
  | Errorf (msg : string)                  (* fmt.Errorf without %w *)
  | Wrapf (msg : string) (cause : error)   (* fmt.Errorf("msg: %w", cause) *)
  | External (msg : string).               (* an error raised by a collaborator *)

Definition AccessControlModel : Type := string.
Definition ModelACL : AccessControlModel := "acl".
Definition ModelRBAC : AccessControlModel := "rbac".
Definition ModelABAC : AccessControlModel := "abac".
Definition ModelReBAC : AccessControlModel := "rebac".

  (** [time.Time], as an opaque instant *)
Definition Time : Type := Z.

Record PolicyCondition : Type := {
    CondID : N;
    PolicyID : string;
    Type_ : string;
    Field : string;
    Operator : string;
    Value : string;
    LogicOp : string
  }.

Record ABACPolicy : Type := {
    ID : string;
    Name : string;
    Description : string;
    Effect : string;
    Priority : Z;
    Conditions : list PolicyCondition;
    CreatedAt : Time;
    UpdatedAt : Time
  }.

Definition set_CreatedAt (p : ABACPolicy) (t : Time) : ABACPolicy :=
    {| ID := ID p; Name := Name p; Description := Description p;
       Effect := Effect p; Priority := Priority p;
       Conditions := Conditions p; CreatedAt := t; UpdatedAt := UpdatedAt p |}.

Definition set_UpdatedAt (p : ABACPolicy) (t : Time) : ABACPolicy :=
    {| ID := ID p; Name := Name p; Description := Description p;
       Effect := Effect p; Priority := Priority p;
       Conditions := Conditions p; CreatedAt := CreatedAt p; UpdatedAt := t |}.

Definition set_LogicOp (c : PolicyCondition) (op : string) : PolicyCondition :=
    {| CondID := CondID c; PolicyID := PolicyID c; Type_ := Type_ c;
       Field := Field c; Operator := Operator c; Value := Value c;
       LogicOp := op |}.

Definition set_Conditions (p : ABACPolicy) (conds : list PolicyCondition)
  : ABACPolicy :=
    {| ID := ID p; Name := Name p; Description := Description p;
       Effect := Effect p; Priority := Priority p;
       Conditions := conds; CreatedAt := CreatedAt p; UpdatedAt := UpdatedAt p |}.

Record Relationship : Type := {
    Subject : string;
    Relationship_ : string;
    Object : string
  }.

  (** [Validate], the loop over the conditions *)
Fixpoint Validate_conditions (i : nat) (conds : list PolicyCondition)
    : option error :=
    match conds with
    | [] => None
    | cond :: rest =>
        if String.eqb (Type_ cond) "" || String.eqb (Field cond) ""
           || String.eqb (Operator cond) "" || String.eqb (Value cond) ""
        then Some (Errorf ("condition " +:+ pretty.pretty (Z.of_nat i)
                           +:+ ": type, field, operator, and value cannot be empty"))
        else if negb (String.eqb (LogicOp cond) "")
                && negb (String.eqb (LogicOp cond) "and")
                && negb (String.eqb (LogicOp cond) "or")
        then Some (Errorf ("condition " +:+ pretty.pretty (Z.of_nat i)
                           +:+ ": logic_op must be 'and' or 'or' or empty"))
        else Validate_conditions (S i) rest
    end.

Definition Validate (p : ABACPolicy) : option error :=
    if String.eqb (ID p) "" then Some (Errorf "policy ID cannot be empty")
    else if String.eqb (Name p) "" then Some (Errorf "policy name cannot be empty")
    else if negb (String.eqb (Effect p) "allow") && negb (String.eqb (Effect p) "deny")
    then Some (Errorf "policy effect must be 'allow' or 'deny'")
    else Validate_conditions 0 (Conditions p).

End domain.


(** ** Functions of the Go library and runtime taken as given *)

Class GoLibrary : Type := {
  float64 : Type;
  (** [strconv.ParseFloat(s, 64)]; [None] stands for [err != nil] *)
  strconv_ParseFloat : string -> option float64;
  float64_gt : float64 -> float64 -> bool;
  float64_lt : float64 -> float64 -> bool;
  (** [matched, _ := regexp.MatchString(pattern, s)] *)
  regexp_MatchString : string -> string -> bool;
  (** [sort.Slice(x, less)], on the elements rather than on their indices *)
  sort_Slice : forall A : Type, (A -> A -> bool) -> list A -> list A
}.

Arguments sort_Slice {_ _} _ _.

(** What the documentation of [sort.Slice] promises for a [less] that is a
    strict weak ordering: the slice is permuted and ends up ordered.  It
    says explicitly that the sort "is not guaranteed to be stable". *)
Definition StrictWeakOrder {A : Type} (less : A -> A -> bool) : Prop :=
  (forall x, less x x = false)
  /\ (forall x y z, less x y = true -> less y z = true -> less x z = true)
  /\ (forall x y z, less x y = false -> less y z = false -> less x z = false).

Class GoLibrarySpec (lib : GoLibrary) : Prop := {
  sort_Slice_Permutation :
    forall (A : Type) (less : A -> A -> bool) (l : list A),
      Permutation (sort_Slice less l) l;
  sort_Slice_Sorted :
    forall (A : Type) (less : A -> A -> bool) (l : list A),
      StrictWeakOrder less ->
      StronglySorted (fun x y => less y x = false) (sort_Slice less l)
}.

(** [strconv.Itoa] *)
Definition strconv_Itoa (n : Z) : string := pretty.pretty n.

(** ** [sort.Slice] as Go 1.19 and later run it ([sort/zsortfunc.go])

    [Slice] calls [pdqsort_func] on the whole slice with
    [limit = bits.Len(length)].  The slice is a list that [Swap] writes at
    two indices; the algorithm only passes indices inside the slice.
    Loops whose number of rounds is bounded by the part of the slice they
    run over take that bound as [fuel]; [pdqsort_func] returns [None]
    when its own fuel does not reach the end. *)

Module gosort.

Inductive sortedHint : Type := unknownHint | increasingHint | decreasingHint.

(** [bits.Len] *)
Definition bits_Len (n : nat) : nat :=
  if Nat.eqb n 0 then 0%nat else S (Nat.log2 n).

Section Sort.
Context {A : Type} (less : A -> A -> bool).

(** [breakPatterns_func] swaps three elements of [data[a:b]] at indices
    that a pseudo-random generator seeded with [b - a] draws; it is taken
    as given. *)
Context (breakPatterns_func : list A -> nat -> nat -> list A).

#[local] Open Scope nat_scope.

Definition Less (data : list A) (i j : nat) : bool :=
  match data !! i, data !! j with
  | Some x, Some y => less x y
  | _, _ => false
  end.

Definition Swap (data : list A) (i j : nat) : list A :=
  match data !! i, data !! j with
  | Some x, Some y => <[j := x]> (<[i := y]> data)
  | _, _ => data
  end.

(** [for j := i; j > a && data.Less(j, j-1); j-- { data.Swap(j, j-1) }] *)
Fixpoint insertionSort_inner (data : list A) (a j : nat) : list A :=
  match j with
  | O => data
  | S j' =>
      if (a <? j) && Less data j j'
      then insertionSort_inner (Swap data j j') a j' else data
  end.

Definition insertionSort_func (data : list A) (a b : nat) : list A :=
  fold_left (fun data i => insertionSort_inner data a i)
            (seq (a + 1) (b - (a + 1))) data.

(** The loop of [siftDown_func]; [root] grows in every round. *)
Fixpoint siftDown_loop (fuel : nat) (data : list A) (root hi first : nat)
  : list A :=
  match fuel with
  | O => data
  | S fuel =>
      let child := 2 * root + 1 in
      if hi <=? child then data
      else
        let child :=
          if (child + 1 <? hi) && Less data (first + child) (first + child + 1)
          then child + 1 else child in
        if negb (Less data (first + root) (first + child)) then data
        else siftDown_loop fuel (Swap data (first + root) (first + child))
                           child hi first
  end.

Definition siftDown_func (data : list A) (lo hi first : nat) : list A :=
  siftDown_loop hi data lo hi first.

Definition heapSort_func (data : list A) (a b : nat) : list A :=
  let first := a in
  let lo := 0 in
  let hi := b - a in
  let data :=
    fold_left (fun data i => siftDown_func data i hi first)
              (rev (seq 0 (S ((hi - 1) / 2)))) data in
  fold_left (fun data i => siftDown_func (Swap data first (first + i)) lo i first)
            (rev (seq 0 hi)) data.

(** [order2_func], [median_func], [medianAdjacent_func]: indices and the
    count of swaps, the slice is not written. *)
Definition order2_func (data : list A) (a b swaps : nat) : nat * nat * nat :=
  if Less data b a then (b, a, S swaps) else (a, b, swaps).

Definition median_func (data : list A) (a b c swaps : nat) : nat * nat :=
  let '(a, b, swaps) := order2_func data a b swaps in
  let '(b, c, swaps) := order2_func data b c swaps in
  let '(a, b, swaps) := order2_func data a b swaps in
  (b, swaps).

Definition medianAdjacent_func (data : list A) (a swaps : nat) : nat * nat :=
  median_func data (a - 1) a (a + 1) swaps.

Definition choosePivot_func (data : list A) (a b : nat) : nat * sortedHint :=
  let shortestNinther := 50 in
  let maxSwaps := 4 * 3 in
  let l := b - a in
  let swaps := 0 in
  let i := a + l / 4 * 1 in
  let j := a + l / 4 * 2 in
  let k := a + l / 4 * 3 in
  let '(j, swaps) :=
    if 8 <=? l then
      let '(i, j, k, swaps) :=
        if shortestNinther <=? l then
          let '(i, swaps) := medianAdjacent_func data i swaps in
          let '(j, swaps) := medianAdjacent_func data j swaps in
          let '(k, swaps) := medianAdjacent_func data k swaps in
          (i, j, k, swaps)
        else (i, j, k, swaps) in
      median_func data i j k swaps
    else (j, swaps) in
  if swaps =? 0 then (j, increasingHint)
  else if swaps =? maxSwaps then (j, decreasingHint)
  else (j, unknownHint).

(** [for i < j { data.Swap(i, j); i++; j-- }] from [i = a], [j = b - 1] *)
Definition reverseRange_func (data : list A) (a b : nat) : list A :=
  fold_left (fun data k => Swap data (a + k) (b - 1 - k))
            (seq 0 ((b - a) / 2)) data.

(** [for i < b && !data.Less(i, i-1) { i++ }] *)
Fixpoint skip_ordered (fuel : nat) (data : list A) (i b : nat) : nat :=
  match fuel with
  | O => i
  | S fuel =>
      if (i <? b) && negb (Less data i (i - 1))
      then skip_ordered fuel data (S i) b else i
  end.

(** [for j := i - 1; j >= 1; j-- { if !data.Less(j, j-1) { break }; data.Swap(j, j-1) }] *)
Fixpoint shift_smaller (data : list A) (j : nat) : list A :=
  match j with
  | O => data
  | S j' =>
      if negb (Less data j j') then data
      else shift_smaller (Swap data j j') j'
  end.

(** [for j := i + 1; j < b; j++ { if !data.Less(j, j-1) { break }; data.Swap(j, j-1) }] *)
Fixpoint shift_greater (fuel : nat) (data : list A) (j b : nat) : list A :=
  match fuel with
  | O => data
  | S fuel =>
      if j <? b then
        if negb (Less data j (j - 1)) then data
        else shift_greater fuel (Swap data j (j - 1)) (S j) b
      else data
  end.

(** The [for j := 0; j < maxSteps; j++] loop of
    [partialInsertionSort_func]; the slice is written also when the
    answer is [false]. *)
Fixpoint partialInsertionSort_loop (steps : nat) (data : list A) (a b i : nat)
  : list A * bool :=
  match steps with
  | O => (data, false)
  | S steps =>
      let shortestShifting := 50 in
      let i := skip_ordered (b - i) data i b in
      if i =? b then (data, true)
      else if b - a <? shortestShifting then (data, false)
      else
        let data := Swap data i (i - 1) in
        let data := if 2 <=? i - a then shift_smaller data (i - 1) else data in
        let data :=
          if 2 <=? b - i then shift_greater (b - (i + 1)) data (i + 1) b
          else data in
        partialInsertionSort_loop steps data a b i
  end.

Definition partialInsertionSort_func (data : list A) (a b : nat)
  : list A * bool :=
  let maxSteps := 5 in
  partialInsertionSort_loop maxSteps data a b (a + 1).

(** The two scans of [partition_func]:
    [for i <= j && data.Less(i, a) { i++ }] and
    [for i <= j && !data.Less(j, a) { j-- }]. *)
Fixpoint partition_up (fuel : nat) (data : list A) (a i j : nat) : nat :=
  match fuel with
  | O => i
  | S fuel =>
      if (i <=? j) && Less data i a then partition_up fuel data a (S i) j
      else i
  end.

Fixpoint partition_down (data : list A) (a i j : nat) : nat :=
  match j with
  | O => j
  | S j' =>
      if (i <=? j) && negb (Less data j a) then partition_down data a i j'
      else j
  end.

(** The [for] loop of [partition_func] without a condition; it leaves with
    [break] when [i > j], and every other round moves [i] and [j]
    together. *)
Fixpoint partition_loop (fuel : nat) (data : list A) (a i j : nat)
  : list A * nat :=
  match fuel with
  | O => (data, j)
  | S fuel =>
      let i := partition_up (S j - i) data a i j in
      let j := partition_down data a i j in
      if j <? i then (data, j)
      else partition_loop fuel (Swap data i j) a (S i) (j - 1)
  end.

Definition partition_func (data : list A) (a b pivot : nat)
  : list A * nat * bool :=
  let data := Swap data a pivot in
  let i := a + 1 in
  let j := b - 1 in
  let i := partition_up (S j - i) data a i j in
  let j := partition_down data a i j in
  if j <? i then (Swap data j a, j, true)
  else
    let data := Swap data i j in
    let '(data, j) := partition_loop (b - a) data a (S i) (j - 1) in
    (Swap data j a, j, false).

(** The scans and the loop of [partitionEqual_func]:
    [for i <= j && !data.Less(a, i) { i++ }] and
    [for i <= j && data.Less(a, j) { j-- }]. *)
Fixpoint partitionEqual_up (fuel : nat) (data : list A) (a i j : nat) : nat :=
  match fuel with
  | O => i
  | S fuel =>
      if (i <=? j) && negb (Less data a i)
      then partitionEqual_up fuel data a (S i) j else i
  end.

Fixpoint partitionEqual_down (data : list A) (a i j : nat) : nat :=
  match j with
  | O => j
  | S j' =>
      if (i <=? j) && Less data a j then partitionEqual_down data a i j'
      else j
  end.

Fixpoint partitionEqual_loop (fuel : nat) (data : list A) (a i j : nat)
  : list A * nat :=
  match fuel with
  | O => (data, i)
  | S fuel =>
      let i := partitionEqual_up (S j - i) data a i j in
      let j := partitionEqual_down data a i j in
      if j <? i then (data, i)
      else partitionEqual_loop fuel (Swap data i j) a (S i) (j - 1)
  end.

Definition partitionEqual_func (data : list A) (a b pivot : nat)
  : list A * nat :=
  let data := Swap data a pivot in
  partitionEqual_loop (S (b - a)) data a (a + 1) (b - 1).

(** [pdqsort_func]: its [for] loop with the variables [a], [b], [limit],
    [wasBalanced] and [wasPartitioned], and its call of itself on the
    shorter side.  Every round and every call works on a shorter part of
    the slice. *)
Fixpoint pdqsort_func (fuel : nat) (data : list A) (a b limit : nat)
    (wasBalanced wasPartitioned : bool) : option (list A) :=
  match fuel with
  | O => None
  | S fuel =>
      let maxInsertion := 12 in
      let length := b - a in
      if length <=? maxInsertion then Some (insertionSort_func data a b)
      else if limit =? 0 then Some (heapSort_func data a b)
      else
        let '(data, limit) :=
          if negb wasBalanced then (breakPatterns_func data a b, limit - 1)
          else (data, limit) in
        let '(pivot, hint) := choosePivot_func data a b in
        let '(data, pivot, hint) :=
          match hint with
          | decreasingHint =>
              (reverseRange_func data a b, (b - 1) - (pivot - a), increasingHint)
          | _ => (data, pivot, hint)
          end in
        let '(data, sorted) :=
          match hint with
          | increasingHint =>
              if wasBalanced && wasPartitioned
              then partialInsertionSort_func data a b else (data, false)
          | _ => (data, false)
          end in
        if sorted then Some data
        else if (0 <? a) && negb (Less data (a - 1) pivot) then
          let '(data, mid) := partitionEqual_func data a b pivot in
          pdqsort_func fuel data mid b limit wasBalanced wasPartitioned
        else
          let '(data, mid, alreadyPartitioned) := partition_func data a b pivot in
          let wasPartitioned := alreadyPartitioned in
          let leftLen := mid - a in
          let rightLen := b - mid in
          let balanceThreshold := length / 8 in
          if leftLen <? rightLen then
            let wasBalanced := balanceThreshold <=? leftLen in
            match pdqsort_func fuel data a mid limit true true with
            | None => None
            | Some data =>
                pdqsort_func fuel data (mid + 1) b limit wasBalanced wasPartitioned
            end
          else
            let wasBalanced := balanceThreshold <=? rightLen in
            match pdqsort_func fuel data (mid + 1) b limit true true with
            | None => None
            | Some data =>
                pdqsort_func fuel data a mid limit wasBalanced wasPartitioned
            end
  end.

(** [sort.Slice(x, less)] *)
Definition Slice (x : list A) : option (list A) :=
  let length := length x in
  let limit := bits_Len length in
  pdqsort_func (S length) x 0 length limit true true.

End Sort.

End gosort.

(** ** The ABAC engine: [ABACHandlerImpl] *)

Module ABAC.

Record PolicyEvaluationContext : Type := {
  UserAttributes : gmap string string;
  ObjectAttributes : gmap string string;
  EnvironmentAttributes : gmap string string;
  ActionAttributes : gmap string string;
  Subject : string;
  Object : string;
  Action : string
}.

(** [m[k]] on a [map[string]string]: the empty string when [k] is absent *)
Definition attr (m : gmap string string) (k : string) : string :=
  default EmptyString (m !! k).

(** Pointers to policies *)
Definition loc : Type := nat.

#[global] Instance ABACPolicy_inhabited : Inhabited domain.ABACPolicy :=
  populate {| domain.ID := ""; domain.Name := ""; domain.Description := "";
              domain.Effect := ""; domain.Priority := 0;
              domain.Conditions := []; domain.CreatedAt := 0;
              domain.UpdatedAt := 0 |}.

Section Evaluation.
Context {lib : GoLibrary}.

Definition compareNumeric (actual expected : string) : Z :=
  match strconv_ParseFloat actual, strconv_ParseFloat expected with
  | Some actualNum, Some expectedNum =>
      if float64_gt actualNum expectedNum then 1
      else if float64_lt actualNum expectedNum then -1
      else 0
  | _, _ => strings.Compare actual expected
  end.

Definition evaluateIn (actual expectedList : string) : bool :=
  existsb (fun value => String.eqb (strings.TrimSpace value) actual)
          (strings.Split expectedList ",").

Definition evaluateOperator (actual operator expected : string) : bool :=
  if String.eqb operator "eq" then String.eqb actual expected
  else if String.eqb operator "ne" then negb (String.eqb actual expected)
  else if String.eqb operator "gt" then compareNumeric actual expected >? 0
  else if String.eqb operator "gte" then compareNumeric actual expected >=? 0
  else if String.eqb operator "lt" then compareNumeric actual expected <? 0
  else if String.eqb operator "lte" then compareNumeric actual expected <=? 0
  else if String.eqb operator "in" then evaluateIn actual expected
  else if String.eqb operator "contains" then strings.Contains actual expected
  else if String.eqb operator "startswith" then strings.HasPrefix actual expected
  else if String.eqb operator "endswith" then strings.HasSuffix actual expected
  else if String.eqb operator "regex" then regexp_MatchString expected actual
  else false.

Definition evaluateCondition (condition : domain.PolicyCondition)
    (ctx : PolicyEvaluationContext) : bool :=
  let type := domain.Type_ condition in
  let field := domain.Field condition in
  let continue actualValue :=
    evaluateOperator actualValue (domain.Operator condition)
                     (domain.Value condition) in
  if String.eqb type "user" then continue (attr (UserAttributes ctx) field)
  else if String.eqb type "object" then continue (attr (ObjectAttributes ctx) field)
  else if String.eqb type "environment" then
    continue (attr (EnvironmentAttributes ctx) field)
  else if String.eqb type "action" then
    if String.eqb field "action" then continue (Action ctx)
    else continue (attr (ActionAttributes ctx) field)
  else if String.eqb type "subject" then
    if String.eqb field "subject" then continue (Subject ctx)
    else continue EmptyString
  else if String.eqb type "resource" then
    if String.eqb field "object" then continue (Object ctx)
    else continue EmptyString
  else false.

(** The [for i, condition := range policy.Conditions] loop of
    [evaluatePolicy], with its three variables. *)
Fixpoint evaluatePolicy_loop (ctx : PolicyEvaluationContext)
    (conditions : list domain.PolicyCondition)
    (i : nat) (result : bool) (currentLogicOp : string) : bool :=
  match conditions with
  | [] => result
  | condition :: rest =>
      let conditionResult := evaluateCondition condition ctx in
      let result :=
        if Nat.eqb i 0 then conditionResult
        else if String.eqb currentLogicOp "and" then result && conditionResult
        else result || conditionResult in
      let currentLogicOp :=
        if negb (String.eqb (domain.LogicOp condition) "")
        then domain.LogicOp condition else currentLogicOp in
      evaluatePolicy_loop ctx rest (S i) result currentLogicOp
  end.

Definition evaluatePolicy (policy : domain.ABACPolicy)
    (ctx : PolicyEvaluationContext) : bool :=
  if Nat.eqb (length (domain.Conditions policy)) 0 then false
  else evaluatePolicy_loop ctx (domain.Conditions policy) 0 true "and".

(** The final loop of [Enforce] over the sorted policies. *)
Fixpoint Enforce_loop (h : gmap loc domain.ABACPolicy)
    (sortedPolicies : list loc) (ctx : PolicyEvaluationContext) : bool :=
  match sortedPolicies with
  | [] => false
  | policy :: rest =>
      if evaluatePolicy (h !!! policy) ctx then
        if String.eqb (domain.Effect (h !!! policy)) "allow" then true
        else if String.eqb (domain.Effect (h !!! policy)) "deny" then false
        else Enforce_loop h rest ctx
      else Enforce_loop h rest ctx
  end.

End Evaluation.

(** The two repositories the engine talks to. *)
Class ABACPolicyRepository (P : Type) : Type := {
  (** the repository receives the pointer and may write to the policy *)
  repo_AddPolicy : P -> domain.ABACPolicy -> P * domain.ABACPolicy * option domain.error;
  repo_RemovePolicy : P -> string -> P * option domain.error;
  repo_UpdatePolicy : P -> domain.ABACPolicy -> P * domain.ABACPolicy * option domain.error
}.

Class AttributeRepository (A : Type) : Type := {
  (** [(attrs, err)]; [attrs = None] is the nil map *)
  GetUserAttributes : A -> string -> option (gmap string string) * option domain.error;
  GetObjectAttributes : A -> string -> option (gmap string string) * option domain.error
}.

Record ABACHandlerImpl (P A : Type) : Type := {
  policyRepo : P;
  attrRepo : A;
  policies : GoMap.t loc
}.

Arguments policyRepo {P A} _.
Arguments attrRepo {P A} _.
Arguments policies {P A} _.

(** What the three [time.Now()] calls of [Enforce] yield. *)
Record WallClock : Type := {
  Hour : Z;
  Date : string;
  Weekday : string
}.

Section Engine.
Context {lib : GoLibrary} {P A : Type}.
Context {policy_repository : ABACPolicyRepository P}.
Context {attribute_repository : AttributeRepository A}.

Definition with_policies (e : ABACHandlerImpl P A) (m : GoMap.t loc)
  : ABACHandlerImpl P A :=
  {| policyRepo := policyRepo e; attrRepo := attrRepo e; policies := m |}.

Definition with_policyRepo (e : ABACHandlerImpl P A) (r : P)
  : ABACHandlerImpl P A :=
  {| policyRepo := r; attrRepo := attrRepo e; policies := policies e |}.

Definition environment (now : WallClock) (reqAttrs : gmap string string)
  : gmap string string :=
  let envAttrs : gmap string string :=
    <["time" := strconv_Itoa (Hour now)]>
      (<["date" := Date now]> (<["day" := Weekday now]> ∅)) in
  let envAttrs := reqAttrs ∪ envAttrs in
  match reqAttrs !! "hour" with
  | Some hourStr => <["time" := hourStr]> envAttrs
  | None => envAttrs
  end.

(** The snapshot [sortedPolicies] taken by ranging over the cache, sorted. *)
Definition sorted_snapshot (e : ABACHandlerImpl P A)
    (h : gmap loc domain.ABACPolicy) : list loc :=
  sort_Slice
    (fun i j => domain.Priority (h !!! i) >? domain.Priority (h !!! j))
    (map snd (policies e)).

(** The evaluation context that [Enforce] builds for a request when both
    attribute reads succeed. *)
Definition request_context (e : ABACHandlerImpl P A) (now : WallClock)
    (subject object action : string) (reqAttrs : gmap string string)
  : PolicyEvaluationContext :=
  {| UserAttributes := default ∅ (fst (GetUserAttributes (attrRepo e) subject));
     ObjectAttributes := default ∅ (fst (GetObjectAttributes (attrRepo e) object));
     EnvironmentAttributes := environment now reqAttrs;
     ActionAttributes := ∅;
     Subject := subject; Object := object; Action := action |}.

Definition Enforce (e : ABACHandlerImpl P A) (h : gmap loc domain.ABACPolicy)
    (now : WallClock) (subject object action : string)
    (reqAttrs : gmap string string) : bool * option domain.error :=
  match GetUserAttributes (attrRepo e) subject with
  | (_, Some err) =>
      (false, Some (domain.Wrapf "failed to get user attributes" err))
  | (userAttrs, None) =>
      let userAttrs := default ∅ userAttrs in
      match GetObjectAttributes (attrRepo e) object with
      | (_, Some err) =>
          (false, Some (domain.Wrapf "failed to get object attributes" err))
      | (objectAttrs, None) =>
          let objectAttrs := default ∅ objectAttrs in
          let ctx :=
            {| UserAttributes := userAttrs;
               ObjectAttributes := objectAttrs;
               EnvironmentAttributes := environment now reqAttrs;
               ActionAttributes := ∅;
               Subject := subject; Object := object; Action := action |} in
          (Enforce_loop h (sorted_snapshot e h) ctx, None)
      end
  end.

(** [AddPolicy(policy)]; [now1] and [now2] are the two clock readings. *)
Definition AddPolicy (e : ABACHandlerImpl P A) (h : gmap loc domain.ABACPolicy)
    (now1 now2 : domain.Time) (policy : loc)
  : option domain.error * ABACHandlerImpl P A * gmap loc domain.ABACPolicy :=
  match domain.Validate (h !!! policy) with
  | Some err => (Some (domain.Wrapf "invalid ABAC policy" err), e, h)
  | None =>
      match GoMap.lookup (policies e) (domain.ID (h !!! policy)) with
      | Some _ => (Some domain.ErrAlreadyExists, e, h)
      | None =>
          let h := <[policy := domain.set_CreatedAt (h !!! policy) now1]> h in
          let h := <[policy := domain.set_UpdatedAt (h !!! policy) now2]> h in
          match repo_AddPolicy (policyRepo e) (h !!! policy) with
          | (repo, written, Some err) =>
              (Some (domain.Wrapf "failed to add policy to repository" err),
               with_policyRepo e repo, <[policy := written]> h)
          | (repo, written, None) =>
              let h := <[policy := written]> h in
              (None,
               with_policies (with_policyRepo e repo)
                 (GoMap.store (policies e) (domain.ID (h !!! policy)) policy),
               h)
          end
      end
  end.

Definition RemovePolicy (e : ABACHandlerImpl P A) (policyID : string)
  : option domain.error * ABACHandlerImpl P A :=
  match GoMap.lookup (policies e) policyID with
  | None => (Some domain.ErrNotFound, e)
  | Some _ =>
      match repo_RemovePolicy (policyRepo e) policyID with
      | (repo, Some err) =>
          (Some (domain.Wrapf "failed to remove policy from repository" err),
           with_policyRepo e repo)
      | (repo, None) =>
          (None,
           with_policies (with_policyRepo e repo)
             (GoMap.delete (policies e) policyID))
      end
  end.

Definition UpdatePolicy (e : ABACHandlerImpl P A) (h : gmap loc domain.ABACPolicy)
    (now : domain.Time) (policy : loc)
  : option domain.error * ABACHandlerImpl P A * gmap loc domain.ABACPolicy :=
  match domain.Validate (h !!! policy) with
  | Some err => (Some (domain.Wrapf "invalid ABAC policy" err), e, h)
  | None =>
      match GoMap.lookup (policies e) (domain.ID (h !!! policy)) with
      | None => (Some domain.ErrNotFound, e, h)
      | Some _ =>
          let h := <[policy := domain.set_UpdatedAt (h !!! policy) now]> h in
          match repo_UpdatePolicy (policyRepo e) (h !!! policy) with
          | (repo, written, Some err) =>
              (Some (domain.Wrapf "failed to update policy in repository" err),
               with_policyRepo e repo, <[policy := written]> h)
          | (repo, written, None) =>
              let h := <[policy := written]> h in
              (None,
               with_policies (with_policyRepo e repo)
                 (GoMap.store (policies e) (domain.ID (h !!! policy)) policy),
               h)
          end
      end
  end.

(** [GetPolicyByID] hands out the cached pointer itself. *)
Definition GetPolicyByID (e : ABACHandlerImpl P A) (policyID : string)
  : option loc * option domain.error :=
  match GoMap.lookup (policies e) policyID with
  | Some policy => (Some policy, None)
  | None => (None, Some domain.ErrNotFound)
  end.

(** The cache as its readers see it: every cached id with the policy its
    pointer leads to. *)
Definition cached (e : ABACHandlerImpl P A) (h : gmap loc domain.ABACPolicy)
  : list (string * domain.ABACPolicy) :=
  map (fun entry => (fst entry, h !!! snd entry)) (policies e).

End Engine.

(** The read side of the policy repository: [GetAllPolicies] returns
    pointers to the policies that it has built. *)
Class ABACPolicyReader (P : Type) : Type := {
  repo_GetAllPolicies : P -> list loc * option domain.error
}.

Section Loading.
Context {P A : Type} {policy_reader : ABACPolicyReader P}.

(** [LoadPolicies]: the cache is replaced by a map built from the policies
    of the repository, in the order in which it returns them. *)
Definition LoadPolicies (e : ABACHandlerImpl P A) (h : gmap loc domain.ABACPolicy)
  : option domain.error * ABACHandlerImpl P A :=
  match repo_GetAllPolicies (policyRepo e) with
  | (_, Some err) =>
      (Some (domain.Wrapf "failed to load policies from repository" err), e)
  | (loaded, None) =>
      let newPolicies :=
        fold_left
          (fun newPolicies policy =>
             GoMap.store newPolicies (domain.ID (h !!! policy)) policy)
          loaded [] in
      (None, with_policies e newPolicies)
  end.

(** [GetAllPolicies]: the cached pointers, in the order of the range. *)
Definition GetAllPolicies (e : ABACHandlerImpl P A)
  : list loc * option domain.error :=
  (map snd (policies e), None).

End Loading.

End ABAC.


(** ** The ReBAC engine: [ReBACEnforcerImpl] *)

Module ReBAC.

Class ReBACRepository (R : Type) : Type := {
  repo_AddRelationship : R -> string -> string -> string -> R * option domain.error;
  repo_RemoveRelationship : R -> string -> string -> string -> R * option domain.error
}.

Record ReBACEnforcerImpl (R : Type) : Type := {
  repo : R;
  (** key: ["subject:relationshipType"] *)
  relationships : GoMap.t (list domain.Relationship);
  permissions : gmap string (list string)
}.

Arguments repo {R} _.
Arguments relationships {R} _.
Arguments permissions {R} _.

Definition initializeDefaultPermissions : gmap string (list string) :=
  <["manager" := ["read"; "write"; "delete"; "manage"] ]>
  (<["friend" := ["read_limited"] ]>
  (<["parent" := ["inherit"] ]>
  (<["group_access" := ["read"; "write"] ]>
  (<["member" := ["inherit"] ]>
  (<["viewer" := ["read"; "view"] ]>
  (<["editor" := ["read"; "write"; "edit"] ]>
  (<["owner" := ["read"; "write"; "delete"; "admin"] ]> ∅))))))).

(** [fmt.Sprintf("%s:%s", subject, relationship)] *)
Definition cache_key (subject relationship : string) : string :=
  subject +:+ ":" +:+ relationship.

(** [fmt.Sprintf("%s:reverse_%s", object, relationship)] *)
Definition cache_reverseKey (object relationship : string) : string :=
  object +:+ ":reverse_" +:+ relationship.

(** The cache update shared by [loadFromDatabase] and [AddRelationship]:
    the edge under its key, then the reverse edge under the reverse key. *)
Definition cache_insert (m : GoMap.t (list domain.Relationship))
    (subject relationship object : string) : GoMap.t (list domain.Relationship) :=
  let rel := {| domain.Subject := subject;
                domain.Relationship_ := relationship;
                domain.Object := object |} in
  let key := cache_key subject relationship in
  let m := GoMap.store m key (GoMap.index [] m key ++ [rel]) in
  let reverseKey := cache_reverseKey object relationship in
  GoMap.store m reverseKey
    (GoMap.index [] m reverseKey
       ++ [{| domain.Subject := object;
              domain.Relationship_ := "reverse_" +:+ relationship;
              domain.Object := subject |}]).

(** [for i, rel := range rels { if rel.Object == object { ...remove i...; break } }]:
    the slice without its first edge to [object], if there is one. *)
Fixpoint remove_first (object : string) (rels : list domain.Relationship)
  : option (list domain.Relationship) :=
  match rels with
  | [] => None
  | rel :: rest =>
      if String.eqb (domain.Object rel) object then Some rest
      else option_map (cons rel) (remove_first object rest)
  end.

Definition cache_remove (m : GoMap.t (list domain.Relationship))
    (subject relationship object : string) : GoMap.t (list domain.Relationship) :=
  let key := cache_key subject relationship in
  let m :=
    match remove_first object (GoMap.index [] m key) with
    | Some rels => GoMap.store m key rels
    | None => m
    end in
  let reverseKey := cache_reverseKey object relationship in
  match remove_first subject (GoMap.index [] m reverseKey) with
  | Some rels => GoMap.store m reverseKey rels
  | None => m
  end.

Definition mapActionToPermission (action : string) : string :=
  if String.eqb action "view" then "read"
  else if String.eqb action "edit" || String.eqb action "update"
          || String.eqb action "modify" then "write"
  else if String.eqb action "remove" then "delete"
  else if String.eqb action "manage" || String.eqb action "administer" then "admin"
  else action.

(** An element of the BFS queue of [FindRelationshipPath]. *)
Record queue_item : Type := {
  node : string;
  path : string;
  depth : Z
}.

(** [fmt.Sprintf("%s -[%s]-> %s", path, relationshipType, object)] *)
Definition arrow (path relationshipType object : string) : string :=
  path +:+ " -[" +:+ relationshipType +:+ "]-> " +:+ object.

(** The items that one iteration of the BFS loop appends to the queue:
    the [for key, relationships := range e.relationships] loop with its
    inner loop, [visited] already containing the current node. *)
Definition successors (m : GoMap.t (list domain.Relationship))
    (visited : gset string) (current : queue_item) : list queue_item :=
  flat_map
    (fun entry : string * list domain.Relationship =>
       let parts := strings.Split (fst entry) ":" in
       if negb (Nat.eqb (length parts) 2)
          || negb (String.eqb (nth 0 parts "") (node current))
       then []
       else
         let relationshipType := nth 1 parts "" in
         if strings.HasPrefix relationshipType "reverse_" then []
         else
           flat_map
             (fun rel : domain.Relationship =>
                if bool_decide (domain.Object rel ∈ visited) then []
                else [{| node := domain.Object rel;
                         path := arrow (path current) relationshipType
                                       (domain.Object rel);
                         depth := depth current + 1 |}])
             (snd entry))
    m.

(** The [for len(queue) > 0] loop; [None] when [fuel] iterations did not
    finish it. *)
Fixpoint bfs (fuel : nat) (m : GoMap.t (list domain.Relationship))
    (targetObject : string) (maxDepth : Z)
    (visited : gset string) (queue : list queue_item) : option (bool * string) :=
  match fuel with
  | O => None
  | S fuel =>
      match queue with
      | [] => Some (false, EmptyString)
      | current :: queue =>
          if depth current >? maxDepth then
            bfs fuel m targetObject maxDepth visited queue
          else if String.eqb (node current) targetObject then
            Some (true, path current)
          else if bool_decide (node current ∈ visited) then
            bfs fuel m targetObject maxDepth visited queue
          else
            let visited := {[node current]} ∪ visited in
            bfs fuel m targetObject maxDepth visited
                (queue ++ successors m visited current)
      end
  end.

(** Number of edges held in the cache, and a number of iterations that the
    BFS loop cannot exceed (see [bfs_bound_enough]). *)
Definition edge_count (m : GoMap.t (list domain.Relationship)) : nat :=
  length (flat_map snd m).

Definition bfs_bound (m : GoMap.t (list domain.Relationship)) : nat :=
  (2 + edge_count m * (1 + edge_count m))%nat.

(** The nodes that can enter the queue of a search from [subject]: the
    subject and the objects of the edges. *)
Definition candidates (m : GoMap.t (list domain.Relationship))
    (subject : string) : gset string :=
  {[subject]} ∪ list_to_set (map domain.Object (flat_map snd m)).

Section Engine.
Context {R : Type} {repository : ReBACRepository R}.

Definition with_relationships (e : ReBACEnforcerImpl R)
    (m : GoMap.t (list domain.Relationship)) : ReBACEnforcerImpl R :=
  {| repo := repo e; relationships := m; permissions := permissions e |}.

Definition with_repo (e : ReBACEnforcerImpl R) (r : R) : ReBACEnforcerImpl R :=
  {| repo := r; relationships := relationships e; permissions := permissions e |}.

Definition AddRelationship (e : ReBACEnforcerImpl R)
    (subject relationship object : string)
  : option domain.error * ReBACEnforcerImpl R :=
  match repo_AddRelationship (repo e) subject relationship object with
  | (r, Some err) =>
      (Some (domain.Wrapf "failed to save relationship to repository" err),
       with_repo e r)
  | (r, None) =>
      (None,
       with_relationships (with_repo e r)
         (cache_insert (relationships e) subject relationship object))
  end.

Definition RemoveRelationship (e : ReBACEnforcerImpl R)
    (subject relationship object : string)
  : option domain.error * ReBACEnforcerImpl R :=
  match repo_RemoveRelationship (repo e) subject relationship object with
  | (r, Some err) =>
      (Some (domain.Wrapf "failed to remove relationship from repository" err),
       with_repo e r)
  | (r, None) =>
      (None,
       with_relationships (with_repo e r)
         (cache_remove (relationships e) subject relationship object))
  end.

Definition GetRelationships (e : ReBACEnforcerImpl R) (subject : string)
  : list domain.Relationship * option domain.error :=
  (flat_map
     (fun entry : string * list domain.Relationship =>
        let parts := strings.Split (fst entry) ":" in
        if negb (String.eqb subject "") then
          if Nat.eqb (length parts) 2
             && String.eqb (nth 0 parts "") subject
             && negb (strings.HasPrefix (nth 1 parts "") "reverse_")
          then snd entry else []
        else
          if Nat.eqb (length parts) 2
             && negb (strings.HasPrefix (nth 1 parts "") "reverse_")
          then snd entry else [])
     (relationships e),
   None).

Definition FindRelationshipPath (e : ReBACEnforcerImpl R)
    (subject targetObject : string) (maxDepth : Z) : bool * string :=
  let maxDepth := if maxDepth <=? 0 then 5 else maxDepth in
  default (false, EmptyString)
    (bfs (bfs_bound (relationships e)) (relationships e) targetObject maxDepth
         ∅ [{| node := subject; path := subject; depth := 0 |}]).

Definition getDirectRelationships (e : ReBACEnforcerImpl R)
    (subject object : string) : list domain.Relationship :=
  flat_map
    (fun entry : string * list domain.Relationship =>
       let parts := strings.Split (fst entry) ":" in
       if Nat.eqb (length parts) 2
          && String.eqb (nth 0 parts "") subject
          && negb (strings.HasPrefix (nth 1 parts "") "reverse_")
       then filter (fun rel => String.eqb (domain.Object rel) object) (snd entry)
       else [])
    (relationships e).

Definition hasPermissionThroughRelationship (e : ReBACEnforcerImpl R)
    (relationship permission : string) : bool :=
  existsb (fun perm => String.eqb perm permission || String.eqb perm "admin")
          (default [] (permissions e !! relationship)).

(** The loop of [checkGroupAccess] over the groups of the subject. *)
Fixpoint checkGroupAccess_loop (e : ReBACEnforcerImpl R)
    (subject object permission : string) (groups : list domain.Relationship)
  : bool * string :=
  match groups with
  | [] => (false, EmptyString)
  | groupRel :: rest =>
      let groupName := domain.Object groupRel in
      match List.find
              (fun rel => hasPermissionThroughRelationship e
                            (domain.Relationship_ rel) permission)
              (getDirectRelationships e groupName object) with
      | Some rel =>
          (true,
           subject +:+ " -[member]-> " +:+ groupName +:+ " -["
             +:+ domain.Relationship_ rel +:+ "]-> " +:+ object)
      | None => checkGroupAccess_loop e subject object permission rest
      end
  end.

Definition checkGroupAccess (e : ReBACEnforcerImpl R)
    (subject object permission : string) : bool * string :=
  match GoMap.lookup (relationships e) (subject +:+ ":member") with
  | Some groups => checkGroupAccess_loop e subject object permission groups
  | None => (false, EmptyString)
  end.

Definition checkSocialAccess (e : ReBACEnforcerImpl R)
    (subject object : string) (maxDepth : Z) : bool * string :=
  let (found, path) := FindRelationshipPath e subject object maxDepth in
  if found && strings.Contains path "friend" then
    if hasPermissionThroughRelationship e "friend" "read_limited"
    then (true, path) else (false, EmptyString)
  else (false, EmptyString).

(** [checkHierarchicalAccess], whose body calls [Enforce] again: [enforce]
    is that call.  [None] means that the call did not return.
    The inner loop, over the edges stored under one ["x:parent"] key,
    yields [Some (Some path)] for [return true, path] and [Some None]
    when it falls through. *)
Fixpoint checkHierarchicalAccess_rels
    (enforce : string -> string -> string -> option (bool * string * option domain.error))
    (subject object permission parentObject : string)
    (rels : list domain.Relationship) : option (option string) :=
  match rels with
  | [] => Some None
  | rel :: rest =>
      if String.eqb (domain.Object rel) object then
        match enforce subject parentObject permission with
        | None => None
        | Some (hasAccess, parentPath, _) =>
            if hasAccess : bool then
              Some (Some (parentPath +:+ " -> " +:+ parentObject
                            +:+ " -[parent]-> " +:+ object))
            else checkHierarchicalAccess_rels enforce subject object permission
                   parentObject rest
        end
      else checkHierarchicalAccess_rels enforce subject object permission
             parentObject rest
  end.

Fixpoint checkHierarchicalAccess_keys
    (enforce : string -> string -> string -> option (bool * string * option domain.error))
    (subject object permission : string)
    (entries : GoMap.t (list domain.Relationship)) : option (bool * string) :=
  match entries with
  | [] => Some (false, EmptyString)
  | (key, rels) :: rest =>
      let parts := strings.Split key ":" in
      if negb (Nat.eqb (length parts) 2)
         || negb (String.eqb (nth 1 parts "") "parent")
      then checkHierarchicalAccess_keys enforce subject object permission rest
      else
        let parentObject := nth 0 parts "" in
        match checkHierarchicalAccess_rels enforce subject object permission
                parentObject rels with
        | None => None
        | Some (Some path) => Some (true, path)
        | Some None =>
            checkHierarchicalAccess_keys enforce subject object permission rest
        end
  end.

Definition checkHierarchicalAccess
    (enforce : string -> string -> string -> option (bool * string * option domain.error))
    (e : ReBACEnforcerImpl R) (subject object permission : string)
  : option (bool * string) :=
  checkHierarchicalAccess_keys enforce subject object permission (relationships e).

(** The body of [Enforce]; [enforce] is [e.Enforce] as
    [checkHierarchicalAccess] calls it. *)
Definition Enforce_body
    (enforce : string -> string -> string -> option (bool * string * option domain.error))
    (e : ReBACEnforcerImpl R) (subject object action : string)
  : option (bool * string * option domain.error) :=
  let permission := mapActionToPermission action in
  let directRelationships := getDirectRelationships e subject object in
  match List.find
          (fun rel => hasPermissionThroughRelationship e
                        (domain.Relationship_ rel) permission)
          directRelationships with
  | Some rel =>
      Some (true, arrow subject (domain.Relationship_ rel) object, None)
  | None =>
      let (groupAccess, groupPath) :=
        checkGroupAccess e subject object permission in
      if groupAccess then Some (true, groupPath, None)
      else
        match checkHierarchicalAccess enforce e subject object permission with
        | None => None
        | Some (hierarchicalAccess, hierarchicalPath) =>
            if hierarchicalAccess : bool then
              Some (true, hierarchicalPath, None)
            else if String.eqb permission "read"
                    || String.eqb permission "read_limited" then
              let (socialAccess, socialPath) :=
                checkSocialAccess e subject object 3 in
              if socialAccess then Some (true, socialPath, None)
              else Some (false, EmptyString, None)
            else Some (false, EmptyString, None)
        end
  end.

(** [Enforce].  The source recurses through [checkHierarchicalAccess]
    with nothing that decreases; [fuel] bounds the nesting of the calls
    and [None] is a run that needs deeper nesting than [fuel]. *)
Fixpoint Enforce (fuel : nat) (e : ReBACEnforcerImpl R)
    (subject object action : string)
  : option (bool * string * option domain.error) :=
  match fuel with
  | O => None
  | S fuel => Enforce_body (Enforce fuel e) e subject object action
  end.

End Engine.

(** The read side of the relationship repository. *)
Class ReBACLoader (R : Type) : Type := {
  repo_LoadAllRelationships : R -> list domain.Relationship * option domain.error
}.

Section Loading.
Context {R : Type} {loader : ReBACLoader R}.

(** [loadFromDatabase]: the cache is cleared and rebuilt from the records
    of the repository. *)
Definition loadFromDatabase (e : ReBACEnforcerImpl R)
  : option domain.error * ReBACEnforcerImpl R :=
  match repo_LoadAllRelationships (repo e) with
  | (_, Some err) => (Some err, e)
  | (records, None) =>
      (None,
       with_relationships e
         (fold_left
            (fun m rel =>
               cache_insert m (domain.Subject rel) (domain.Relationship_ rel)
                            (domain.Object rel))
            records []))
  end.

Definition CheckRelationshipPermission (e : ReBACEnforcerImpl R)
    (relationship permission : string) : bool * option domain.error :=
  match permissions e !! relationship with
  | None => (false, None)
  | Some perms =>
      (existsb (fun perm => String.eqb perm permission || String.eqb perm "admin")
               perms,
       None)
  end.

End Loading.

(** The caches that the engine can hold: [relationships] starts empty and
    is written by [loadFromDatabase], [AddRelationship] and
    [RemoveRelationship] only. *)
Inductive built : GoMap.t (list domain.Relationship) -> Prop :=
| built_empty : built []
| built_insert (m : GoMap.t (list domain.Relationship))
    (subject relationship object : string) :
    built m -> built (cache_insert m subject relationship object)
| built_remove (m : GoMap.t (list domain.Relationship))
    (subject relationship object : string) :
    built m -> built (cache_remove m subject relationship object).

End ReBAC.


(** ** The RBAC engine: [RBACEnforcerImpl] *)

Module RBAC.

Class RBACPolicyRepository (R : Type) : Type := {
  GetPolicy : R -> list (list string) * option domain.error;
  GetRolesForUser : R -> string -> list string * option domain.error
}.

Record RBACEnforcerImpl (R : Type) : Type := { repo : R }.
Arguments repo {R} _.

(** [len(p) == 3 && p[0] == subject && p[1] == object && p[2] == action] *)
Definition matches (p : list string) (subject object action : string) : bool :=
  Nat.eqb (length p) 3
  && String.eqb (nth 0 p "") subject
  && String.eqb (nth 1 p "") object
  && String.eqb (nth 2 p "") action.

Section Engine.
Context {R : Type} {repository : RBACPolicyRepository R}.

Definition Enforce (e : RBACEnforcerImpl R) (subject object action : string)
  : bool * option domain.error :=
  match GetPolicy (repo e) with
  | (_, Some err) => (false, Some err)
  | (policies, None) =>
      if existsb (fun p => matches p subject object action) policies
      then (true, None)
      else
        match GetRolesForUser (repo e) subject with
        | (_, Some err) => (false, Some err)
        | (roles, None) =>
            if existsb
                 (fun role =>
                    existsb (fun p => matches p role object action) policies)
                 roles
            then (true, None)
            else (false, None)
        end
  end.

End Engine.

End RBAC.

(** ** The ACL engine: [ACLEnforcerImpl] *)

Module ACL.

Class ACLPolicyRepository (R : Type) : Type := {
  GetPolicy : R -> list (list string) * option domain.error
}.

Record ACLEnforcerImpl (R : Type) : Type := { repo : R }.
Arguments repo {R} _.

Section Engine.
Context {R : Type} {repository : ACLPolicyRepository R}.

(** The test of the loop is the text of [RBAC.matches]. *)
Definition Enforce (e : ACLEnforcerImpl R) (subject object action : string)
  : bool * option domain.error :=
  match GetPolicy (repo e) with
  | (_, Some err) => (false, Some err)
  | (policies, None) =>
      if existsb (fun p => RBAC.matches p subject object action) policies
      then (true, None)
      else (false, None)
  end.

End Engine.

End ACL.

(** ** The dispatcher of the core: [AuthorizationServiceImpl] *)

Module services.

(** The four driving ports, by their [Enforce] method. *)
Record ACLEnforcer : Type := {
  acl_Enforce : string -> string -> string -> bool * option domain.error
}.
Record RBACEnforcer : Type := {
  rbac_Enforce : string -> string -> string -> bool * option domain.error
}.
Record ABACEnforcer : Type := {
  abac_Enforce : string -> string -> string -> gmap string string
                 -> bool * option domain.error
}.
Record ReBACEnforcer : Type := {
  rebac_Enforce : string -> string -> string -> bool * string * option domain.error
}.

(** A [nil] enforcer ([None]) is a disabled model. *)
Record AuthorizationServiceImpl : Type := {
  aclEnforcer : option ACLEnforcer;
  rbacEnforcer : option RBACEnforcer;
  abacEnforcer : option ABACEnforcer;
  rebacEnforcer : option ReBACEnforcer
}.

Definition Enforce (s : AuthorizationServiceImpl)
    (model : domain.AccessControlModel) (subject object action : string)
    (attributes : gmap string string) : bool * option domain.error :=
  if String.eqb model domain.ModelACL then
    match aclEnforcer s with
    | None => (false, Some domain.ErrServiceUnavailable)
    | Some enforcer => acl_Enforce enforcer subject object action
    end
  else if String.eqb model domain.ModelRBAC then
    match rbacEnforcer s with
    | None => (false, Some domain.ErrServiceUnavailable)
    | Some enforcer => rbac_Enforce enforcer subject object action
    end
  else if String.eqb model domain.ModelABAC then
    match abacEnforcer s with
    | None => (false, Some domain.ErrServiceUnavailable)
    | Some enforcer => abac_Enforce enforcer subject object action attributes
    end
  else if String.eqb model domain.ModelReBAC then
    match rebacEnforcer s with
    | None => (false, Some domain.ErrServiceUnavailable)
    | Some enforcer =>
        let '(allowed, _, err) := rebac_Enforce enforcer subject object action in
        (allowed, err)
    end
  else (false, Some (domain.Errorf ("invalid model specified: " +:+ model))).

End services.

(** ** The single-file service of [main.go] *)

Module main.

(** [AuthService]: the two casbin enforcers behind [getEnforcer], the
    ABAC matcher and the relationship graph, each by the one method that
    [Enforce] calls. *)
Record AuthService : Type := {
  aclEnforcer : string -> string -> string -> bool * option domain.error;
  rbacEnforcer : string -> string -> string -> bool * option domain.error;
  abacEnforcer : string -> string -> string -> bool * option domain.error;
  matchABACAttributes : string -> string -> string -> gmap string string -> bool;
  CheckReBACAccess : string -> string -> string -> bool * string
}.

Definition getEnforcer (s : AuthService) (model : domain.AccessControlModel)
  : string -> string -> string -> bool * option domain.error :=
  if String.eqb model domain.ModelACL then aclEnforcer s
  else if String.eqb model domain.ModelRBAC then rbacEnforcer s
  else if String.eqb model domain.ModelABAC then abacEnforcer s
  else rbacEnforcer s.

Definition Enforce (s : AuthService)
    (model : domain.AccessControlModel) (subject object action : string)
    (attributes : gmap string string) : bool * option domain.error :=
  let model := if String.eqb model "" then domain.ModelRBAC else model in
  if String.eqb model domain.ModelACL || String.eqb model domain.ModelRBAC then
    getEnforcer s model subject object action
  else if String.eqb model domain.ModelABAC then
    (matchABACAttributes s subject object action attributes, None)
  else if String.eqb model domain.ModelReBAC then
    (fst (CheckReBACAccess s subject object action), None)
  else (false, Some (domain.Errorf ("invalid model specified: " +:+ model))).

(** [PolicyEngine.Evaluate] sorts its snapshot by hand:
    [for i ... for j := i+1 ... if s[i].Priority < s[j].Priority { swap }]. *)
Definition swap_if_lower (s : list domain.ABACPolicy) (i j : nat)
  : list domain.ABACPolicy :=
  match s !! i, s !! j with
  | Some pi, Some pj =>
      if domain.Priority pi <? domain.Priority pj
      then <[j := pi]> (<[i := pj]> s) else s
  | _, _ => s
  end.

Definition sort_by_priority (s : list domain.ABACPolicy) : list domain.ABACPolicy :=
  fold_left
    (fun s i =>
       fold_left (fun s j => swap_if_lower s i j)
                 (seq (S i) (length s - S i)) s)
    (seq 0 (length s)) s.

Section Evaluate.
Context {lib : GoLibrary}.

(** The loop over the sorted policies; [evaluatePolicy] of [main.go] is
    the same text as the one of the core. *)
Fixpoint Evaluate_loop (sortedPolicies : list domain.ABACPolicy)
    (ctx : ABAC.PolicyEvaluationContext) : bool * string :=
  match sortedPolicies with
  | [] => (false, "No policy grants access")
  | policy :: rest =>
      if ABAC.evaluatePolicy policy ctx then
        if String.eqb (domain.Effect policy) "allow" then
          (true, "Access granted by policy: " +:+ domain.Name policy)
        else if String.eqb (domain.Effect policy) "deny" then
          (false, "Access denied by policy: " +:+ domain.Name policy)
        else Evaluate_loop rest ctx
      else Evaluate_loop rest ctx
  end.

(** [snapshot] is the cache in the order in which [range] visited it. *)
Definition Evaluate (snapshot : GoMap.t domain.ABACPolicy)
    (ctx : ABAC.PolicyEvaluationContext) : bool * string :=
  Evaluate_loop (sort_by_priority (map snd snapshot)) ctx.

End Evaluate.

End main.


(** ** The rows of the SQLite policy repository

    The two converters build their condition slices with [make], and a
    slice that [make] returns is not nil, also when it is empty.  A Go
    slice is therefore kept here as it is held: nil, or made with its
    elements.  [len] and [range] read the elements and treat a nil slice
    as an empty one. *)

Module sqlite.

Inductive slice (T : Type) : Type :=
| nil_slice
| make_slice (elements : list T).

Arguments nil_slice {T}.
Arguments make_slice {T} _.

Definition elements {T : Type} (s : slice T) : list T :=
  match s with
  | nil_slice => []
  | make_slice l => l
  end.

Record PolicyConditionDB : Type := {
  CondID : N;
  PolicyID : string;
  Type_ : string;
  Field : string;
  Operator : string;
  Value : string;
  LogicOp : string
}.

Record ABACPolicyDB : Type := {
  ID : string;
  Name : string;
  Description : string;
  Effect : string;
  Priority : Z;
  CreatedAt : domain.Time;
  UpdatedAt : domain.Time;
  Conditions : slice PolicyConditionDB
}.

(** [domain.ABACPolicy] as the converters take and return it, its
    [Conditions] being the slice; [policy_of] is the policy as the engines
    read it, by the elements of that slice. *)
Record ABACPolicy : Type := {
  policy_ID : string;
  policy_Name : string;
  policy_Description : string;
  policy_Effect : string;
  policy_Priority : Z;
  policy_Conditions : slice domain.PolicyCondition;
  policy_CreatedAt : domain.Time;
  policy_UpdatedAt : domain.Time
}.

Definition policy_of (policy : ABACPolicy) : domain.ABACPolicy :=
  {| domain.ID := policy_ID policy;
     domain.Name := policy_Name policy;
     domain.Description := policy_Description policy;
     domain.Effect := policy_Effect policy;
     domain.Priority := policy_Priority policy;
     domain.Conditions := elements (policy_Conditions policy);
     domain.CreatedAt := policy_CreatedAt policy;
     domain.UpdatedAt := policy_UpdatedAt policy |}.

Definition toABACPolicyDB (policy : ABACPolicy) : ABACPolicyDB :=
  let conditionsDB :=
    make_slice
      (map (fun cond =>
              {| CondID := domain.CondID cond;
                 PolicyID := domain.PolicyID cond;
                 Type_ := domain.Type_ cond;
                 Field := domain.Field cond;
                 Operator := domain.Operator cond;
                 Value := domain.Value cond;
                 LogicOp := domain.LogicOp cond |})
           (elements (policy_Conditions policy))) in
  {| ID := policy_ID policy;
     Name := policy_Name policy;
     Description := policy_Description policy;
     Effect := policy_Effect policy;
     Priority := policy_Priority policy;
     CreatedAt := policy_CreatedAt policy;
     UpdatedAt := policy_UpdatedAt policy;
     Conditions := conditionsDB |}.

Definition toDomainABACPolicy (policyDB : ABACPolicyDB) : ABACPolicy :=
  let conditions :=
    make_slice
      (map (fun condDB =>
              {| domain.CondID := CondID condDB;
                 domain.PolicyID := PolicyID condDB;
                 domain.Type_ := Type_ condDB;
                 domain.Field := Field condDB;
                 domain.Operator := Operator condDB;
                 domain.Value := Value condDB;
                 domain.LogicOp := LogicOp condDB |})
           (elements (Conditions policyDB))) in
  {| policy_ID := ID policyDB;
     policy_Name := Name policyDB;
     policy_Description := Description policyDB;
     policy_Effect := Effect policyDB;
     policy_Priority := Priority policyDB;
     policy_Conditions := conditions;
     policy_CreatedAt := CreatedAt policyDB;
     policy_UpdatedAt := UpdatedAt policyDB |}.

(** The slice of a policy or of a row replaced by a made slice of the same
    elements. *)
Definition with_made_Conditions (policy : ABACPolicy) : ABACPolicy :=
  {| policy_ID := policy_ID policy;
     policy_Name := policy_Name policy;
     policy_Description := policy_Description policy;
     policy_Effect := policy_Effect policy;
     policy_Priority := policy_Priority policy;
     policy_Conditions := make_slice (elements (policy_Conditions policy));
     policy_CreatedAt := policy_CreatedAt policy;
     policy_UpdatedAt := policy_UpdatedAt policy |}.

Definition with_made_ConditionsDB (policyDB : ABACPolicyDB) : ABACPolicyDB :=
  {| ID := ID policyDB;
     Name := Name policyDB;
     Description := Description policyDB;
     Effect := Effect policyDB;
     Priority := Priority policyDB;
     CreatedAt := CreatedAt policyDB;
     UpdatedAt := UpdatedAt policyDB;
     Conditions := make_slice (elements (Conditions policyDB)) |}.

End sqlite.

(** ** Reference definitions, in the words of the specification *)

Module Spec.

(** *** Condition sequences (§4.4)

    "Initialize [result = eval(c1)], [op = "and"].  For [i = 2..n]: after
    evaluating [c_(i-1)], set [op = c_(i-1).logic_op] (if non-empty; else
    retain [op]).  Then [result = result op eval(c_i)]." *)

Inductive LogicOperator : Type := And | Or.

(** The operators are "and" and "or"; the evaluator takes every operator
    other than "and" for "or". *)
Definition logic_operator (op : string) : LogicOperator :=
  if String.eqb op "and" then And else Or.

Definition apply_operator (op : string) (result x : bool) : bool :=
  match logic_operator op with
  | And => result && x
  | Or => result || x
  end.

(** [prev] is [c_(i-1)], the head of [rest] is [c_i]. *)
Fixpoint fold_conditions (eval : domain.PolicyCondition -> bool)
    (prev : domain.PolicyCondition) (rest : list domain.PolicyCondition)
    (result : bool) (op : string) : bool :=
  match rest with
  | [] => result
  | c :: rest =>
      let op := if String.eqb (domain.LogicOp prev) "" then op
                else domain.LogicOp prev in
      fold_conditions eval c rest (apply_operator op result (eval c)) op
  end.

Definition condition_sequence (eval : domain.PolicyCondition -> bool)
    (c1 : domain.PolicyCondition) (rest : list domain.PolicyCondition) : bool :=
  fold_conditions eval c1 rest (eval c1) "and".

(** *** A stable sort (§4.4, step 3): insertion sort, which keeps elements
    that [less] does not separate in the order in which they came. *)

Fixpoint insert_by {A : Type} (less : A -> A -> bool) (x : A) (l : list A)
  : list A :=
  match l with
  | [] => [x]
  | y :: l' => if less y x then y :: insert_by less x l' else x :: l
  end.

Definition stable_sort {A : Type} (less : A -> A -> bool) (l : list A) : list A :=
  foldr (insert_by less) [] l.

(** The order in which §4.4 has the policies evaluated: the snapshot,
    sorted descending by priority with a stable sort. *)
Definition stable_priority_order (h : gmap ABAC.loc domain.ABACPolicy)
    (snapshot : list ABAC.loc) : list ABAC.loc :=
  stable_sort
    (fun i j => domain.Priority (h !!! i) >? domain.Priority (h !!! j))
    snapshot.

(** *** Paths (§4.5, §8.1 item 8)

    A path "begins with the subject and ends with the object, separated by
    arrow segments of form [ -[rel]-> ]": the subject followed by hops
    [(rel, node)], each rendered as an arrow segment and the node. *)

Definition render (subject : string) (hops : list (string * string)) : string :=
  fold_left (fun path hop => ReBAC.arrow path (fst hop) (snd hop)) hops subject.

Definition last_node (subject : string) (hops : list (string * string)) : string :=
  List.last (map snd hops) subject.

(** The names that occur in a relationship cache: the fields of its keys
    and of its edges. *)
Definition names (m : GoMap.t (list domain.Relationship)) : list string :=
  flat_map
    (fun entry : string * list domain.Relationship =>
       strings.Split (fst entry) ":"
       ++ flat_map (fun rel => [domain.Subject rel; domain.Relationship_ rel;
                                domain.Object rel])
                   (snd entry))
    m.

(** [path] leads from [subject] to [object] by arrow segments between
    names of the cache. *)
Definition arrow_path (m : GoMap.t (list domain.Relationship))
    (subject object path : string) : Prop :=
  exists hops : list (string * string),
    Forall (fun hop => fst hop ∈ names m /\ snd hop ∈ names m) hops
    /\ path = render subject hops
    /\ last_node subject hops = object.

End Spec.

(** ** Notions used to state the properties *)

Module Invariants.

(** What [Validate] asks of a condition. *)
Definition well_formed_condition (cond : domain.PolicyCondition) : Prop :=
  domain.Type_ cond <> "" /\ domain.Field cond <> ""
  /\ domain.Operator cond <> "" /\ domain.Value cond <> ""
  /\ (domain.LogicOp cond = "" \/ domain.LogicOp cond = "and"
      \/ domain.LogicOp cond = "or").

(** Every edge of the cache lies under the key made of its subject and
    its relationship. *)
Definition keyed (m : GoMap.t (list domain.Relationship)) : Prop :=
  forall key rels rel,
    (key, rels) ∈ m -> rel ∈ rels ->
    key = ReBAC.cache_key (domain.Subject rel) (domain.Relationship_ rel).

(** A forward edge of the cache, as the path search follows it: an edge to
    [target] stored under the key ["source:relationship"], where the
    relationship does not begin with "reverse_". *)
Definition edge (m : GoMap.t (list domain.Relationship))
    (source relationship target : string) : Prop :=
  exists key rels rel,
    (key, rels) ∈ m /\ rel ∈ rels
    /\ strings.Split key ":" = [source; relationship]
    /\ strings.HasPrefix relationship "reverse_" = false
    /\ domain.Object rel = target.

(** The hops [(relationship, node)] lead from [source] along edges. *)
Fixpoint walk (m : GoMap.t (list domain.Relationship)) (source : string)
    (hops : list (string * string)) : Prop :=
  match hops with
  | [] => True
  | (relationship, node) :: rest =>
      edge m source relationship node /\ walk m node rest
  end.

(** [rank] decreases from an object to each of its parents: for every
    edge to an object under a key ["p:parent"], the rank of [p] is below
    the rank of the object. *)
Definition ranked_parents (rank : string -> nat)
    (m : GoMap.t (list domain.Relationship)) : bool :=
  forallb
    (fun entry : string * list domain.Relationship =>
       let parts := strings.Split (fst entry) ":" in
       if Nat.eqb (length parts) 2 && String.eqb (nth 1 parts "") "parent"
       then forallb (fun rel => Nat.ltb (rank (nth 0 parts ""))
                                        (rank (domain.Object rel)))
                    (snd entry)
       else true)
    m.

(** The two invariants of the exchange sort of [main.go]: the first [i]
    places hold policies of no lower priority than every later place, and
    place [i] holds a policy of no lower priority than the places between
    [i] and [j]. *)
Definition descending_upto (i : nat) (s : list domain.ABACPolicy) : Prop :=
  forall a b x y,
    (a < i)%nat -> (a < b)%nat -> s !! a = Some x -> s !! b = Some y ->
    domain.Priority y <= domain.Priority x.

Definition leads (i j : nat) (s : list domain.ABACPolicy) : Prop :=
  forall b x y,
    (i < b < j)%nat -> s !! i = Some x -> s !! b = Some y ->
    domain.Priority y <= domain.Priority x.

(** The four rules by which the ReBAC engine allows a permission, as its
    four checks read the cache; [enforce] is the nested call of
    [Enforce]. *)
Section Rules.
Context {R : Type} {repository : ReBAC.ReBACRepository R}.

Definition direct_rule (e : ReBAC.ReBACEnforcerImpl R)
    (subject object permission : string) : Prop :=
  exists rel,
    rel ∈ ReBAC.getDirectRelationships e subject object
    /\ ReBAC.hasPermissionThroughRelationship e (domain.Relationship_ rel)
         permission = true.

Definition group_rule (e : ReBAC.ReBACEnforcerImpl R)
    (subject object permission : string) : Prop :=
  exists groups groupRel,
    GoMap.lookup (ReBAC.relationships e) (subject +:+ ":member") = Some groups
    /\ groupRel ∈ groups
    /\ direct_rule e (domain.Object groupRel) object permission.

Definition parent_rule
    (enforce : string -> string -> string
               -> option (bool * string * option domain.error))
    (e : ReBAC.ReBACEnforcerImpl R) (subject object permission : string) : Prop :=
  exists key rels rel parentPath err,
    (key, rels) ∈ ReBAC.relationships e
    /\ length (strings.Split key ":") = 2%nat
    /\ nth 1 (strings.Split key ":") "" = "parent"
    /\ rel ∈ rels /\ domain.Object rel = object
    /\ enforce subject (nth 0 (strings.Split key ":") "") permission
       = Some (true, parentPath, err).

Definition social_rule (e : ReBAC.ReBACEnforcerImpl R)
    (subject object permission : string) : Prop :=
  (permission = "read" \/ permission = "read_limited")
  /\ exists path,
       ReBAC.FindRelationshipPath e subject object 3 = (true, path)
       /\ strings.Contains path "friend" = true
       /\ ReBAC.hasPermissionThroughRelationship e "friend" "read_limited" = true.

(** The path that each of the four checks of [Enforce] returns when it
    succeeds for [permission]; [enforce] is the nested call of [Enforce]. *)
Definition direct_path (e : ReBAC.ReBACEnforcerImpl R)
    (subject object permission path : string) : Prop :=
  exists rel,
    rel ∈ ReBAC.getDirectRelationships e subject object
    /\ ReBAC.hasPermissionThroughRelationship e (domain.Relationship_ rel)
         permission = true
    /\ path = Spec.render subject [(domain.Relationship_ rel, object)].

Definition group_path (e : ReBAC.ReBACEnforcerImpl R)
    (subject object permission path : string) : Prop :=
  exists groups groupRel rel,
    GoMap.lookup (ReBAC.relationships e) (subject +:+ ":member") = Some groups
    /\ groupRel ∈ groups
    /\ rel ∈ ReBAC.getDirectRelationships e (domain.Object groupRel) object
    /\ ReBAC.hasPermissionThroughRelationship e (domain.Relationship_ rel)
         permission = true
    /\ path = Spec.render subject
                [("member", domain.Object groupRel);
                 (domain.Relationship_ rel, object)].

Definition parent_path
    (enforce : string -> string -> string
               -> option (bool * string * option domain.error))
    (e : ReBAC.ReBACEnforcerImpl R) (subject object permission path : string)
  : Prop :=
  exists key rels rel parentPath err,
    (key, rels) ∈ ReBAC.relationships e
    /\ length (strings.Split key ":") = 2%nat
    /\ nth 1 (strings.Split key ":") "" = "parent"
    /\ rel ∈ rels /\ domain.Object rel = object
    /\ enforce subject (nth 0 (strings.Split key ":") "") permission
       = Some (true, parentPath, err)
    /\ path = parentPath +:+ " -> " +:+ nth 0 (strings.Split key ":") ""
                +:+ " -[parent]-> " +:+ object.

Definition social_path (e : ReBAC.ReBACEnforcerImpl R)
    (subject object permission path : string) : Prop :=
  (permission = "read" \/ permission = "read_limited")
  /\ ReBAC.FindRelationshipPath e subject object 3 = (true, path)
  /\ strings.Contains path "friend" = true
  /\ ReBAC.hasPermissionThroughRelationship e "friend" "read_limited" = true
  /\ exists hops,
       path = Spec.render subject hops
       /\ Spec.last_node subject hops = object
       /\ (length hops <= 3)%nat
       /\ walk (ReBAC.relationships e) subject hops.

(** The paths with which [Enforce] allows [action]: one for each of its
    four checks.  A direct edge that grants the permission gives one arrow
    segment; membership of a group that has such an edge gives two; an
    edge to the object under a key ["p:parent"] extends a path with which
    the mapped permission is allowed on [p] (the nested call is made with
    the permission as its action) by [ -> p -[parent]-> object]; and for
    "read" and "read_limited" a walk of at most three forward edges whose
    rendering contains "friend" is rendered as it is. *)
Inductive explanation (e : ReBAC.ReBACEnforcerImpl R)
  : string -> string -> string -> string -> Prop :=
| explanation_direct (subject action object : string) (rel : domain.Relationship) :
    rel ∈ ReBAC.getDirectRelationships e subject object ->
    ReBAC.hasPermissionThroughRelationship e (domain.Relationship_ rel)
      (ReBAC.mapActionToPermission action) = true ->
    explanation e subject action object
      (Spec.render subject [(domain.Relationship_ rel, object)])
| explanation_group (subject action object : string)
    (groups : list domain.Relationship) (groupRel rel : domain.Relationship) :
    GoMap.lookup (ReBAC.relationships e) (subject +:+ ":member") = Some groups ->
    groupRel ∈ groups ->
    rel ∈ ReBAC.getDirectRelationships e (domain.Object groupRel) object ->
    ReBAC.hasPermissionThroughRelationship e (domain.Relationship_ rel)
      (ReBAC.mapActionToPermission action) = true ->
    explanation e subject action object
      (Spec.render subject
         [("member", domain.Object groupRel); (domain.Relationship_ rel, object)])
| explanation_parent (subject action object key : string)
    (rels : list domain.Relationship) (rel : domain.Relationship)
    (parentPath : string) :
    (key, rels) ∈ ReBAC.relationships e ->
    length (strings.Split key ":") = 2%nat ->
    nth 1 (strings.Split key ":") "" = "parent" ->
    rel ∈ rels -> domain.Object rel = object ->
    explanation e subject (ReBAC.mapActionToPermission action)
      (nth 0 (strings.Split key ":") "") parentPath ->
    explanation e subject action object
      (parentPath +:+ " -> " +:+ nth 0 (strings.Split key ":") ""
         +:+ " -[parent]-> " +:+ object)
| explanation_social (subject action object : string)
    (hops : list (string * string)) :
    ReBAC.mapActionToPermission action = "read"
    \/ ReBAC.mapActionToPermission action = "read_limited" ->
    ReBAC.hasPermissionThroughRelationship e "friend" "read_limited" = true ->
    walk (ReBAC.relationships e) subject hops ->
    Spec.last_node subject hops = object ->
    (length hops <= 3)%nat ->
    strings.Contains (Spec.render subject hops) "friend" = true ->
    explanation e subject action object (Spec.render subject hops).

End Rules.

(** The queue of the path search holds its items by depth: an item is at
    most one segment deeper than the items before it. *)
Definition layered (queue : list ReBAC.queue_item) : Prop :=
  StronglySorted
    (fun a b => ReBAC.depth a <= ReBAC.depth b <= ReBAC.depth a + 1) queue.

End Invariants.

(** ** Collaborators and data used to run the definitions *)

Module fixtures.

(** A Go library in which numbers are decimal naturals, a pattern matches
    the strings that contain it, and [sort.Slice] is insertion sort. *)
Fixpoint parse_digits (s : string) (acc : N) : option N :=
  match s with
  | EmptyString => Some acc
  | String c rest =>
      match Ascii.is_nat c with
      | Some d => parse_digits rest (10 * acc + N.of_nat d)%N
      | None => None
      end
  end.

Definition parse_decimal (s : string) : option N :=
  match s with
  | EmptyString => None
  | _ => parse_digits s 0%N
  end.

Definition library : GoLibrary :=
  {| float64 := N;
     strconv_ParseFloat := parse_decimal;
     float64_gt := fun x y => N.ltb y x;
     float64_lt := N.ltb;
     regexp_MatchString := fun pattern s => strings.Contains s pattern;
     sort_Slice := fun A less l => Spec.stable_sort less l |}.

(** The same library with [sort.Slice] as Go runs it, whatever
    [breakPatterns_func] does. *)
Definition library_go
    (breakPatterns : forall A : Type, list A -> nat -> nat -> list A)
  : GoLibrary :=
  {| float64 := N;
     strconv_ParseFloat := parse_decimal;
     float64_gt := fun x y => N.ltb y x;
     float64_lt := N.ltb;
     regexp_MatchString := fun pattern s => strings.Contains s pattern;
     sort_Slice :=
       fun A less l => default l (gosort.Slice less (breakPatterns A) l) |}.

(** Repositories: the state [true] is a store that accepts every write,
    [false] one that refuses them. *)
Definition outage : domain.error := domain.External "database is locked".

#[global] Instance policy_repository : ABAC.ABACPolicyRepository bool :=
  {| ABAC.repo_AddPolicy :=
       fun (up : bool) p => (up, p, if up then None else Some outage);
     ABAC.repo_RemovePolicy :=
       fun (up : bool) _ => (up, if up then None else Some outage);
     ABAC.repo_UpdatePolicy :=
       fun (up : bool) p => (up, p, if up then None else Some outage) |}.

#[global] Instance rebac_repository : ReBAC.ReBACRepository bool :=
  {| ReBAC.repo_AddRelationship :=
       fun (up : bool) _ _ _ => (up, if up then None else Some outage);
     ReBAC.repo_RemoveRelationship :=
       fun (up : bool) _ _ _ => (up, if up then None else Some outage) |}.

(** Attributes of users and of objects, held in memory. *)
#[global] Instance attribute_repository
  : ABAC.AttributeRepository (gmap string (gmap string string)
                              * gmap string (gmap string string)) :=
  {| ABAC.GetUserAttributes := fun a user => (fst a !! user, None);
     ABAC.GetObjectAttributes := fun a object => (snd a !! object, None) |}.

(** RBAC policies and role assignments [(user, role)], held in memory. *)
#[global] Instance rbac_repository
  : RBAC.RBACPolicyRepository (list (list string) * list (string * string)) :=
  {| RBAC.GetPolicy := fun r => (fst r, None);
     RBAC.GetRolesForUser :=
       fun r user =>
         (map snd (filter (fun ur => String.eqb (fst ur) user) (snd r)), None) |}.

Definition condition (type field operator value logic_op : string)
  : domain.PolicyCondition :=
  {| domain.CondID := 0%N; domain.PolicyID := ""; domain.Type_ := type;
     domain.Field := field; domain.Operator := operator;
     domain.Value := value; domain.LogicOp := logic_op |}.

Definition policy (id effect : string) (priority : Z)
    (conditions : list domain.PolicyCondition) : domain.ABACPolicy :=
  {| domain.ID := id; domain.Name := id; domain.Description := "";
     domain.Effect := effect; domain.Priority := priority;
     domain.Conditions := conditions;
     domain.CreatedAt := 100; domain.UpdatedAt := 100 |}.

Definition noon : ABAC.WallClock :=
  {| ABAC.Hour := 12; ABAC.Date := "2024-05-06"; ABAC.Weekday := "Monday" |}.

(** A ReBAC engine over the cache that [AddRelationship] builds from the
    given edges, with the default permissions. *)
Definition graph (edges : list (string * string * string))
  : ReBAC.ReBACEnforcerImpl bool :=
  {| ReBAC.repo := true;
     ReBAC.relationships :=
       fold_left (fun m edge => ReBAC.cache_insert m (fst (fst edge))
                                  (snd (fst edge)) (snd edge))
                 edges [];
     ReBAC.permissions := ReBAC.initializeDefaultPermissions |}.

(** ABAC: one user, and three small policy caches. *)
Definition attributes
  : gmap string (gmap string string) * gmap string (gmap string string) :=
  (<["u" := <["position" := "manager"]>
             (<["department" := "engineering"]> (<["role" := "admin"]> ∅))]> ∅,
   ∅).

Definition abac (up : bool) (policies : GoMap.t ABAC.loc)
  : ABAC.ABACHandlerImpl bool
      (gmap string (gmap string string) * gmap string (gmap string string)) :=
  {| ABAC.policyRepo := up; ABAC.attrRepo := attributes;
     ABAC.policies := policies |}.

(** Scenario S3: P1 (priority 100, allow) and P2 (priority 50, deny). *)
Definition heap_s3 : gmap ABAC.loc domain.ABACPolicy :=
  <[0%nat := policy "P1" "allow" 100 [condition "user" "position" "eq" "manager" ""] ]>
  (<[1%nat := policy "P2" "deny" 50
                [condition "user" "department" "eq" "engineering" ""] ]> ∅).

Definition abac_s3 := abac true [("P2", 1%nat); ("P1", 0%nat)].

(** Two matching policies of equal priority, "allow" visited first. *)
Definition heap_tie : gmap ABAC.loc domain.ABACPolicy :=
  <[0%nat := policy "A" "allow" 1 [condition "user" "role" "eq" "admin" ""] ]>
  (<[1%nat := policy "B" "deny" 1 [condition "user" "role" "eq" "admin" ""] ]> ∅).

Definition abac_tie := abac true [("A", 0%nat); ("B", 1%nat)].

(** The same two policies, visited in the other order. *)
Definition abac_tie_swapped := abac true [("B", 1%nat); ("A", 0%nat)].

(** A policy without conditions and a policy that does not match. *)
Definition heap_idle : gmap ABAC.loc domain.ABACPolicy :=
  <[0%nat := policy "E" "allow" 9 [] ]>
  (<[1%nat := policy "N" "allow" 5 [condition "user" "role" "eq" "auditor" ""] ]> ∅).

Definition abac_idle := abac true [("E", 0%nat); ("N", 1%nat)].

(** The snapshot of [main.go]'s engine: two matching policies of priority
    1 ("allow" visited first) and a policy of priority 2 that does not
    match. *)
Definition snapshot_main : GoMap.t domain.ABACPolicy :=
  [("a1", policy "a1" "allow" 1 [condition "user" "role" "eq" "admin" ""]);
   ("a2", policy "a2" "deny" 1 [condition "user" "role" "eq" "admin" ""]);
   ("b", policy "b" "allow" 2 [condition "user" "role" "eq" "auditor" ""])].

Definition context_admin : ABAC.PolicyEvaluationContext :=
  {| ABAC.UserAttributes := <["role" := "admin"]> ∅;
     ABAC.ObjectAttributes := ∅;
     ABAC.EnvironmentAttributes := ∅;
     ABAC.ActionAttributes := ∅;
     ABAC.Subject := "u"; ABAC.Object := "doc"; ABAC.Action := "read" |}.

(** Scenario S2: the role "admin" may write "data", alice has that role
    (and the role itself is assigned a further role, which plays no
    part). *)
Definition rbac_s2 : RBAC.RBACEnforcerImpl (list (list string) * list (string * string)) :=
  {| RBAC.repo := ([["admin"; "data"; "write"]; ["root"; "vault"; "open"]],
                   [("alice", "admin"); ("admin", "root")]) |}.

(** ReBAC caches. *)
Definition graph_cycle := graph [("a", "parent", "b"); ("b", "parent", "a")].
Definition graph_folder := graph [("alice", "owner", "folder"); ("folder", "parent", "doc")].
Definition graph_friends := graph [("alice", "friend", "bob"); ("bob", "friend", "carol")].
Definition graph_colon := graph [("user:alice", "owner", "doc")].
Definition graph_team :=
  graph [("alice", "member", "eng_team"); ("eng_team", "group_access", "source_code")].

(** A dispatcher of the core with an RBAC engine that allows everything. *)
Definition service_allowing : services.AuthorizationServiceImpl :=
  {| services.aclEnforcer := None;
     services.rbacEnforcer :=
       Some {| services.rbac_Enforce := fun _ _ _ => (true, None) |};
     services.abacEnforcer := None;
     services.rebacEnforcer := None |}.

(** Engines whose repository refuses every write. *)
Definition abac_down := abac false [("P2", 1%nat); ("P1", 0%nat)].

(** The heap of scenario S3 with a further policy, not in any cache. *)
Definition heap_new : gmap ABAC.loc domain.ABACPolicy :=
  <[2%nat := policy "P3" "allow" 10 [condition "user" "role" "eq" "admin" ""] ]>
  heap_s3.

Definition graph_down : ReBAC.ReBACEnforcerImpl bool :=
  {| ReBAC.repo := false;
     ReBAC.relationships := ReBAC.relationships graph_team;
     ReBAC.permissions := ReBAC.initializeDefaultPermissions |}.

(** The heap of scenario S3 with a policy of priority 200 that denies the
    administrators, not in any cache. *)
Definition heap_top : gmap ABAC.loc domain.ABACPolicy :=
  <[2%nat := policy "P3" "deny" 200 [condition "user" "role" "eq" "admin" ""] ]>
  heap_s3.

(** Thirteen policies, as a [range] over the cache may deliver them: p6
    has priority 2 and does not match an administrator, the others have
    priority 1; of these p0 (allow) and p3 (deny) match, the rest do
    not. *)
Definition policies_13 : list domain.ABACPolicy :=
  [policy "p0" "allow" 1 [condition "user" "role" "eq" "admin" ""];
   policy "p1" "allow" 1 [condition "user" "role" "eq" "auditor" ""];
   policy "p2" "allow" 1 [condition "user" "role" "eq" "auditor" ""];
   policy "p3" "deny" 1 [condition "user" "role" "eq" "admin" ""];
   policy "p4" "allow" 1 [condition "user" "role" "eq" "auditor" ""];
   policy "p5" "allow" 1 [condition "user" "role" "eq" "auditor" ""];
   policy "p6" "allow" 2 [condition "user" "role" "eq" "auditor" ""];
   policy "p7" "allow" 1 [condition "user" "role" "eq" "auditor" ""];
   policy "p8" "allow" 1 [condition "user" "role" "eq" "auditor" ""];
   policy "p9" "allow" 1 [condition "user" "role" "eq" "auditor" ""];
   policy "p10" "allow" 1 [condition "user" "role" "eq" "auditor" ""];
   policy "p11" "allow" 1 [condition "user" "role" "eq" "auditor" ""];
   policy "p12" "allow" 1 [condition "user" "role" "eq" "auditor" ""]].

Definition heap_13 : gmap ABAC.loc domain.ABACPolicy :=
  list_to_map (imap (fun i p => (i, p)) policies_13).

Definition abac_13 := abac true (imap (fun i p => (domain.ID p, i)) policies_13).

(** The heap of scenario S3 with a further object, not in any cache, that
    carries the ID of the cached policy P1. *)
Definition heap_update : gmap ABAC.loc domain.ABACPolicy :=
  <[2%nat := policy "P1" "allow" 10 [condition "user" "role" "eq" "admin" ""] ]>
  heap_s3.

End fixtures.


(* ================================================================== *)
(** * Part II: properties                                              *)
(* ================================================================== *)

(** ** Strings *)

Lemma string_app_cons (c : ascii) (s t : string) :
  String c s +:+ t = String c (s +:+ t).
Proof. reflexivity. Qed.

Lemma string_app_nil_l (t : string) : "" +:+ t = t.
Proof. reflexivity. Qed.

Lemma string_app_nil_r (s : string) : s +:+ "" = s.
Proof. induction s as [|c s IH]; [done|]. by rewrite string_app_cons, IH. Qed.

Lemma string_app_assoc (a b c : string) : (a +:+ b) +:+ c = a +:+ (b +:+ c).
Proof. induction a as [|x a IH]; [done|]. by rewrite !string_app_cons, IH. Qed.

Lemma Count_app (a b : string) (c : ascii) :
  strings.Count (a +:+ b) c = (strings.Count a c + strings.Count b c)%nat.
Proof.
  induction a as [|x a IH]; [done|].
  rewrite string_app_cons. simpl. rewrite IH. lia.
Qed.

Lemma Split_not_nil (s : string) (sep : ascii) : strings.Split s sep <> [].
Proof.
  destruct s as [|c s]; simpl; [done|].
  destruct (Ascii.eqb c sep); [done|].
  by destruct (strings.Split s sep).
Qed.

Lemma Split_length (s : string) (sep : ascii) :
  length (strings.Split s sep) = S (strings.Count s sep).
Proof.
  induction s as [|c s IH]; simpl; [done|].
  destruct (Ascii.eqb c sep); simpl; [by rewrite IH|].
  pose proof (Split_not_nil s sep) as Hne.
  destruct (strings.Split s sep); [done|]. simpl in *. lia.
Qed.

Lemma Split_app (a b : string) (sep : ascii) :
  strings.Split (a +:+ String sep b) sep
  = strings.Split a sep ++ strings.Split b sep.
Proof.
  induction a as [|c a IH].
  - rewrite string_app_nil_l. simpl. by rewrite Ascii.eqb_refl.
  - rewrite string_app_cons. simpl. rewrite IH.
    destruct (Ascii.eqb c sep); [done|].
    pose proof (Split_not_nil a sep) as Hne.
    by destruct (strings.Split a sep).
Qed.

(** ** ABAC: the condition sequence of a policy *)

Section ABAC_conditions.
Context {lib : GoLibrary}.

(** Past the first condition, the loop of [evaluatePolicy] carries the
    operator that the reference fold computes from the previous
    condition. *)
Lemma evaluatePolicy_loop_fold (ctx : ABAC.PolicyEvaluationContext)
    (rest : list domain.PolicyCondition) (prev : domain.PolicyCondition)
    (i : nat) (result : bool) (op : string) :
  ABAC.evaluatePolicy_loop ctx rest (S i) result
    (if negb (String.eqb (domain.LogicOp prev) "")
     then domain.LogicOp prev else op)
  = Spec.fold_conditions (fun c => ABAC.evaluateCondition c ctx)
      prev rest result op.
Proof.
  revert prev i result op.
  induction rest as [|c rest IH]; intros prev i result op; [done|].
  simpl. rewrite IH. f_equal.
  - unfold Spec.apply_operator, Spec.logic_operator.
    destruct (String.eqb (domain.LogicOp prev) ""); simpl;
      by destruct (String.eqb _ "and").
  - by destruct (String.eqb (domain.LogicOp prev) "").
Qed.

Lemma evaluateCondition_set_LogicOp (c : domain.PolicyCondition) (op : string)
    (ctx : ABAC.PolicyEvaluationContext) :
  ABAC.evaluateCondition (domain.set_LogicOp c op) ctx
  = ABAC.evaluateCondition c ctx.
Proof. reflexivity. Qed.

Lemma fold_conditions_last (eval : domain.PolicyCondition -> bool)
    (init : list domain.PolicyCondition) (prev last : domain.PolicyCondition)
    (op' : string) (result : bool) (op : string) :
  eval (domain.set_LogicOp last op') = eval last ->
  Spec.fold_conditions eval prev (init ++ [domain.set_LogicOp last op']) result op
  = Spec.fold_conditions eval prev (init ++ [last]) result op.
Proof.
  intros Heval. revert prev result op.
  induction init as [|c init IH]; intros prev result op; simpl.
  - by rewrite Heval.
  - apply IH.
Qed.

(** C2.  A policy with conditions [c1 .. cn] matches exactly when the
    left-to-right fold of the specification does: start from
    [eval(c1)] with operator "and"; before each further condition take the
    non-empty [logic_op] of the condition before it (else keep the
    operator), then combine.  The [logic_op] of the last condition does
    not enter the result. *)
Theorem C2_condition_sequence_fold (policy : domain.ABACPolicy)
    (ctx : ABAC.PolicyEvaluationContext)
    (c1 : domain.PolicyCondition) (rest : list domain.PolicyCondition) :
  ABAC.evaluatePolicy (domain.set_Conditions policy (c1 :: rest)) ctx
  = Spec.condition_sequence (fun c => ABAC.evaluateCondition c ctx) c1 rest
  /\ forall (init : list domain.PolicyCondition) (last : domain.PolicyCondition)
       (op : string),
       ABAC.evaluatePolicy
         (domain.set_Conditions policy (init ++ [domain.set_LogicOp last op])) ctx
       = ABAC.evaluatePolicy (domain.set_Conditions policy (init ++ [last])) ctx.
Proof.
  assert (Hfold : forall c cs,
    ABAC.evaluatePolicy (domain.set_Conditions policy (c :: cs)) ctx
    = Spec.condition_sequence (fun c => ABAC.evaluateCondition c ctx) c cs).
  { intros c cs. unfold ABAC.evaluatePolicy, Spec.condition_sequence. simpl.
    apply evaluatePolicy_loop_fold. }
  split; [apply Hfold|].
  intros init last op. destruct init as [|c init]; simpl.
  - by rewrite !Hfold.
  - rewrite !Hfold. unfold Spec.condition_sequence.
    by apply fold_conditions_last.
Qed.

End ABAC_conditions.

(** No precedence: [A or B and C] is [(A or B) and C]. *)
Lemma condition_sequence_has_no_precedence {lib : GoLibrary}
    (policy : domain.ABACPolicy) (ctx : ABAC.PolicyEvaluationContext)
    (a b c : domain.PolicyCondition) :
  ABAC.evaluatePolicy
    (domain.set_Conditions policy
       [domain.set_LogicOp a "or"; domain.set_LogicOp b "and"; c]) ctx
  = (ABAC.evaluateCondition a ctx || ABAC.evaluateCondition b ctx)
    && ABAC.evaluateCondition c ctx.
Proof. reflexivity. Qed.

(** ** Sorting *)

Lemma StronglySorted_impl {A : Type} (R R' : A -> A -> Prop) (l : list A) :
  (forall x y, R x y -> R' x y) -> StronglySorted R l -> StronglySorted R' l.
Proof.
  intros Himpl. induction 1 as [|x l Hl IH Hx]; constructor; [done|].
  eapply Forall_impl; [exact Hx|]. intros y. apply Himpl.
Qed.

Lemma StronglySorted_middle {A : Type} (R : A -> A -> Prop)
    (before : list A) (x : A) (after : list A) :
  StronglySorted R (before ++ x :: after) ->
  Forall (fun y => R y x) before /\ Forall (R x) after.
Proof.
  induction before as [|b before IH]; simpl; intros Hs.
  - split; [constructor|]. by apply StronglySorted_inv in Hs as [_ ?].
  - apply StronglySorted_inv in Hs as [Hs Hb].
    destruct (IH Hs) as [Hbefore Hafter]. split; [|done].
    constructor; [|done].
    rewrite Forall_forall in Hb. apply Hb, elem_of_app. right. by left.
Qed.

Lemma insert_by_Permutation {A : Type} (less : A -> A -> bool) (x : A) (l : list A) :
  Permutation (Spec.insert_by less x l) (x :: l).
Proof.
  induction l as [|y l IH]; simpl; [done|].
  destruct (less y x); [|done].
  rewrite IH. apply perm_swap.
Qed.

Lemma stable_sort_Permutation {A : Type} (less : A -> A -> bool) (l : list A) :
  Permutation (Spec.stable_sort less l) l.
Proof.
  induction l as [|x l IH]; simpl; [done|].
  unfold Spec.stable_sort in *. simpl.
  rewrite insert_by_Permutation. by constructor.
Qed.

Lemma insert_by_Sorted {A : Type} (less : A -> A -> bool) (x : A) (l : list A) :
  StrictWeakOrder less ->
  StronglySorted (fun a b => less b a = false) l ->
  StronglySorted (fun a b => less b a = false) (Spec.insert_by less x l).
Proof.
  intros (Hirr & Htrans & Hinc) Hl.
  induction Hl as [|y l Hl IH Hy]; simpl.
  - repeat constructor.
  - destruct (less y x) eqn:Hyx.
    + constructor; [exact IH|].
      rewrite (insert_by_Permutation less x l). constructor; [|exact Hy].
      destruct (less x y) eqn:Hxy; [|done].
      pose proof (Hirr y) as Hyy. by rewrite (Htrans _ _ _ Hyx Hxy) in Hyy.
    + constructor; [by constructor|].
      constructor; [exact Hyx|].
      eapply Forall_impl; [exact Hy|]. intros z Hz. simpl in Hz.
      by apply (Hinc z y x).
Qed.

Lemma stable_sort_Sorted {A : Type} (less : A -> A -> bool) (l : list A) :
  StrictWeakOrder less ->
  StronglySorted (fun a b => less b a = false) (Spec.stable_sort less l).
Proof.
  intros Hless. induction l as [|x l IH]; [constructor|].
  unfold Spec.stable_sort in *. simpl. by apply insert_by_Sorted.
Qed.

(** [Spec.stable_sort] is stable: within a class of elements that [less]
    does not separate, the order of the input is kept. *)
Lemma insert_by_filter {A : Type} (less : A -> A -> bool) (class : A -> bool)
    (x : A) (l : list A) :
  (forall a b, class a = true -> class b = true -> less a b = false) ->
  List.filter class (Spec.insert_by less x l) = List.filter class (x :: l).
Proof.
  intros Hclass. induction l as [|y l IH]; [done|].
  simpl. destruct (less y x) eqn:Hyx; [|done].
  simpl. simpl in IH. rewrite IH.
  destruct (class x) eqn:Hx, (class y) eqn:Hy; try done.
  by rewrite (Hclass y x Hy Hx) in Hyx.
Qed.

Lemma stable_sort_stable {A : Type} (less : A -> A -> bool) (class : A -> bool)
    (l : list A) :
  (forall a b, class a = true -> class b = true -> less a b = false) ->
  List.filter class (Spec.stable_sort less l) = List.filter class l.
Proof.
  intros Hclass. induction l as [|x l IH]; [done|].
  unfold Spec.stable_sort in *. simpl foldr.
  rewrite insert_by_filter by done. simpl. by rewrite IH.
Qed.

Lemma library_spec : GoLibrarySpec fixtures.library.
Proof.
  split; simpl.
  - intros A less l. apply stable_sort_Permutation.
  - intros A less l. apply stable_sort_Sorted.
Qed.


Lemma priority_order_StrictWeakOrder (h : gmap ABAC.loc domain.ABACPolicy) :
  StrictWeakOrder
    (fun i j : ABAC.loc =>
       domain.Priority (h !!! i) >? domain.Priority (h !!! j)).
Proof.
  repeat split; intros *;
    repeat match goal with
           | |- context [?a >? ?b] => destruct (Z.gtb_spec a b)
           end; intros; try done; lia.
Qed.

(** *** Go's sort on short slices *)

Lemma insertionSort_inner_sinks {B : Type} (less : B -> B -> bool) (x : B)
    (front : list B) :
  forall rest : list B,
    gosort.insertionSort_inner less (rev front ++ x :: rest) 0 (length front)
    = rev (Spec.insert_by (fun a b => less b a) x front) ++ rest.
Proof.
  induction front as [|y front IH]; intros rest; [done|].
  cbn [length gosort.insertionSort_inner Spec.insert_by rev].
  assert ((rev front ++ [y]) ++ x :: rest
          = rev front ++ y :: x :: rest) as Hdata
    by (by rewrite <- app_assoc).
  assert (gosort.Less less ((rev front ++ [y]) ++ x :: rest)
            (S (length front)) (length front) = less x y) as ->.
  { unfold gosort.Less.
    rewrite (list_lookup_middle (rev front ++ [y]) rest x (S (length front)))
      by (rewrite length_app, length_rev; simpl; lia).
    rewrite Hdata.
    by rewrite (list_lookup_middle (rev front) (x :: rest) y (length front))
      by (by rewrite length_rev). }
  change (0 <? S (length front))%nat with true. cbn [andb].
  destruct (less x y); [|cbn [rev]; rewrite <- !app_assoc; reflexivity].
  assert (gosort.Swap ((rev front ++ [y]) ++ x :: rest)
            (S (length front)) (length front)
          = rev front ++ x :: y :: rest) as ->.
  { unfold gosort.Swap.
    rewrite (list_lookup_middle (rev front ++ [y]) rest x (S (length front)))
      by (rewrite length_app, length_rev; simpl; lia).
    rewrite Hdata at 1.
    rewrite (list_lookup_middle (rev front) (x :: rest) y (length front))
      by (by rewrite length_rev).
    rewrite Hdata.
    rewrite (insert_app_r_alt (rev front) _ (S (length front)))
      by (rewrite length_rev; lia).
    rewrite length_rev. replace (S (length front) - length front)%nat with 1%nat by lia.
    cbn [insert list_insert].
    rewrite (insert_app_r_alt (rev front) _ (length front))
      by (rewrite length_rev; lia).
    rewrite length_rev. by replace (length front - length front)%nat with 0%nat by lia. }
  rewrite IH. cbn [rev]. rewrite <- !app_assoc. reflexivity.
Qed.

Lemma insertionSort_rounds {B : Type} (less : B -> B -> bool) (rest : list B) :
  forall front : list B,
    fold_left (fun data i => gosort.insertionSort_inner less data 0 i)
              (seq (length front) (length rest)) (rev front ++ rest)
    = rev (fold_left (fun sorted x => Spec.insert_by (fun a b => less b a) x sorted)
                     rest front).
Proof.
  induction rest as [|x rest IH]; intros front; simpl.
  - by rewrite List.app_nil_r.
  - rewrite insertionSort_inner_sinks.
    specialize (IH (Spec.insert_by (fun a b => less b a) x front)).
    assert (length (Spec.insert_by (fun a b => less b a) x front)
            = S (length front)) as Hlen.
    { change (S (length front)) with (length (x :: front)).
      apply Permutation_length. apply insert_by_Permutation. }
    rewrite Hlen in IH. exact IH.
Qed.

Lemma insertionSort_func_whole {B : Type} (less : B -> B -> bool) (l : list B) :
  gosort.insertionSort_func less l 0 (length l)
  = rev (Spec.stable_sort (fun a b => less b a) (rev l)).
Proof.
  unfold gosort.insertionSort_func, Spec.stable_sort.
  destruct l as [|x rest]; [done|].
  pose proof (insertionSort_rounds less rest [x]) as Hrounds.
  cbn [length rev app] in Hrounds.
  replace (0 + 1)%nat with 1%nat by lia.
  replace (length (x :: rest) - 1)%nat with (length rest) by (simpl; lia).
  rewrite Hrounds. f_equal.
  rewrite fold_left_rev_right. reflexivity.
Qed.

Lemma Slice_of_a_short_slice {B : Type} (less : B -> B -> bool)
    (breakPatterns : list B -> nat -> nat -> list B) (l : list B) :
  (length l <= 12)%nat ->
  gosort.Slice less breakPatterns l
  = Some (rev (Spec.stable_sort (fun a b => less b a) (rev l))).
Proof.
  intros Hshort. unfold gosort.Slice. cbn [gosort.pdqsort_func].
  rewrite Nat.sub_0_r.
  destruct (Nat.leb_spec (length l) 12) as [_|?]; [|lia].
  by rewrite insertionSort_func_whole.
Qed.

Lemma StronglySorted_snoc {B : Type} (Rel : B -> B -> Prop) (l : list B) (x : B) :
  StronglySorted Rel l -> Forall (fun a => Rel a x) l ->
  StronglySorted Rel (l ++ [x]).
Proof.
  induction 1 as [|y l Hsorted IH Hy]; intros Hx; simpl.
  - repeat constructor.
  - inversion Hx as [|? ? Hyx Hrest]; subst.
    constructor; [by apply IH|].
    apply Forall_app; split; [exact Hy|by repeat constructor].
Qed.

Lemma StronglySorted_weaken {B : Type} (Rel Rel' : B -> B -> Prop) (l : list B) :
  (forall a b, Rel a b -> Rel' a b) ->
  StronglySorted Rel l -> StronglySorted Rel' l.
Proof.
  intros Hweaker. induction 1 as [|x l Hsorted IH Hx]; constructor; [exact IH|].
  eapply Forall_impl; [exact Hx|]. intros b. apply Hweaker.
Qed.

Lemma StronglySorted_rev {B : Type} (Rel : B -> B -> Prop) (l : list B) :
  StronglySorted Rel l -> StronglySorted (fun a b => Rel b a) (rev l).
Proof.
  induction 1 as [|x l Hsorted IH Hx]; simpl; [constructor|].
  apply StronglySorted_snoc; [exact IH|].
  apply List.Forall_forall. intros a Ha. apply in_rev in Ha.
  by apply (proj1 (List.Forall_forall _ _) Hx).
Qed.

(** Two descending arrangements of the same elements that keep every class
    of equal keys in the same order are the same list. *)
Lemma stable_order_unique {B : Type} (key : B -> Z) (l1 : list B) :
  forall l2 : list B,
    Permutation l1 l2 ->
    StronglySorted (fun a b => key b <= key a) l1 ->
    StronglySorted (fun a b => key b <= key a) l2 ->
    (forall k, List.filter (fun a => key a =? k) l1
               = List.filter (fun a => key a =? k) l2) ->
    l1 = l2.
Proof.
  induction l1 as [|a l1 IH]; intros l2 Hperm Hs1 Hs2 Hclasses.
  - by apply Permutation_nil in Hperm.
  - destruct l2 as [|b l2];
      [by apply Permutation_sym, Permutation_nil in Hperm|].
    apply StronglySorted_inv in Hs1 as [Hs1 Ha].
    apply StronglySorted_inv in Hs2 as [Hs2 Hb].
    assert (key a = key b) as Hkey.
    { assert (In a (b :: l2)) as [->|Hin1]
        by (apply (Permutation_in _ Hperm); by left); [done|].
      assert (In b (a :: l1)) as [->|Hin2]
        by (apply (Permutation_in _ (Permutation_sym Hperm)); by left); [done|].
      pose proof (proj1 (List.Forall_forall _ _) Ha b Hin2) as Hba.
      pose proof (proj1 (List.Forall_forall _ _) Hb a Hin1) as Hab.
      simpl in Hba, Hab. lia. }
    assert (a = b) as <-.
    { specialize (Hclasses (key a)). simpl in Hclasses.
      rewrite <- Hkey, Z.eqb_refl in Hclasses. congruence. }
    f_equal. apply IH; [by apply Permutation_cons_inv in Hperm|done|done|].
    intros k. specialize (Hclasses k). simpl in Hclasses.
    destruct (key a =? k); congruence.
Qed.

Lemma filter_rev {B : Type} (f : B -> bool) (l : list B) :
  List.filter f (rev l) = rev (List.filter f l).
Proof.
  induction l as [|x l IH]; [done|]. simpl.
  rewrite List.filter_app, IH. simpl. destruct (f x); [done|].
  by rewrite List.app_nil_r.
Qed.

(** Go's insertion sort, which works from the back of the sorted prefix,
    arranges a slice as the stable sort of the specification does. *)
Lemma key_order_StrictWeakOrder {B : Type} (key : B -> Z) :
  StrictWeakOrder (fun a b => key a >? key b)
  /\ StrictWeakOrder (fun a b => key b >? key a).
Proof.
  repeat split; intros *;
    repeat match goal with
           | |- context [?a >? ?b] => destruct (Z.gtb_spec a b)
           end; intros; try done; lia.
Qed.

Lemma insertion_from_the_back_is_stable {B : Type} (key : B -> Z) (l : list B) :
  rev (Spec.stable_sort (fun a b => key b >? key a) (rev l))
  = Spec.stable_sort (fun a b => key a >? key b) l.
Proof.
  destruct (key_order_StrictWeakOrder key) as [Hdown Hup].
  apply (stable_order_unique key).
  - rewrite <- Permutation_rev, stable_sort_Permutation, <- Permutation_rev.
    by rewrite stable_sort_Permutation.
  - pose proof (stable_sort_Sorted _ (rev l) Hup) as Hsorted.
    apply StronglySorted_rev in Hsorted.
    eapply StronglySorted_weaken; [|exact Hsorted].
    intros a b. simpl. destruct (Z.gtb_spec (key b) (key a)); [done|lia].
  - pose proof (stable_sort_Sorted _ l Hdown) as Hsorted.
    eapply StronglySorted_weaken; [|exact Hsorted].
    intros a b. simpl. destruct (Z.gtb_spec (key b) (key a)); [done|lia].
  - intros k. rewrite filter_rev.
    rewrite !stable_sort_stable.
    + by rewrite filter_rev, rev_involutive.
    + intros a b Ha Hb. apply Z.eqb_eq in Ha, Hb.
      destruct (Z.gtb_spec (key a) (key b)); [lia|done].
    + intros a b Ha Hb. apply Z.eqb_eq in Ha, Hb.
      destruct (Z.gtb_spec (key b) (key a)); [lia|done].
Qed.

(** [sort.Slice] on a slice of at most twelve elements is an insertion sort:
    it gives the stable descending order. *)
Lemma Slice_keeps_ties_of_a_short_slice {B : Type} (key : B -> Z)
    (breakPatterns : list B -> nat -> nat -> list B) (l : list B) :
  (length l <= 12)%nat ->
  gosort.Slice (fun a b => key a >? key b) breakPatterns l
  = Some (Spec.stable_sort (fun a b => key a >? key b) l).
Proof.
  intros Hshort. rewrite Slice_of_a_short_slice by done.
  by rewrite (insertion_from_the_back_is_stable key).
Qed.

(** ** ABAC: arbitration between policies *)

Section ABAC_arbitration.
Context {lib : GoLibrary} {P A : Type}.
Context {policy_repository : ABAC.ABACPolicyRepository P}.
Context {attribute_repository : ABAC.AttributeRepository A}.

Lemma Enforce_loop_skip (h : gmap ABAC.loc domain.ABACPolicy)
    (ctx : ABAC.PolicyEvaluationContext) (before rest : list ABAC.loc) :
  Forall (fun l => domain.Conditions (h !!! l) = []
                   \/ ABAC.evaluatePolicy (h !!! l) ctx = false) before ->
  ABAC.Enforce_loop h (before ++ rest) ctx = ABAC.Enforce_loop h rest ctx.
Proof.
  induction 1 as [|l before Hl _ IH]; simpl; [done|].
  assert (ABAC.evaluatePolicy (h !!! l) ctx = false) as ->; [|done].
  destruct Hl as [Hl|Hl]; [|done].
  unfold ABAC.evaluatePolicy. by rewrite Hl.
Qed.

Lemma Enforce_reads_ok (e : ABAC.ABACHandlerImpl P A)
    (h : gmap ABAC.loc domain.ABACPolicy) (now : ABAC.WallClock)
    (subject object action : string) (reqAttrs : gmap string string) :
  snd (ABAC.GetUserAttributes (ABAC.attrRepo e) subject) = None ->
  snd (ABAC.GetObjectAttributes (ABAC.attrRepo e) object) = None ->
  ABAC.Enforce e h now subject object action reqAttrs
  = (ABAC.Enforce_loop h (ABAC.sorted_snapshot e h)
       (ABAC.request_context e now subject object action reqAttrs), None).
Proof.
  unfold ABAC.Enforce, ABAC.request_context.
  destruct (ABAC.GetUserAttributes _ _) as [U [errU|]]; [done|].
  destruct (ABAC.GetObjectAttributes _ _) as [O [errO|]]; [done|].
  done.
Qed.

Lemma Enforce_false_or_loop (e : ABAC.ABACHandlerImpl P A)
    (h : gmap ABAC.loc domain.ABACPolicy) (now : ABAC.WallClock)
    (subject object action : string) (reqAttrs : gmap string string) :
  fst (ABAC.Enforce e h now subject object action reqAttrs) = false
  \/ fst (ABAC.Enforce e h now subject object action reqAttrs)
     = ABAC.Enforce_loop h (ABAC.sorted_snapshot e h)
         (ABAC.request_context e now subject object action reqAttrs).
Proof.
  unfold ABAC.Enforce, ABAC.request_context.
  destruct (ABAC.GetUserAttributes _ _) as [U [errU|]]; [by left|].
  destruct (ABAC.GetObjectAttributes _ _) as [O [errO|]]; [by left|].
  by right.
Qed.

(** C1 (as amended).  [Enforce] goes through the cached policies in an
    order that is a permutation of the cache and descending in priority.
    When [policy] is the first one in that order whose conditions match,
    the result is true if its effect is "allow" and false if it is "deny",
    whatever comes after it, and everything after it has a priority that
    is not higher.  This holds for every sort that keeps to what
    [sort.Slice] documents.  As Go runs [sort.Slice], policies of equal
    priority keep the order of the snapshot (the order in which [range]
    delivered them) while the cache holds at most twelve policies, where
    the sort is by insertion; beyond that nothing is known about them,
    [sort.Slice] not being a stable sort. *)
Theorem C1_first_match_in_priority_order {spec : GoLibrarySpec lib}
    (e : ABAC.ABACHandlerImpl P A) (h : gmap ABAC.loc domain.ABACPolicy)
    (now : ABAC.WallClock) (subject object action : string)
    (reqAttrs : gmap string string)
    (before : list ABAC.loc) (policy : ABAC.loc) (after : list ABAC.loc)
    (Huser : snd (ABAC.GetUserAttributes (ABAC.attrRepo e) subject) = None)
    (Hobject : snd (ABAC.GetObjectAttributes (ABAC.attrRepo e) object) = None)
    (Horder : ABAC.sorted_snapshot e h = before ++ policy :: after)
    (Hbefore : Forall
       (fun l => ABAC.evaluatePolicy (h !!! l)
                   (ABAC.request_context e now subject object action reqAttrs)
                 = false) before)
    (Hmatch : ABAC.evaluatePolicy (h !!! policy)
                (ABAC.request_context e now subject object action reqAttrs)
              = true) :
  Permutation (ABAC.sorted_snapshot e h) (map snd (ABAC.policies e))
  /\ StronglySorted
       (fun i j => domain.Priority (h !!! i) >= domain.Priority (h !!! j))
       (ABAC.sorted_snapshot e h)
  /\ (domain.Effect (h !!! policy) = "allow" ->
      ABAC.Enforce e h now subject object action reqAttrs = (true, None))
  /\ (domain.Effect (h !!! policy) = "deny" ->
      ABAC.Enforce e h now subject object action reqAttrs = (false, None))
  /\ Forall (fun l => domain.Priority (h !!! l) <= domain.Priority (h !!! policy))
            after
  /\ (forall breakPatterns : list ABAC.loc -> nat -> nat -> list ABAC.loc,
        (length (ABAC.policies e) <= 12)%nat ->
        gosort.Slice
          (fun i j => domain.Priority (h !!! i) >? domain.Priority (h !!! j))
          breakPatterns (map snd (ABAC.policies e))
        = Some (Spec.stable_priority_order h (map snd (ABAC.policies e)))
        /\ (ABAC.sorted_snapshot e h
            = default (map snd (ABAC.policies e))
                (gosort.Slice
                   (fun i j => domain.Priority (h !!! i)
                               >? domain.Priority (h !!! j))
                   breakPatterns (map snd (ABAC.policies e))) ->
            ABAC.sorted_snapshot e h
            = Spec.stable_priority_order h (map snd (ABAC.policies e)))).
Proof.
  assert (Hsorted : StronglySorted
            (fun i j => domain.Priority (h !!! i) >= domain.Priority (h !!! j))
            (ABAC.sorted_snapshot e h)).
  { eapply StronglySorted_impl;
      [|apply sort_Slice_Sorted, priority_order_StrictWeakOrder].
    intros i j. simpl. destruct (Z.gtb_spec (domain.Priority (h !!! j))
                                   (domain.Priority (h !!! i))); [done|lia]. }
  split; [apply sort_Slice_Permutation|]. split; [exact Hsorted|].
  rewrite (Enforce_reads_ok e h now subject object action reqAttrs Huser Hobject).
  rewrite Horder in Hsorted |- *.
  rewrite Enforce_loop_skip
    by (eapply Forall_impl; [exact Hbefore|]; intros; by right).
  simpl. rewrite Hmatch.
  split; [by intros ->|]. split; [by intros ->|]. split.
  - apply StronglySorted_middle in Hsorted as [_ Hafter].
    eapply Forall_impl; [exact Hafter|]. intros l Hl. simpl in Hl. lia.
  - intros breakPatterns Hshort.
    assert (gosort.Slice
              (fun i j => domain.Priority (h !!! i) >? domain.Priority (h !!! j))
              breakPatterns (map snd (ABAC.policies e))
            = Some (Spec.stable_priority_order h (map snd (ABAC.policies e))))
      as Hgo.
    { apply (Slice_keeps_ties_of_a_short_slice
               (fun i => domain.Priority (h !!! i))).
      by rewrite length_map. }
    split; [exact Hgo|]. intros ->. by rewrite Hgo.
Qed.

(** C6.  Default deny: when the cache is empty, or every cached policy
    either has no condition or has conditions that do not match the
    request, [Enforce] returns false; a policy without conditions never
    matches, for any context. *)
Theorem C6_default_deny {spec : GoLibrarySpec lib}
    (e : ABAC.ABACHandlerImpl P A) (h : gmap ABAC.loc domain.ABACPolicy)
    (now : ABAC.WallClock) (subject object action : string)
    (reqAttrs : gmap string string)
    (Hnone : ABAC.policies e = []
             \/ Forall
                  (fun entry : string * ABAC.loc =>
                     domain.Conditions (h !!! snd entry) = []
                     \/ ABAC.evaluatePolicy (h !!! snd entry)
                          (ABAC.request_context e now subject object action
                             reqAttrs) = false)
                  (ABAC.policies e)) :
  fst (ABAC.Enforce e h now subject object action reqAttrs) = false
  /\ forall (policy : domain.ABACPolicy) (ctx : ABAC.PolicyEvaluationContext),
       domain.Conditions policy = [] -> ABAC.evaluatePolicy policy ctx = false.
Proof.
  split.
  - destruct (Enforce_false_or_loop e h now subject object action reqAttrs)
      as [Hf| ->]; [exact Hf|].
    assert (Hall : Forall
      (fun l => domain.Conditions (h !!! l) = []
                \/ ABAC.evaluatePolicy (h !!! l)
                     (ABAC.request_context e now subject object action reqAttrs)
                   = false) (map snd (ABAC.policies e))).
    { destruct Hnone as [-> | Hnone]; [constructor|].
      rewrite Forall_forall in Hnone. rewrite Forall_forall.
      intros l Hin. apply list_elem_of_In, in_map_iff in Hin as (entry & <- & Hin).
      by apply Hnone, list_elem_of_In. }
    rewrite <- (sort_Slice_Permutation _
                  (fun i j => domain.Priority (h !!! i) >? domain.Priority (h !!! j))
                  (map snd (ABAC.policies e))) in Hall.
    fold (ABAC.sorted_snapshot e h) in Hall.
    rewrite <- (List.app_nil_r (ABAC.sorted_snapshot e h)).
    by rewrite Enforce_loop_skip.
  - intros policy ctx Hempty. unfold ABAC.evaluatePolicy. by rewrite Hempty.
Qed.

End ABAC_arbitration.

(** Witness of C1 on scenario S3 of the specification: P1 (priority 100,
    allow) is the first match and decides, P2 (deny) comes after it. *)
Lemma C1_witness_scenario_S3 :
  ABAC.Enforce (lib := fixtures.library) fixtures.abac_s3 fixtures.heap_s3
    fixtures.noon "u" "doc" "read" ∅ = (true, None).
Proof.
  refine (proj1 (proj2 (proj2
    (C1_first_match_in_priority_order (lib := fixtures.library)
       (spec := library_spec) fixtures.abac_s3 fixtures.heap_s3 fixtures.noon
       "u" "doc" "read" ∅ [] 0%nat [1%nat] _ _ _ _ _))) _).
  - reflexivity.
  - reflexivity.
  - vm_compute. reflexivity.
  - constructor.
  - vm_compute. reflexivity.
  - vm_compute. reflexivity.
Defined.

(** C1 as stated fails: ties are not broken stably.
    From thirteen policies on [sort.Slice] does not sort by insertion: on
    the snapshot of [fixtures.abac_13] it takes p3 as its pivot and
    exchanges it with p0, then p1 with p6, and leaves p3 and p2 before p0.
    A stable sort keeps p0 before p3.  Both match the request and p0
    allows while p3 denies: [Enforce] denies, and the first match in the
    stable order allows. *)
Lemma C1_counterexample_unstable_ties :
  (forall breakPatterns : list ABAC.loc -> nat -> nat -> list ABAC.loc,
      gosort.Slice
        (fun i j => domain.Priority (fixtures.heap_13 !!! i)
                    >? domain.Priority (fixtures.heap_13 !!! j))
        breakPatterns (map snd (ABAC.policies fixtures.abac_13))
      = Some [6; 3; 2; 0; 4; 5; 1; 7; 8; 9; 10; 11; 12]%nat)
  /\ Spec.stable_priority_order fixtures.heap_13
       (map snd (ABAC.policies fixtures.abac_13))
     = [6; 0; 1; 2; 3; 4; 5; 7; 8; 9; 10; 11; 12]%nat
  /\ (forall breakPatterns : forall A : Type, list A -> nat -> nat -> list A,
         ABAC.Enforce (lib := fixtures.library_go breakPatterns)
           fixtures.abac_13 fixtures.heap_13 fixtures.noon "u" "doc" "read" ∅
         = (false, None))
  /\ (forall breakPatterns : forall A : Type, list A -> nat -> nat -> list A,
         ABAC.Enforce_loop (lib := fixtures.library_go breakPatterns)
           fixtures.heap_13
           (Spec.stable_priority_order fixtures.heap_13
              (map snd (ABAC.policies fixtures.abac_13)))
           (ABAC.request_context fixtures.abac_13 fixtures.noon
              "u" "doc" "read" ∅)
         = true).
Proof.
  repeat split; intros; vm_compute; reflexivity.
Qed.

(** The engine of [main.go] sorts by hand and is not stable either: on
    [fixtures.snapshot_main] it evaluates the deny policy a2 before the
    allow policy a1 that the range delivered first. *)
Lemma exchange_sort_reorders_ties :
  map domain.ID (main.sort_by_priority (map snd fixtures.snapshot_main))
  = ["b"; "a2"; "a1"]
  /\ map domain.ID
       (Spec.stable_sort
          (fun p q => domain.Priority p >? domain.Priority q)
          (map snd fixtures.snapshot_main))
     = ["b"; "a1"; "a2"]
  /\ fst (main.Evaluate (lib := fixtures.library) fixtures.snapshot_main
            fixtures.context_admin) = false.
Proof. repeat split; vm_compute; reflexivity. Qed.

(** Whatever [sort.Slice] does within its contract, the set of cached
    policies does not fix the decision between the two policies of
    [fixtures.abac_tie]: either the sort changes the order of the snapshot
    (it is not stable), or the same set of policies, visited by [range]
    in its two possible orders, is decided both ways. *)
Lemma tie_follows_the_sort_or_the_map_order (lib : GoLibrary)
    (spec : GoLibrarySpec lib) :
  (ABAC.sorted_snapshot fixtures.abac_tie fixtures.heap_tie
   <> Spec.stable_priority_order fixtures.heap_tie
        (map snd (ABAC.policies fixtures.abac_tie))
   \/ ABAC.sorted_snapshot fixtures.abac_tie_swapped fixtures.heap_tie
      <> Spec.stable_priority_order fixtures.heap_tie
           (map snd (ABAC.policies fixtures.abac_tie_swapped)))
  \/ (Permutation (ABAC.policies fixtures.abac_tie)
                  (ABAC.policies fixtures.abac_tie_swapped)
      /\ ABAC.Enforce fixtures.abac_tie fixtures.heap_tie fixtures.noon
           "u" "doc" "read" ∅ = (true, None)
      /\ ABAC.Enforce fixtures.abac_tie_swapped fixtures.heap_tie fixtures.noon
           "u" "doc" "read" ∅ = (false, None)).
Proof.
  pose proof (sort_Slice_Permutation _
    (fun i j : ABAC.loc =>
       domain.Priority (fixtures.heap_tie !!! i)
       >? domain.Priority (fixtures.heap_tie !!! j))
    [0%nat; 1%nat]) as Hfirst.
  pose proof (sort_Slice_Permutation _
    (fun i j : ABAC.loc =>
       domain.Priority (fixtures.heap_tie !!! i)
       >? domain.Priority (fixtures.heap_tie !!! j))
    [1%nat; 0%nat]) as Hsecond.
  symmetry in Hfirst, Hsecond.
  apply Permutation_length_2_inv in Hfirst, Hsecond.
  unfold ABAC.Enforce, ABAC.sorted_snapshot.
  change (map snd (ABAC.policies fixtures.abac_tie)) with [0%nat; 1%nat].
  change (map snd (ABAC.policies fixtures.abac_tie_swapped))
    with [1%nat; 0%nat].
  change (Spec.stable_priority_order fixtures.heap_tie [0%nat; 1%nat])
    with [0%nat; 1%nat].
  change (Spec.stable_priority_order fixtures.heap_tie [1%nat; 0%nat])
    with [1%nat; 0%nat].
  destruct Hfirst as [-> | ->]; [|by left; left].
  destruct Hsecond as [-> | ->]; [|by left; right].
  right. split; [apply perm_swap|]. split; vm_compute; reflexivity.
Qed.

(** Witness of C6: a cache holding a policy without conditions and a
    policy whose condition does not match denies. *)
Lemma C6_witness_idle_policies :
  fst (ABAC.Enforce (lib := fixtures.library) fixtures.abac_idle
         fixtures.heap_idle fixtures.noon "u" "doc" "read" ∅) = false.
Proof.
  refine (proj1
    (C6_default_deny (lib := fixtures.library) (spec := library_spec)
       fixtures.abac_idle fixtures.heap_idle fixtures.noon
       "u" "doc" "read" ∅ _)).
  right.
  constructor; [left; reflexivity|].
  constructor; [right; vm_compute; reflexivity|].
  constructor.
Defined.

(** ** RBAC *)

Section RBAC_enforce.
Context {R : Type} {repository : RBAC.RBACPolicyRepository R}.

Lemma matches_iff (p : list string) (subject object action : string) :
  RBAC.matches p subject object action = true <-> p = [subject; object; action].
Proof.
  unfold RBAC.matches. split.
  - intros H. repeat (apply andb_prop in H as [H ?]).
    destruct p as [|a [|b [|c [|d p]]]]; try done. simpl in *.
    repeat match goal with
           | H : String.eqb _ _ = true |- _ => apply String.eqb_eq in H
           end. by subst.
  - intros ->. simpl. by rewrite !String.eqb_refl.
Qed.

Lemma existsb_matches (policies : list (list string))
    (subject object action : string) :
  existsb (fun p => RBAC.matches p subject object action) policies = true
  <-> [subject; object; action] ∈ policies.
Proof.
  rewrite existsb_exists. split.
  - intros (p & Hin & Hp). apply matches_iff in Hp as ->.
    by apply list_elem_of_In.
  - intros Hin. exists [subject; object; action]. split.
    + by apply list_elem_of_In.
    + by apply matches_iff.
Qed.

(** C4.  With policy set [policies] and roles [roles] assigned to the
    subject, [Enforce] returns true exactly when the triple of the
    subject, or the triple of one of its roles, is a policy.  Only the
    roles of the subject itself are read: another repository state with
    the same policies and the same roles for the subject, whatever it
    assigns to the roles, gives the same answer. *)
Theorem C4_role_disjunction (e : RBAC.RBACEnforcerImpl R)
    (subject object action : string)
    (policies : list (list string)) (roles : list string)
    (Hpolicies : RBAC.GetPolicy (RBAC.repo e) = (policies, None))
    (Hroles : RBAC.GetRolesForUser (RBAC.repo e) subject = (roles, None)) :
  (RBAC.Enforce e subject object action = (true, None)
   <-> [subject; object; action] ∈ policies
       \/ exists role, role ∈ roles /\ [role; object; action] ∈ policies)
  /\ (RBAC.Enforce e subject object action = (true, None)
      \/ RBAC.Enforce e subject object action = (false, None))
  /\ forall e' : RBAC.RBACEnforcerImpl R,
       RBAC.GetPolicy (RBAC.repo e') = (policies, None) ->
       RBAC.GetRolesForUser (RBAC.repo e') subject = (roles, None) ->
       RBAC.Enforce e' subject object action
       = RBAC.Enforce e subject object action.
Proof.
  assert (Hrole : existsb
            (fun role => existsb (fun p => RBAC.matches p role object action)
                           policies) roles = true
          <-> exists role, role ∈ roles /\ [role; object; action] ∈ policies).
  { rewrite existsb_exists. split.
    - intros (role & Hin & Hp). exists role.
      split; [by apply list_elem_of_In|by apply existsb_matches].
    - intros (role & Hin & Hp). exists role.
      split; [by apply list_elem_of_In|by apply existsb_matches]. }
  pose proof (existsb_matches policies subject object action) as Hdirect.
  assert (Hrun : forall e' : RBAC.RBACEnforcerImpl R,
    RBAC.GetPolicy (RBAC.repo e') = (policies, None) ->
    RBAC.GetRolesForUser (RBAC.repo e') subject = (roles, None) ->
    RBAC.Enforce e' subject object action
    = (existsb (fun p => RBAC.matches p subject object action) policies
       || existsb (fun role => existsb
                     (fun p => RBAC.matches p role object action) policies)
            roles, None)).
  { intros e' HP HR. unfold RBAC.Enforce. rewrite HP, HR.
    destruct (existsb _ policies); [done|]. by destruct (existsb _ roles). }
  split; [|split].
  - rewrite (Hrun e Hpolicies Hroles), <- Hdirect, <- Hrole. split.
    + intros H. injection H as H. by apply orb_true_iff.
    + intros H. apply orb_true_iff in H. by rewrite H.
  - rewrite (Hrun e Hpolicies Hroles).
    destruct (existsb _ policies), (existsb _ roles); simpl; auto.
  - intros e' HP HR. by rewrite (Hrun e' HP HR), (Hrun e Hpolicies Hroles).
Qed.

End RBAC_enforce.

(** Witness of C4 on scenario S2: alice writes "data" through her role. *)
Lemma C4_witness_scenario_S2 :
  RBAC.Enforce fixtures.rbac_s2 "alice" "data" "write" = (true, None).
Proof.
  refine (proj2 (proj1 (C4_role_disjunction fixtures.rbac_s2
                          "alice" "data" "write"
                          [["admin"; "data"; "write"]; ["root"; "vault"; "open"]]
                          ["admin"] _ _)) _).
  - reflexivity.
  - reflexivity.
  - right. exists "admin". split; left.
Defined.

(** No second level of roles: "admin" has the role "root", and "root" may
    open the vault, yet alice may not. *)
Lemma RBAC_roles_are_flat :
  RBAC.Enforce fixtures.rbac_s2 "alice" "vault" "open" = (false, None)
  /\ RBAC.Enforce fixtures.rbac_s2 "admin" "vault" "open" = (true, None).
Proof. split; reflexivity. Qed.

(** ** The dispatchers *)

(** C5 at the dispatcher of the core.  [AuthorizationServiceImpl.Enforce]
    has no default model: with the empty model string the request falls
    to the [default] case and is rejected as an invalid model, whatever
    the engines would answer. *)
Theorem C5_core_dispatcher_rejects_empty_model
    (s : services.AuthorizationServiceImpl) (subject object action : string)
    (attributes : gmap string string) :
  services.Enforce s "" subject object action attributes
  = (false, Some (domain.Errorf "invalid model specified: ")).
Proof. reflexivity. Qed.

(** The dispatcher of [main.go] does substitute RBAC for the empty model. *)
Lemma main_dispatcher_defaults_to_RBAC (s : main.AuthService)
    (subject object action : string) (attributes : gmap string string) :
  main.Enforce s "" subject object action attributes
  = main.rbacEnforcer s subject object action
  /\ main.Enforce s "" subject object action attributes
     = main.Enforce s domain.ModelRBAC subject object action attributes.
Proof. split; reflexivity. Qed.

(** With the model named, the core routes to the RBAC engine; with the
    empty model the same request to the same service is refused. *)
Lemma core_dispatcher_on_fixture :
  services.Enforce fixtures.service_allowing "rbac" "alice" "data" "write" ∅
  = (true, None)
  /\ services.Enforce fixtures.service_allowing "" "alice" "data" "write" ∅
     = (false, Some (domain.Errorf "invalid model specified: ")).
Proof. split; reflexivity. Qed.

(** ** ReBAC: the recursion of [Enforce] through parents *)

Lemma Enforce_S {R : Type} (fuel : nat) (e : ReBAC.ReBACEnforcerImpl R)
    (subject object action : string) :
  ReBAC.Enforce (S fuel) e subject object action
  = ReBAC.Enforce_body (ReBAC.Enforce fuel e) e subject object action.
Proof. reflexivity. Qed.

(** In [fixtures.graph_cycle], a is the parent of b and b is the parent of
    a.  A request for a calls [Enforce] for b, which calls [Enforce] for
    a: a body whose nested call does not return does not return. *)
Lemma cycle_a_calls_b
    (enforce : string -> string -> string
               -> option (bool * string * option domain.error)) :
  enforce "u" "b" "write" = None ->
  ReBAC.Enforce_body enforce fixtures.graph_cycle "u" "a" "write" = None.
Proof. intros H. vm_compute. by rewrite H. Qed.

Lemma cycle_b_calls_a
    (enforce : string -> string -> string
               -> option (bool * string * option domain.error)) :
  enforce "u" "a" "write" = None ->
  ReBAC.Enforce_body enforce fixtures.graph_cycle "u" "b" "write" = None.
Proof. intros H. vm_compute. by rewrite H. Qed.

Lemma cycle_never_returns (fuel : nat) :
  ReBAC.Enforce fuel fixtures.graph_cycle "u" "a" "write" = None
  /\ ReBAC.Enforce fuel fixtures.graph_cycle "u" "b" "write" = None.
Proof.
  induction fuel as [|fuel [IHa IHb]]; [done|].
  rewrite !Enforce_S. split.
  - by apply cycle_a_calls_b.
  - by apply cycle_b_calls_a.
Qed.

(** C3 fails on the code.  The recursion of [Enforce] through
    [checkHierarchicalAccess] carries no depth and no visited set: on the
    cache in which a is the parent of b and b the parent of a, the
    request (u, a, write) needs more nested calls than any bound, that is,
    the call never returns. *)
Theorem C3_parent_cycle_never_returns (fuel : nat) :
  ReBAC.Enforce fuel fixtures.graph_cycle "u" "a" "write" = None.
Proof. apply cycle_never_returns. Qed.

(** ** ReBAC: the path finder *)

Lemma successors_elem (m : GoMap.t (list domain.Relationship))
    (visited : gset string) (current item : ReBAC.queue_item) :
  item ∈ ReBAC.successors m visited current ->
  exists key rels rel,
    (key, rels) ∈ m /\ rel ∈ rels
    /\ length (strings.Split key ":") = 2%nat
    /\ ReBAC.node item = domain.Object rel
    /\ ReBAC.path item
       = ReBAC.arrow (ReBAC.path current) (nth 1 (strings.Split key ":") "")
           (domain.Object rel)
    /\ ReBAC.depth item = ReBAC.depth current + 1.
Proof.
  unfold ReBAC.successors. intros Hin.
  apply list_elem_of_In, in_flat_map in Hin as ([key rels] & Hentry & Hin).
  simpl in Hin.
  destruct (Nat.eqb (length (strings.Split key ":")) 2) eqn:Hlen;
    [|by destruct Hin].
  simpl in Hin.
  destruct (negb (String.eqb _ _)); [by destruct Hin|]. simpl in Hin.
  destruct (strings.HasPrefix _ _); [by destruct Hin|].
  apply in_flat_map in Hin as (rel & Hrel & Hin).
  destruct (bool_decide _); [by destruct Hin|].
  destruct Hin as [<-|[]]. simpl.
  exists key, rels, rel. apply Nat.eqb_eq in Hlen.
  by rewrite !list_elem_of_In.
Qed.

Lemma flat_map_length_le {A B : Type} (f : A -> list B) (l : list A) :
  (forall x, length (f x) <= 1)%nat -> (length (flat_map f l) <= length l)%nat.
Proof.
  intros Hf. induction l as [|x l IH]; simpl; [done|].
  rewrite length_app. specialize (Hf x). lia.
Qed.

Lemma successors_length (m : GoMap.t (list domain.Relationship))
    (visited : gset string) (current : ReBAC.queue_item) :
  (length (ReBAC.successors m visited current) <= ReBAC.edge_count m)%nat.
Proof.
  unfold ReBAC.successors, ReBAC.edge_count.
  induction m as [|[key rels] m IH]; simpl; [done|].
  rewrite !length_app.
  enough (length
    (if negb (Nat.eqb (length (strings.Split key ":")) 2)
        || negb (String.eqb (nth 0 (strings.Split key ":") "")
                   (ReBAC.node current))
     then []
     else if strings.HasPrefix (nth 1 (strings.Split key ":") "") "reverse_"
          then []
          else flat_map
                 (fun rel : domain.Relationship =>
                    if bool_decide (domain.Object rel ∈ visited) then []
                    else [{| ReBAC.node := domain.Object rel;
                             ReBAC.path :=
                               ReBAC.arrow (ReBAC.path current)
                                 (nth 1 (strings.Split key ":") "")
                                 (domain.Object rel);
                             ReBAC.depth := ReBAC.depth current + 1 |}])
                 rels) <= length rels)%nat by lia.
  destruct (_ || _); simpl; [lia|].
  destruct (strings.HasPrefix _ _); simpl; [lia|].
  apply flat_map_length_le. intros rel. destruct (bool_decide _); simpl; lia.
Qed.

Lemma object_in_candidates (m : GoMap.t (list domain.Relationship))
    (subject key : string) (rels : list domain.Relationship)
    (rel : domain.Relationship) :
  (key, rels) ∈ m -> rel ∈ rels ->
  domain.Object rel ∈ ReBAC.candidates m subject.
Proof.
  intros Hentry Hrel. unfold ReBAC.candidates.
  apply elem_of_union_r, elem_of_list_to_set, list_elem_of_In, in_map.
  apply in_flat_map. exists (key, rels).
  by rewrite <- !list_elem_of_In.
Qed.

Lemma size_list_to_set_le (l : list string) :
  (size (list_to_set l : gset string) <= length l)%nat.
Proof.
  induction l as [|x l IH].
  - by rewrite list_to_set_nil, size_empty.
  - rewrite list_to_set_cons, size_union_alt, size_singleton. simpl.
    assert (size ((list_to_set l : gset string) ∖ {[x]})
            <= size (list_to_set l : gset string))%nat
      by apply subseteq_size, subseteq_difference_l, reflexivity.
    lia.
Qed.

Lemma candidates_size (m : GoMap.t (list domain.Relationship)) (subject : string) :
  (size (ReBAC.candidates m subject) <= 1 + ReBAC.edge_count m)%nat.
Proof.
  unfold ReBAC.candidates, ReBAC.edge_count.
  rewrite size_union_alt, size_singleton.
  pose proof (size_list_to_set_le (map domain.Object (flat_map snd m))) as Hl.
  rewrite length_map in Hl.
  assert (size ((list_to_set (map domain.Object (flat_map snd m)) : gset string)
                  ∖ {[subject]})
          <= size (list_to_set (map domain.Object (flat_map snd m)) : gset string))%nat
    by apply subseteq_size, subseteq_difference_l, reflexivity.
  lia.
Qed.

(** The loop of the search terminates: the queue holds candidates only,
    every candidate is expanded at most once, and an expansion appends at
    most one item per edge. *)
Lemma bfs_terminates (m : GoMap.t (list domain.Relationship))
    (subject targetObject : string) (maxDepth : Z) (fuel : nat) :
  forall (visited : gset string) (queue : list ReBAC.queue_item),
    Forall (fun item => ReBAC.node item ∈ ReBAC.candidates m subject) queue ->
    (length queue
     + ReBAC.edge_count m * size (ReBAC.candidates m subject ∖ visited)
     < fuel)%nat ->
    is_Some (ReBAC.bfs fuel m targetObject maxDepth visited queue).
Proof.
  induction fuel as [|fuel IH]; intros visited queue Hqueue Hfuel; [lia|].
  destruct queue as [|current queue]; simpl; [by eexists|].
  apply Forall_cons in Hqueue as [Hcurrent Hqueue]. simpl in Hfuel.
  destruct (ReBAC.depth current >? maxDepth); [apply IH; [done|lia]|].
  destruct (String.eqb _ _); [by eexists|].
  destruct (bool_decide_reflect (ReBAC.node current ∈ visited)) as [Hv|Hv];
    [apply IH; [done|lia]|].
  apply IH.
  - apply Forall_app. split; [done|].
    apply Forall_forall. intros item Hitem.
    apply successors_elem in Hitem as (key & rels & rel & ? & ? & _ & -> & _).
    by eapply object_in_candidates.
  - rewrite length_app.
    pose proof (successors_length m ({[ReBAC.node current]} ∪ visited) current).
    assert (size (ReBAC.candidates m subject ∖ ({[ReBAC.node current]} ∪ visited))
            < size (ReBAC.candidates m subject ∖ visited))%nat.
    { apply subset_size. set_solver. }
    nia.
Qed.

Lemma bfs_bound_enough (m : GoMap.t (list domain.Relationship))
    (subject targetObject : string) (maxDepth : Z) :
  is_Some (ReBAC.bfs (ReBAC.bfs_bound m) m targetObject maxDepth ∅
             [{| ReBAC.node := subject; ReBAC.path := subject;
                 ReBAC.depth := 0 |}]).
Proof.
  apply (bfs_terminates m subject).
  - constructor; [|constructor]. simpl. unfold ReBAC.candidates. set_solver.
  - unfold ReBAC.bfs_bound. simpl.
    pose proof (candidates_size m subject).
    assert (size (ReBAC.candidates m subject ∖ ∅)
            <= size (ReBAC.candidates m subject))%nat
      by apply subseteq_size, subseteq_difference_l, reflexivity.
    nia.
Qed.

Lemma bfs_cons (fuel : nat) (m : GoMap.t (list domain.Relationship))
    (targetObject : string) (maxDepth : Z) (visited : gset string)
    (current : ReBAC.queue_item) (queue : list ReBAC.queue_item) :
  ReBAC.bfs (S fuel) m targetObject maxDepth visited (current :: queue)
  = if ReBAC.depth current >? maxDepth then
      ReBAC.bfs fuel m targetObject maxDepth visited queue
    else if String.eqb (ReBAC.node current) targetObject then
      Some (true, ReBAC.path current)
    else if bool_decide (ReBAC.node current ∈ visited) then
      ReBAC.bfs fuel m targetObject maxDepth visited queue
    else
      ReBAC.bfs fuel m targetObject maxDepth ({[ReBAC.node current]} ∪ visited)
        (queue ++ ReBAC.successors m ({[ReBAC.node current]} ∪ visited) current).
Proof. reflexivity. Qed.

Section ReBAC_path_finder.
Context {R : Type} {repository : ReBAC.ReBACRepository R}.

Lemma FindRelationshipPath_self (e : ReBAC.ReBACEnforcerImpl R)
    (subject : string) (maxDepth : Z) :
  ReBAC.FindRelationshipPath e subject subject maxDepth = (true, subject).
Proof.
  unfold ReBAC.FindRelationshipPath, ReBAC.bfs_bound.
  change (2 + ?n)%nat with (S (S n)). rewrite bfs_cons.
  cbn [ReBAC.depth ReBAC.node ReBAC.path].
  assert ((0 >? (if maxDepth <=? 0 then 5 else maxDepth)) = false) as ->.
  { destruct (Z.leb_spec maxDepth 0); [done|].
    destruct (Z.gtb_spec 0 maxDepth); [lia|done]. }
  by rewrite String.eqb_refl.
Qed.

(** C8 (as amended).  A call with [maxDepth = 0] is a call with
    [maxDepth = 5], the default that replaces every bound [<= 0]; it
    returns true, with the path [subject], when the subject is the
    target. *)
Theorem C8_zero_depth_is_default_depth (e : ReBAC.ReBACEnforcerImpl R)
    (subject targetObject : string) :
  ReBAC.FindRelationshipPath e subject targetObject 0
  = ReBAC.FindRelationshipPath e subject targetObject 5
  /\ ReBAC.FindRelationshipPath e subject subject 0 = (true, subject).
Proof. split; [reflexivity|apply FindRelationshipPath_self]. Qed.

Lemma bfs_all_too_deep (m : GoMap.t (list domain.Relationship))
    (targetObject : string) (maxDepth : Z) (visited : gset string)
    (fuel : nat) (queue : list ReBAC.queue_item) :
  Forall (fun item => (ReBAC.depth item >? maxDepth) = true) queue ->
  (length queue < fuel)%nat ->
  ReBAC.bfs fuel m targetObject maxDepth visited queue = Some (false, "").
Proof.
  revert queue. induction fuel as [|fuel IH]; intros queue Hdeep Hfuel; [lia|].
  destruct Hdeep as [|current queue Hcurrent Hdeep]; [done|].
  rewrite bfs_cons, Hcurrent. apply IH; [done|]. simpl in Hfuel. lia.
Qed.

(** What the claim describes is the loop run with a bound of 0, which no
    call of [FindRelationshipPath] reaches: it finds the target exactly
    when the target is the subject. *)
Lemma bfs_with_bound_zero (m : GoMap.t (list domain.Relationship))
    (subject targetObject : string) :
  ReBAC.bfs (ReBAC.bfs_bound m) m targetObject 0 ∅
    [{| ReBAC.node := subject; ReBAC.path := subject; ReBAC.depth := 0 |}]
  = Some (if String.eqb subject targetObject then (true, subject)
          else (false, "")).
Proof.
  unfold ReBAC.bfs_bound.
  change (2 + ?n)%nat with (S (S n)). rewrite bfs_cons.
  cbn [ReBAC.depth ReBAC.node ReBAC.path app].
  change (0 >? 0) with false. cbv iota.
  destruct (String.eqb subject targetObject); [done|].
  rewrite bool_decide_eq_false_2 by apply not_elem_of_empty.
  apply bfs_all_too_deep.
  - apply Forall_forall. intros item Hitem.
    apply successors_elem in Hitem as (? & ? & ? & _ & _ & _ & _ & _ & ->).
    done.
  - pose proof (successors_length m ({[subject]} ∪ ∅)
                  {| ReBAC.node := subject; ReBAC.path := subject;
                     ReBAC.depth := 0 |}).
    nia.
Qed.

End ReBAC_path_finder.

(** C8 as stated fails: in [fixtures.graph_friends] alice is a friend of
    bob, and the search from alice for bob with [maxDepth = 0] follows
    that edge and succeeds, although alice is not bob. *)
Lemma C8_counterexample_zero_depth_follows_edges :
  ReBAC.FindRelationshipPath fixtures.graph_friends "alice" "bob" 0
  = (true, "alice -[friend]-> bob")
  /\ ~ (fst (ReBAC.FindRelationshipPath fixtures.graph_friends "alice" "bob" 0)
        = true <-> "alice" = "bob").
Proof.
  assert (Hrun : ReBAC.FindRelationshipPath fixtures.graph_friends "alice" "bob" 0
                 = (true, "alice -[friend]-> bob")) by (vm_compute; reflexivity).
  split; [exact Hrun|].
  rewrite Hrun. intros [H _]. discriminate (H eq_refl).
Qed.

(** ** ReBAC: cache keys are split again on ":" *)

Lemma prefix_nil (s : string) : String.prefix "" s = true.
Proof. by destruct s. Qed.

Lemma Contains_Count (s : string) (c : ascii) :
  strings.Contains s (String c "") = true -> (1 <= strings.Count s c)%nat.
Proof.
  induction s as [|x s IH]; simpl; [done|].
  destruct (ascii_dec c x) as [->|Hne].
  - intros _. rewrite Ascii.eqb_refl. lia.
  - simpl. intros H. specialize (IH H). lia.
Qed.

Lemma Split_no_separator (s : string) (sep : ascii) :
  strings.Count s sep = 0%nat -> strings.Split s sep = [s].
Proof.
  induction s as [|c s IH]; simpl; [done|].
  destruct (Ascii.eqb c sep); simpl; [done|].
  intros H. by rewrite (IH H).
Qed.

Lemma prefix_app (p r : string) : String.prefix p (p +:+ r) = true.
Proof.
  induction p as [|c p IH]; [apply prefix_nil|].
  rewrite string_app_cons. simpl. by destruct (ascii_dec c c).
Qed.

Lemma cache_key_parts (subject relationship : string) :
  strings.Contains subject ":" = true ->
  Nat.eqb (length (strings.Split (ReBAC.cache_key subject relationship) ":")) 2
  = false.
Proof.
  intros Hcolon%Contains_Count. apply Nat.eqb_neq.
  unfold ReBAC.cache_key.
  change (":" +:+ relationship) with (String ":" relationship).
  rewrite Split_length, Count_app. simpl. lia.
Qed.

(** A reverse key either has more than two fields or a second field that
    starts with [reverse_]. *)
Lemma cache_reverseKey_parts (object relationship : string) :
  let parts := strings.Split (ReBAC.cache_reverseKey object relationship) ":" in
  Nat.eqb (length parts) 2
  && negb (strings.HasPrefix (nth 1 parts "") "reverse_") = false.
Proof.
  unfold ReBAC.cache_reverseKey.
  change (":reverse_" +:+ relationship)
    with (String ":" ("reverse_" +:+ relationship)).
  assert (Hprefix : strings.HasPrefix ("reverse_" +:+ relationship) "reverse_"
                    = true) by apply prefix_app.
  revert Hprefix. generalize ("reverse_" +:+ relationship). intros w Hprefix.
  rewrite Split_app. cbv zeta.
  pose proof (Split_length object ":") as Hobject.
  pose proof (Split_length w ":") as Hw.
  destruct (strings.Split object ":") as [|a [|a' A]]; simpl in *; [done| |].
  - destruct (strings.Count w ":") eqn:Hcount.
    + rewrite (Split_no_separator _ _ Hcount). simpl. by rewrite Hprefix.
    + destruct (strings.Split w ":") as [|b [|b' B]]; simpl in *;
        [done|lia|done].
  - rewrite length_app.
    destruct (strings.Split w ":") as [|b B]; simpl in *; [done|].
    destruct (length A + S (length B))%nat eqn:Hlen; [lia|done].
Qed.

Lemma flat_map_store_hidden {V B : Type} (f : string * V -> list B)
    (m : GoMap.t V) (k : string) (v : V) :
  (forall v', f (k, v') = []) ->
  flat_map f (GoMap.store m k v) = flat_map f m.
Proof.
  intros Hhidden. induction m as [|[k' v'] m IH]; simpl.
  - by rewrite Hhidden.
  - destruct (String.eqb_spec k' k) as [->|Hne]; simpl.
    + by rewrite !Hhidden.
    + by rewrite IH.
Qed.

Section ReBAC_colon.
Context {R : Type} {repository : ReBAC.ReBACRepository R}.

Lemma AddRelationship_ok (e : ReBAC.ReBACEnforcerImpl R)
    (subject relationship object : string) :
  snd (ReBAC.repo_AddRelationship (ReBAC.repo e) subject relationship object)
  = None ->
  ReBAC.relationships
    (snd (ReBAC.AddRelationship e subject relationship object))
  = ReBAC.cache_insert (ReBAC.relationships e) subject relationship object
  /\ ReBAC.permissions
       (snd (ReBAC.AddRelationship e subject relationship object))
     = ReBAC.permissions e.
Proof.
  unfold ReBAC.AddRelationship.
  by destruct (ReBAC.repo_AddRelationship _ _ _ _) as [r [err|]].
Qed.

(** C10.  An edge whose subject contains ":" is stored under a key that
    splits into more than two fields.  Adding such an edge changes
    neither the direct relationships between any two nodes nor any
    listing by [GetRelationships]: the new entry is skipped, like its
    reverse entry.  On [fixtures.graph_colon], whose only edge makes
    user:alice the owner of doc, "owner" grants "read", the edge is in the
    cache, and [Enforce] denies (user:alice, doc, read). *)
Theorem C10_colon_subject_is_never_seen (e : ReBAC.ReBACEnforcerImpl R)
    (subject relationship object : string)
    (Hcolon : strings.Contains subject ":" = true)
    (Hrepo : snd (ReBAC.repo_AddRelationship (ReBAC.repo e)
                    subject relationship object) = None) :
  (forall s o,
      ReBAC.getDirectRelationships
        (snd (ReBAC.AddRelationship e subject relationship object)) s o
      = ReBAC.getDirectRelationships e s o)
  /\ (forall s,
        ReBAC.GetRelationships
          (snd (ReBAC.AddRelationship e subject relationship object)) s
        = ReBAC.GetRelationships e s)
  /\ (ReBAC.hasPermissionThroughRelationship fixtures.graph_colon "owner" "read"
      = true
      /\ GoMap.lookup (ReBAC.relationships fixtures.graph_colon)
           (ReBAC.cache_key "user:alice" "owner")
         = Some [{| domain.Subject := "user:alice";
                    domain.Relationship_ := "owner";
                    domain.Object := "doc" |}]
      /\ ReBAC.GetRelationships fixtures.graph_colon "" = ([], None)
      /\ forall fuel,
           ReBAC.Enforce (S fuel) fixtures.graph_colon "user:alice" "doc" "read"
           = Some (false, "", None)).
Proof.
  destruct (AddRelationship_ok e subject relationship object Hrepo)
    as [Hcache _].
  pose proof (cache_key_parts subject relationship Hcolon) as Hkey.
  pose proof (cache_reverseKey_parts object relationship) as Hrev.
  simpl in Hrev.
  split; [|split].
  - intros s o. unfold ReBAC.getDirectRelationships.
    rewrite Hcache. unfold ReBAC.cache_insert.
    rewrite !flat_map_store_hidden; [done| |]; intros v'; simpl.
    + by rewrite Hkey.
    + clear Hkey.
      destruct (Nat.eqb _ 2), (String.eqb (nth 0 _ _) s),
        (strings.HasPrefix _ _); simpl in *; congruence.
  - intros s. unfold ReBAC.GetRelationships.
    rewrite Hcache. unfold ReBAC.cache_insert.
    rewrite !flat_map_store_hidden; [done| |]; intros v'; simpl.
    + rewrite Hkey. by destruct (negb (String.eqb s "")).
    + clear Hkey.
      destruct (Nat.eqb _ 2); simpl in *;
        [|by destruct (negb (String.eqb s ""))].
      rewrite Hrev, andb_false_r. by destruct (negb (String.eqb s "")).
  - split; [|split; [|split]]; [vm_compute; reflexivity..|].
    intros fuel. rewrite Enforce_S. vm_compute. reflexivity.
Qed.

End ReBAC_colon.

(** Witness of C10: after adding (user:alice, owner, doc) to an empty
    cache, the listing for user:alice is empty. *)
Lemma C10_witness_listing_stays_empty :
  ReBAC.GetRelationships
    (snd (ReBAC.AddRelationship (fixtures.graph []) "user:alice" "owner" "doc"))
    "user:alice"
  = ([], None).
Proof.
  refine (eq_trans
    (proj1 (proj2
       (C10_colon_subject_is_never_seen (fixtures.graph [])
          "user:alice" "owner" "doc" _ _)) "user:alice") _).
  - vm_compute. reflexivity.
  - reflexivity.
  - reflexivity.
Defined.

(** ** ReBAC: the path returned by [Enforce] *)

Lemma render_snoc (subject : string) (hops : list (string * string))
    (rel node : string) :
  Spec.render subject (hops ++ [(rel, node)])
  = ReBAC.arrow (Spec.render subject hops) rel node.
Proof. unfold Spec.render. by rewrite fold_left_app. Qed.

Lemma last_node_snoc (subject : string) (hops : list (string * string))
    (rel node : string) :
  Spec.last_node subject (hops ++ [(rel, node)]) = node.
Proof. unfold Spec.last_node. rewrite map_app. apply last_last. Qed.

Lemma render_begins (subject : string) (hops : list (string * string)) :
  exists rest, Spec.render subject hops = subject +:+ rest.
Proof.
  revert subject. induction hops as [|[rel node] hops IH]; intros subject.
  - exists "". by rewrite string_app_nil_r.
  - destruct (IH (ReBAC.arrow subject rel node)) as [rest Hrest].
    exists (" -[" +:+ rel +:+ "]-> " +:+ node +:+ rest).
    unfold Spec.render in *. simpl. rewrite Hrest. unfold ReBAC.arrow.
    by rewrite !string_app_assoc.
Qed.

Lemma render_ends (subject : string) (hops : list (string * string)) :
  exists front, Spec.render subject hops = front +:+ Spec.last_node subject hops.
Proof.
  induction hops as [|[rel node] hops _] using rev_ind.
  - by exists "".
  - exists (Spec.render subject hops +:+ " -[" +:+ rel +:+ "]-> ").
    rewrite render_snoc, last_node_snoc. unfold ReBAC.arrow.
    by rewrite !string_app_assoc.
Qed.

Lemma names_edge (m : GoMap.t (list domain.Relationship)) (key : string)
    (rels : list domain.Relationship) (rel : domain.Relationship) :
  (key, rels) ∈ m -> rel ∈ rels ->
  domain.Relationship_ rel ∈ Spec.names m /\ domain.Object rel ∈ Spec.names m.
Proof.
  intros Hentry Hrel. unfold Spec.names.
  rewrite !list_elem_of_In, !in_flat_map.
  split; exists (key, rels); (split; [by apply list_elem_of_In|]);
    apply in_or_app; right; apply in_flat_map; exists rel;
    (split; [by apply list_elem_of_In|]); simpl; auto.
Qed.

Lemma names_part (m : GoMap.t (list domain.Relationship)) (key : string)
    (rels : list domain.Relationship) (part : string) :
  (key, rels) ∈ m -> part ∈ strings.Split key ":" -> part ∈ Spec.names m.
Proof.
  intros Hentry Hpart. unfold Spec.names.
  rewrite list_elem_of_In, in_flat_map. exists (key, rels).
  split; [by apply list_elem_of_In|].
  apply in_or_app. left. by apply list_elem_of_In.
Qed.

Lemma lookup_elem {V : Type} (m : GoMap.t V) (k : string) (v : V) :
  GoMap.lookup m k = Some v -> (k, v) ∈ m.
Proof.
  induction m as [|[k' v'] m IH]; simpl; [done|].
  destruct (String.eqb_spec k' k) as [->|Hne].
  - intros [= ->]. left.
  - intros H. right. by apply IH.
Qed.

Lemma arrow_path_self (m : GoMap.t (list domain.Relationship)) (subject : string) :
  Spec.arrow_path m subject subject subject.
Proof. by exists []. Qed.

Lemma arrow_path_step (m : GoMap.t (list domain.Relationship))
    (subject object path rel node : string) :
  Spec.arrow_path m subject object path ->
  rel ∈ Spec.names m -> node ∈ Spec.names m ->
  Spec.arrow_path m subject node (ReBAC.arrow path rel node).
Proof.
  intros (hops & Hnamed & -> & _) Hrel Hnode.
  exists (hops ++ [(rel, node)]). split; [|split].
  - apply Forall_app. split; [done|]. by repeat constructor.
  - by rewrite render_snoc.
  - apply last_node_snoc.
Qed.

Lemma bfs_found (m : GoMap.t (list domain.Relationship))
    (subject targetObject : string) (maxDepth : Z) (fuel : nat) :
  forall (visited : gset string) (queue : list ReBAC.queue_item) (path : string),
    Forall (fun item => Spec.arrow_path m subject (ReBAC.node item)
                          (ReBAC.path item)) queue ->
    ReBAC.bfs fuel m targetObject maxDepth visited queue = Some (true, path) ->
    Spec.arrow_path m subject targetObject path.
Proof.
  induction fuel as [|fuel IH]; intros visited queue path Hqueue; [done|].
  destruct Hqueue as [|current queue Hcurrent Hqueue]; [done|].
  rewrite bfs_cons.
  destruct (ReBAC.depth current >? maxDepth); [by apply IH|].
  destruct (String.eqb_spec (ReBAC.node current) targetObject) as [<-|_];
    [by intros [= <-]|].
  destruct (bool_decide _); [by apply IH|].
  apply IH. apply Forall_app. split; [done|].
  apply Forall_forall. intros item Hitem.
  apply successors_elem in Hitem
    as (key & rels & rel & Hentry & Hrel & Hlen & -> & -> & _).
  apply (arrow_path_step m subject (ReBAC.node current)); [done| |].
  - apply (names_part m key rels); [done|].
    apply list_elem_of_In, nth_In. lia.
  - by apply (names_edge m key rels).
Qed.

Lemma last_node_cons (subject relationship node : string)
    (hops : list (string * string)) :
  Spec.last_node subject ((relationship, node) :: hops) = Spec.last_node node hops.
Proof.
  unfold Spec.last_node. cbn [map snd].
  generalize (map snd hops). intros l. revert subject node.
  induction l as [|a l IH]; intros subject node; [done|].
  change (List.last (node :: a :: l) subject) with (List.last (a :: l) subject).
  rewrite (IH subject a). by rewrite (IH node a).
Qed.

Lemma walk_snoc (m : GoMap.t (list domain.Relationship))
    (hops : list (string * string)) (relationship node : string) :
  forall source,
    Invariants.walk m source hops ->
    Invariants.edge m (Spec.last_node source hops) relationship node ->
    Invariants.walk m source (hops ++ [(relationship, node)]).
Proof.
  induction hops as [|[r n] hops IH]; intros source Hwalk Hedge; simpl.
  - done.
  - destruct Hwalk as [Hfirst Hwalk]. split; [done|].
    apply IH; [done|]. by rewrite last_node_cons in Hedge.
Qed.

Lemma successors_edge (m : GoMap.t (list domain.Relationship))
    (visited : gset string) (current item : ReBAC.queue_item) :
  item ∈ ReBAC.successors m visited current ->
  exists relationship,
    Invariants.edge m (ReBAC.node current) relationship (ReBAC.node item)
    /\ ReBAC.path item
       = ReBAC.arrow (ReBAC.path current) relationship (ReBAC.node item)
    /\ ReBAC.depth item = ReBAC.depth current + 1.
Proof.
  unfold ReBAC.successors. intros Hin.
  apply list_elem_of_In, in_flat_map in Hin as ([key rels] & Hentry & Hin).
  cbn [fst snd] in Hin.
  destruct (strings.Split key ":") as [|source [|relationship [|? ?]]] eqn:Hparts;
    try by destruct Hin.
  cbn [length Nat.eqb negb orb nth] in Hin.
  destruct (String.eqb_spec source (ReBAC.node current)) as [->|_];
    [|by destruct Hin].
  cbn [negb] in Hin.
  destruct (strings.HasPrefix relationship "reverse_") eqn:Hprefix;
    [by destruct Hin|].
  apply in_flat_map in Hin as (rel & Hrel & Hin).
  destruct (bool_decide _); [by destruct Hin|].
  destruct Hin as [<-|[]]. cbn [ReBAC.node ReBAC.path ReBAC.depth].
  exists relationship. split; [|done].
  exists key, rels, rel. by rewrite !list_elem_of_In.
Qed.

Lemma bfs_walk (m : GoMap.t (list domain.Relationship))
    (subject targetObject : string) (maxDepth : Z) (fuel : nat) :
  forall (visited : gset string) (queue : list ReBAC.queue_item) (path : string),
    Forall (fun item =>
              exists hops,
                ReBAC.path item = Spec.render subject hops
                /\ Spec.last_node subject hops = ReBAC.node item
                /\ Z.of_nat (length hops) = ReBAC.depth item
                /\ Invariants.walk m subject hops) queue ->
    ReBAC.bfs fuel m targetObject maxDepth visited queue = Some (true, path) ->
    exists hops,
      path = Spec.render subject hops
      /\ Spec.last_node subject hops = targetObject
      /\ Z.of_nat (length hops) <= maxDepth
      /\ Invariants.walk m subject hops.
Proof.
  induction fuel as [|fuel IH]; intros visited queue path Hqueue; [done|].
  destruct Hqueue as [|current queue Hcurrent Hqueue]; [done|].
  rewrite bfs_cons.
  destruct (Z.gtb_spec (ReBAC.depth current) maxDepth) as [_|Hdepth];
    [by apply IH|].
  destruct (String.eqb_spec (ReBAC.node current) targetObject) as [<-|_].
  { intros [= <-]. destruct Hcurrent as (hops & Hpath & Hlast & Hlen & Hwalk).
    exists hops. repeat split; try done. lia. }
  destruct (bool_decide _); [by apply IH|].
  apply IH. apply Forall_app. split; [done|].
  apply Forall_forall. intros item Hitem.
  apply successors_edge in Hitem as (relationship & Hedge & Hpath & Hdepth').
  destruct Hcurrent as (hops & Hpath0 & Hlast & Hlen & Hwalk).
  exists (hops ++ [(relationship, ReBAC.node item)]). repeat split.
  - by rewrite render_snoc, Hpath, Hpath0.
  - apply last_node_snoc.
  - rewrite length_app. simpl. lia.
  - apply walk_snoc; [done|]. by rewrite Hlast.
Qed.

Section ReBAC_paths.
Context {R : Type} {repository : ReBAC.ReBACRepository R}.

Lemma find_direct (e : ReBAC.ReBACEnforcerImpl R)
    (subject object permission : string) :
  is_Some (List.find
             (fun rel => ReBAC.hasPermissionThroughRelationship e
                           (domain.Relationship_ rel) permission)
             (ReBAC.getDirectRelationships e subject object))
  <-> Invariants.direct_rule e subject object permission.
Proof.
  unfold Invariants.direct_rule. split.
  - intros [rel Hfind]. apply find_some in Hfind as [Hin Hrel].
    exists rel. by rewrite list_elem_of_In.
  - intros (rel & Hin & Hrel). apply list_elem_of_In in Hin.
    destruct (List.find _ _) eqn:Hfind; [by eexists|].
    pose proof (find_none _ _ Hfind _ Hin) as Hnone. simpl in Hnone. congruence.
Qed.

Lemma checkGroupAccess_loop_decides (e : ReBAC.ReBACEnforcerImpl R)
    (subject object permission : string) (groups : list domain.Relationship) :
  fst (ReBAC.checkGroupAccess_loop e subject object permission groups) = true
  <-> exists groupRel,
        groupRel ∈ groups
        /\ Invariants.direct_rule e (domain.Object groupRel) object permission.
Proof.
  induction groups as [|groupRel rest IH]; simpl.
  - split; [done|]. intros (groupRel & Hin & _). by apply elem_of_nil in Hin.
  - destruct (List.find _ _) as [rel|] eqn:Hfind; simpl.
    + split; [|done]. intros _. exists groupRel. split; [left|].
      apply find_direct. by eexists.
    + rewrite IH. split.
      * intros (groupRel' & Hin & Hrule). exists groupRel'. split; [by right|done].
      * intros (groupRel' & Hin & Hrule).
        apply elem_of_cons in Hin as [->|Hin]; [|by exists groupRel'].
        apply find_direct in Hrule as [rel Hrel]. congruence.
Qed.

Lemma checkGroupAccess_decides (e : ReBAC.ReBACEnforcerImpl R)
    (subject object permission : string) :
  fst (ReBAC.checkGroupAccess e subject object permission) = true
  <-> Invariants.group_rule e subject object permission.
Proof.
  unfold ReBAC.checkGroupAccess, Invariants.group_rule.
  destruct (GoMap.lookup _ _) as [groups|]; simpl.
  - rewrite checkGroupAccess_loop_decides. split.
    + intros (groupRel & Hin & Hrule). by exists groups, groupRel.
    + intros (groups' & groupRel & [= <-] & Hin & Hrule). by exists groupRel.
  - split; [done|]. by intros (groups & groupRel & ? & _).
Qed.

Lemma checkHierarchicalAccess_rels_decides
    (enforce : string -> string -> string
               -> option (bool * string * option domain.error))
    (subject object permission parentObject : string)
    (rels : list domain.Relationship) (result : option string) :
  ReBAC.checkHierarchicalAccess_rels enforce subject object permission
    parentObject rels = Some result ->
  (is_Some result
   <-> exists rel parentPath err,
         rel ∈ rels /\ domain.Object rel = object
         /\ enforce subject parentObject permission
            = Some (true, parentPath, err)).
Proof.
  induction rels as [|rel rest IH]; simpl.
  - intros [= <-]. split; [by intros [? ?]|].
    intros (rel & ? & ? & Hin & _). by apply elem_of_nil in Hin.
  - destruct (String.eqb_spec (domain.Object rel) object) as [Hobject|Hne].
    + destruct (enforce subject parentObject permission)
        as [[[hasAccess parentPath] err]|] eqn:Hcall; [|done].
      destruct hasAccess.
      * intros [= <-]. split; [|by eexists]. intros _.
        exists rel, parentPath, err. split; [left|done].
      * intros Hrest. rewrite (IH Hrest). split.
        -- intros (rel' & p & err' & _ & _ & ?). congruence.
        -- intros (rel' & p & err' & _ & _ & ?). congruence.
    + intros Hrest. rewrite (IH Hrest). split.
      * intros (rel' & p & err' & Hin & Hrel'). exists rel', p, err'.
        split; [by right|done].
      * intros (rel' & p & err' & Hin & Hobject & Hcall).
        apply elem_of_cons in Hin as [->|Hin]; [done|].
        by exists rel', p, err'.
Qed.

Lemma checkHierarchicalAccess_keys_decides
    (enforce : string -> string -> string
               -> option (bool * string * option domain.error))
    (subject object permission : string)
    (entries : GoMap.t (list domain.Relationship)) (result : bool * string) :
  ReBAC.checkHierarchicalAccess_keys enforce subject object permission entries
  = Some result ->
  (fst result = true
   <-> exists key rels rel parentPath err,
         (key, rels) ∈ entries
         /\ length (strings.Split key ":") = 2%nat
         /\ nth 1 (strings.Split key ":") "" = "parent"
         /\ rel ∈ rels /\ domain.Object rel = object
         /\ enforce subject (nth 0 (strings.Split key ":") "") permission
            = Some (true, parentPath, err)).
Proof.
  induction entries as [|[key rels] rest IH]; simpl.
  - intros [= <-]. split; [done|].
    intros (key & rels & ? & ? & ? & Hin & _). by apply elem_of_nil in Hin.
  - destruct (Nat.eqb_spec (length (strings.Split key ":")) 2) as [Hlen|Hlen];
      simpl.
    2:{ intros Hrest. rewrite (IH Hrest). split.
        - intros (key' & rels' & rel & p & err & Hin & Htail).
          exists key', rels', rel, p, err. split; [by right|done].
        - intros (key' & rels' & rel & p & err & Hin & Hlen' & Htail).
          apply elem_of_cons in Hin as [[= -> ->]|Hin]; [done|].
          by exists key', rels', rel, p, err. }
    destruct (String.eqb_spec (nth 1 (strings.Split key ":") "") "parent")
      as [Hparent|Hparent]; simpl.
    2:{ intros Hrest. rewrite (IH Hrest). split.
        - intros (key' & rels' & rel & p & err & Hin & Htail).
          exists key', rels', rel, p, err. split; [by right|done].
        - intros (key' & rels' & rel & p & err & Hin & Hlen' & Hparent' & Htail).
          apply elem_of_cons in Hin as [[= -> ->]|Hin]; [done|].
          by exists key', rels', rel, p, err. }
    destruct (ReBAC.checkHierarchicalAccess_rels _ _ _ _ _ _) as [inner|] eqn:Hrels;
      [|done].
    pose proof (checkHierarchicalAccess_rels_decides _ _ _ _ _ _ _ Hrels) as Hinner.
    destruct inner as [path|].
    + intros [= <-]. split; [|done]. intros _.
      destruct (proj1 Hinner) as (rel & p & err & Hin & Hobject & Hcall);
        [by eexists|].
      exists key, rels, rel, p, err. split; [left|done].
    + intros Hrest. rewrite (IH Hrest). split.
      * intros (key' & rels' & rel & p & err & Hin & Htail).
        exists key', rels', rel, p, err. split; [by right|done].
      * intros (key' & rels' & rel & p & err & Hin & Hlen' & Hparent' & Hrel
                & Hobject & Hcall).
        apply elem_of_cons in Hin as [[= -> ->]|Hin];
          [|by exists key', rels', rel, p, err].
        destruct (proj2 Hinner) as [? ?]; [|done]. by exists rel, p, err.
Qed.

Lemma checkSocialAccess_decides (e : ReBAC.ReBACEnforcerImpl R)
    (subject object : string) :
  fst (ReBAC.checkSocialAccess e subject object 3) = true
  <-> exists path,
        ReBAC.FindRelationshipPath e subject object 3 = (true, path)
        /\ strings.Contains path "friend" = true
        /\ ReBAC.hasPermissionThroughRelationship e "friend" "read_limited" = true.
Proof.
  unfold ReBAC.checkSocialAccess.
  destruct (ReBAC.FindRelationshipPath e subject object 3) as [found path].
  destruct found; simpl.
  - destruct (strings.Contains path "friend") eqn:Hfriend; simpl.
    + destruct (ReBAC.hasPermissionThroughRelationship e "friend" "read_limited")
        eqn:Hgrants; simpl.
      * split; [|done]. intros _. by exists path.
      * split; [done|]. intros (path' & _ & _ & ?). congruence.
    + split; [done|]. intros (path' & [= <-] & ? & _). congruence.
  - split; [done|]. by intros (path' & ? & _).
Qed.

Lemma FindRelationshipPath_found (e : ReBAC.ReBACEnforcerImpl R)
    (subject targetObject : string) (maxDepth : Z) (path : string) :
  ReBAC.FindRelationshipPath e subject targetObject maxDepth = (true, path) ->
  Spec.arrow_path (ReBAC.relationships e) subject targetObject path.
Proof.
  unfold ReBAC.FindRelationshipPath.
  destruct (ReBAC.bfs _ _ _ _ _ _) as [[found path']|] eqn:Hbfs; simpl; [|done].
  intros [= -> ->]. eapply bfs_found; [|exact Hbfs].
  constructor; [|constructor]. apply arrow_path_self.
Qed.

Lemma checkSocialAccess_found (e : ReBAC.ReBACEnforcerImpl R)
    (subject object : string) (maxDepth : Z) (path : string) :
  ReBAC.checkSocialAccess e subject object maxDepth = (true, path) ->
  Spec.arrow_path (ReBAC.relationships e) subject object path.
Proof.
  unfold ReBAC.checkSocialAccess.
  destruct (ReBAC.FindRelationshipPath e subject object maxDepth)
    as [found path'] eqn:Hfind.
  destruct found; simpl; [|done].
  destruct (strings.Contains _ _); [|done].
  destruct (ReBAC.hasPermissionThroughRelationship _ _ _); [|done].
  intros [= <-]. by apply FindRelationshipPath_found in Hfind.
Qed.

Lemma getDirectRelationships_elem (e : ReBAC.ReBACEnforcerImpl R)
    (subject object : string) (rel : domain.Relationship) :
  rel ∈ ReBAC.getDirectRelationships e subject object ->
  domain.Object rel = object
  /\ exists key rels, (key, rels) ∈ ReBAC.relationships e /\ rel ∈ rels.
Proof.
  unfold ReBAC.getDirectRelationships. intros Hin.
  apply list_elem_of_In, in_flat_map in Hin as ([key rels] & Hentry & Hin).
  simpl in Hin. destruct (_ && _); [|by destruct Hin].
  apply list_elem_of_In, list_elem_of_filter in Hin as [Hobject Hrel].
  apply Is_true_true, String.eqb_eq in Hobject.
  split; [done|]. exists key, rels. split; [|done]. by apply list_elem_of_In.
Qed.

Lemma direct_arrow_path (e : ReBAC.ReBACEnforcerImpl R)
    (origin subject object path : string) (rel : domain.Relationship)
    (allowed : domain.Relationship -> bool) :
  Spec.arrow_path (ReBAC.relationships e) origin subject path ->
  List.find allowed (ReBAC.getDirectRelationships e subject object) = Some rel ->
  Spec.arrow_path (ReBAC.relationships e) origin object
    (ReBAC.arrow path (domain.Relationship_ rel) object).
Proof.
  intros Hpath Hfind. apply find_some in Hfind as [Hin _].
  apply list_elem_of_In, getDirectRelationships_elem in Hin
    as (<- & key & rels & Hentry & Hrel).
  destruct (names_edge _ _ _ _ Hentry Hrel).
  by apply (arrow_path_step _ origin subject).
Qed.

Lemma checkGroupAccess_loop_found (e : ReBAC.ReBACEnforcerImpl R)
    (subject object permission : string) (groups : list domain.Relationship)
    (path : string) :
  "member" ∈ Spec.names (ReBAC.relationships e) ->
  Forall (fun groupRel =>
            domain.Object groupRel ∈ Spec.names (ReBAC.relationships e)) groups ->
  ReBAC.checkGroupAccess_loop e subject object permission groups = (true, path) ->
  Spec.arrow_path (ReBAC.relationships e) subject object path.
Proof.
  intros Hmember. induction 1 as [|groupRel groups Hgroup _ IH]; simpl; [done|].
  destruct (List.find _ _) as [rel|] eqn:Hfind; [|exact IH].
  intros [= <-].
  pose proof (direct_arrow_path e subject (domain.Object groupRel) object
                (ReBAC.arrow subject "member" (domain.Object groupRel)) rel _
                (arrow_path_step _ subject subject subject "member" _
                   (arrow_path_self _ _) Hmember Hgroup) Hfind) as Hpath.
  unfold ReBAC.arrow in Hpath. rewrite !string_app_assoc in Hpath.
  exact Hpath.
Qed.

Lemma checkGroupAccess_found (e : ReBAC.ReBACEnforcerImpl R)
    (subject object permission path : string) :
  ReBAC.checkGroupAccess e subject object permission = (true, path) ->
  Spec.arrow_path (ReBAC.relationships e) subject object path.
Proof.
  unfold ReBAC.checkGroupAccess.
  destruct (GoMap.lookup _ _) as [groups|] eqn:Hlookup; [|done].
  apply lookup_elem in Hlookup.
  apply checkGroupAccess_loop_found.
  - apply (names_part _ _ _ _ Hlookup).
    change (subject +:+ ":member") with (subject +:+ String ":" "member").
    rewrite Split_app. apply elem_of_app. right. left.
  - apply Forall_forall. intros groupRel Hin.
    by apply (names_edge _ _ _ _ Hlookup).
Qed.

Lemma render_one (subject relationship node : string) :
  Spec.render subject [(relationship, node)]
  = ReBAC.arrow subject relationship node.
Proof. reflexivity. Qed.

Lemma render_two (subject relationship1 node1 relationship2 node2 : string) :
  Spec.render subject [(relationship1, node1); (relationship2, node2)]
  = subject +:+ " -[" +:+ relationship1 +:+ "]-> " +:+ node1
      +:+ " -[" +:+ relationship2 +:+ "]-> " +:+ node2.
Proof.
  unfold Spec.render, ReBAC.arrow. simpl. by rewrite !string_app_assoc.
Qed.

Lemma checkGroupAccess_loop_explained (e : ReBAC.ReBACEnforcerImpl R)
    (subject object permission : string) (groups : list domain.Relationship)
    (path : string) :
  ReBAC.checkGroupAccess_loop e subject object permission groups = (true, path) ->
  exists groupRel rel,
    groupRel ∈ groups
    /\ rel ∈ ReBAC.getDirectRelationships e (domain.Object groupRel) object
    /\ ReBAC.hasPermissionThroughRelationship e (domain.Relationship_ rel)
         permission = true
    /\ path = Spec.render subject
                [("member", domain.Object groupRel);
                 (domain.Relationship_ rel, object)].
Proof.
  induction groups as [|groupRel groups IH];
    cbn [ReBAC.checkGroupAccess_loop]; [done|].
  destruct (List.find _ _) as [rel|] eqn:Hfind.
  - intros [= <-]. apply find_some in Hfind as [Hin Hgrants].
    exists groupRel, rel. split; [left|]. split; [by apply list_elem_of_In|].
    split; [done|]. rewrite render_two. reflexivity.
  - intros Hrest. destruct (IH Hrest) as (groupRel' & rel & Hin & Hrel).
    exists groupRel', rel. split; [by right|done].
Qed.

Lemma checkGroupAccess_explained (e : ReBAC.ReBACEnforcerImpl R)
    (subject object permission path : string) :
  ReBAC.checkGroupAccess e subject object permission = (true, path) ->
  Invariants.group_path e subject object permission path.
Proof.
  unfold ReBAC.checkGroupAccess, Invariants.group_path.
  destruct (GoMap.lookup _ _) as [groups|]; [|done].
  intros Hloop. apply checkGroupAccess_loop_explained in Hloop
    as (groupRel & rel & Hin & Hrel).
  by exists groups, groupRel, rel.
Qed.

Lemma checkHierarchicalAccess_rels_explained
    (enforce : string -> string -> string
               -> option (bool * string * option domain.error))
    (subject object permission parentObject : string)
    (rels : list domain.Relationship) (path : string) :
  ReBAC.checkHierarchicalAccess_rels enforce subject object permission
    parentObject rels = Some (Some path) ->
  exists rel parentPath err,
    rel ∈ rels /\ domain.Object rel = object
    /\ enforce subject parentObject permission = Some (true, parentPath, err)
    /\ path = parentPath +:+ " -> " +:+ parentObject +:+ " -[parent]-> "
              +:+ object.
Proof.
  induction rels as [|rel rels IH]; simpl; [done|].
  destruct (String.eqb_spec (domain.Object rel) object) as [Hobject|_].
  - destruct (enforce _ _ _) as [[[hasAccess parentPath] err]|] eqn:Hcall;
      [|done].
    destruct hasAccess.
    + intros [= <-]. exists rel, parentPath, err. split; [left|done].
    + intros Hrest. destruct (IH Hrest) as (rel' & p & err' & Hin & Hrel').
      exists rel', p, err'. split; [by right|done].
  - intros Hrest. destruct (IH Hrest) as (rel' & p & err' & Hin & Hrel').
    exists rel', p, err'. split; [by right|done].
Qed.

Lemma checkHierarchicalAccess_keys_explained
    (enforce : string -> string -> string
               -> option (bool * string * option domain.error))
    (subject object permission : string)
    (entries : GoMap.t (list domain.Relationship)) (path : string) :
  ReBAC.checkHierarchicalAccess_keys enforce subject object permission entries
  = Some (true, path) ->
  exists key rels rel parentPath err,
    (key, rels) ∈ entries
    /\ length (strings.Split key ":") = 2%nat
    /\ nth 1 (strings.Split key ":") "" = "parent"
    /\ rel ∈ rels /\ domain.Object rel = object
    /\ enforce subject (nth 0 (strings.Split key ":") "") permission
       = Some (true, parentPath, err)
    /\ path = parentPath +:+ " -> " +:+ nth 0 (strings.Split key ":") ""
                +:+ " -[parent]-> " +:+ object.
Proof.
  induction entries as [|[key rels] entries IH]; simpl; [done|].
  assert (forall result,
            ReBAC.checkHierarchicalAccess_keys enforce subject object permission
              entries = Some (true, path) -> result = Some (true, path) ->
            exists key' rels' rel parentPath err,
              (key', rels') ∈ (key, rels) :: entries
              /\ length (strings.Split key' ":") = 2%nat
              /\ nth 1 (strings.Split key' ":") "" = "parent"
              /\ rel ∈ rels' /\ domain.Object rel = object
              /\ enforce subject (nth 0 (strings.Split key' ":") "") permission
                 = Some (true, parentPath, err)
              /\ path = parentPath +:+ " -> " +:+ nth 0 (strings.Split key' ":") ""
                          +:+ " -[parent]-> " +:+ object) as Hlater.
  { intros _ Hrest _.
    destruct (IH Hrest) as (key' & rels' & rel & p & err & Hin & Htail).
    exists key', rels', rel, p, err. split; [by right|done]. }
  destruct (Nat.eqb_spec (length (strings.Split key ":")) 2) as [Hlen|_]; simpl;
    [|by eauto].
  destruct (String.eqb_spec (nth 1 (strings.Split key ":") "") "parent")
    as [Hparent|_]; simpl; [|by eauto].
  destruct (ReBAC.checkHierarchicalAccess_rels _ _ _ _ _ _) as [[path'|]|]
    eqn:Hrels; [|by eauto|done].
  intros [= <-]. apply checkHierarchicalAccess_rels_explained in Hrels
    as (rel & p & err & Hin & Hobject & Hcall & Hpath).
  exists key, rels, rel, p, err. split; [left|done].
Qed.

Lemma FindRelationshipPath_walk (e : ReBAC.ReBACEnforcerImpl R)
    (subject targetObject : string) (maxDepth : Z) (path : string) :
  ReBAC.FindRelationshipPath e subject targetObject maxDepth = (true, path) ->
  exists hops,
    path = Spec.render subject hops
    /\ Spec.last_node subject hops = targetObject
    /\ Z.of_nat (length hops) <= (if maxDepth <=? 0 then 5 else maxDepth)
    /\ Invariants.walk (ReBAC.relationships e) subject hops.
Proof.
  unfold ReBAC.FindRelationshipPath.
  destruct (ReBAC.bfs _ _ _ _ _ _) as [[found path']|] eqn:Hbfs; simpl; [|done].
  intros [= -> ->]. eapply bfs_walk; [|exact Hbfs].
  constructor; [|constructor]. by exists [].
Qed.

Lemma checkSocialAccess_explained (e : ReBAC.ReBACEnforcerImpl R)
    (subject object permission path : string) :
  permission = "read" \/ permission = "read_limited" ->
  ReBAC.checkSocialAccess e subject object 3 = (true, path) ->
  Invariants.social_path e subject object permission path.
Proof.
  intros Hpermission. unfold ReBAC.checkSocialAccess, Invariants.social_path.
  destruct (ReBAC.FindRelationshipPath e subject object 3)
    as [found path'] eqn:Hfind.
  destruct found; simpl; [|done].
  destruct (strings.Contains path' "friend") eqn:Hfriend; [|done].
  destruct (ReBAC.hasPermissionThroughRelationship e "friend" "read_limited")
    eqn:Hgrants; [|done].
  intros [= <-]. split; [done|]. split; [done|]. split; [done|]. split; [done|].
  apply FindRelationshipPath_walk in Hfind
    as (hops & Hpath & Hlast & Hlength & Hwalk).
  exists hops. split; [done|]. split; [done|]. split; [|done].
  simpl in Hlength. lia.
Qed.

(** The branch by which a call of [Enforce] allows, and the path that the
    branch gives. *)
Lemma Enforce_body_branches
    (enforce : string -> string -> string
               -> option (bool * string * option domain.error))
    (e : ReBAC.ReBACEnforcerImpl R) (subject object action path : string)
    (err : option domain.error) :
  ReBAC.Enforce_body enforce e subject object action = Some (true, path, err) ->
  let permission := ReBAC.mapActionToPermission action in
  (Invariants.direct_path e subject object permission path
   /\ Spec.arrow_path (ReBAC.relationships e) subject object path)
  \/ (~ Invariants.direct_rule e subject object permission
      /\ Invariants.group_path e subject object permission path
      /\ Spec.arrow_path (ReBAC.relationships e) subject object path)
  \/ (~ Invariants.direct_rule e subject object permission
      /\ ~ Invariants.group_rule e subject object permission
      /\ Invariants.parent_path enforce e subject object permission path)
  \/ (~ Invariants.direct_rule e subject object permission
      /\ ~ Invariants.group_rule e subject object permission
      /\ ~ Invariants.parent_rule enforce e subject object permission
      /\ Invariants.social_path e subject object permission path
      /\ Spec.arrow_path (ReBAC.relationships e) subject object path).
Proof.
  intros Hallowed permission. revert Hallowed.
  unfold ReBAC.Enforce_body. fold permission.
  pose proof (find_direct e subject object permission) as Hdirect.
  destruct (List.find _ _) as [rel|] eqn:Hfind.
  { intros [= <- _]. left. split.
    - apply find_some in Hfind as [Hin Hgrants]. exists rel.
      split; [by apply list_elem_of_In|done].
    - eapply direct_arrow_path; [apply arrow_path_self|exact Hfind]. }
  assert (~ Invariants.direct_rule e subject object permission) as Hno_direct.
  { intros Hrule. by apply Hdirect in Hrule as [? ?]. }
  pose proof (checkGroupAccess_decides e subject object permission) as Hgroup.
  destruct (ReBAC.checkGroupAccess e subject object permission)
    as [groupAccess groupPath] eqn:Hgroup_call.
  simpl in Hgroup. destruct groupAccess.
  { intros [= <- _]. right. left. split; [done|]. split.
    - by apply checkGroupAccess_explained.
    - by apply checkGroupAccess_found with (permission := permission). }
  assert (~ Invariants.group_rule e subject object permission) as Hno_group.
  { intros Hrule. by apply Hgroup in Hrule. }
  unfold ReBAC.checkHierarchicalAccess.
  destruct (ReBAC.checkHierarchicalAccess_keys _ _ _ _ _)
    as [[hierarchicalAccess hierarchicalPath]|] eqn:Hkeys; [|done].
  pose proof (checkHierarchicalAccess_keys_decides _ _ _ _ _ _ Hkeys) as Hparent.
  simpl in Hparent. destruct hierarchicalAccess.
  { intros [= <- _]. right. right. left. split; [done|]. split; [done|].
    by apply checkHierarchicalAccess_keys_explained. }
  assert (~ Invariants.parent_rule enforce e subject object permission)
    as Hno_parent.
  { intros Hrule. by apply Hparent in Hrule. }
  destruct (String.eqb_spec permission "read") as [Hread|Hread]; simpl.
  { destruct (ReBAC.checkSocialAccess e subject object 3)
      as [socialAccess socialPath] eqn:Hsocial.
    destruct socialAccess; [|done].
    intros [= <- _]. right. right. right.
    split; [done|]. split; [done|]. split; [done|]. split.
    - apply checkSocialAccess_explained; [by left|done].
    - by apply checkSocialAccess_found with (maxDepth := 3). }
  destruct (String.eqb_spec permission "read_limited") as [Hlimited|Hlimited];
    simpl; [|done].
  destruct (ReBAC.checkSocialAccess e subject object 3)
    as [socialAccess socialPath] eqn:Hsocial.
  destruct socialAccess; [|done].
  intros [= <- _]. right. right. right.
  split; [done|]. split; [done|]. split; [done|]. split.
  - apply checkSocialAccess_explained; [by right|done].
  - by apply checkSocialAccess_found with (maxDepth := 3).
Qed.

Lemma Enforce_explained (fuel : nat) (e : ReBAC.ReBACEnforcerImpl R) :
  forall (subject object action path : string) (err : option domain.error),
    ReBAC.Enforce fuel e subject object action = Some (true, path, err) ->
    Invariants.explanation e subject action object path.
Proof.
  induction fuel as [|fuel IH]; intros subject object action path err; [done|].
  rewrite Enforce_S. intros Hallowed.
  apply Enforce_body_branches in Hallowed.
  destruct Hallowed
    as [[(rel & Hin & Hgrants & ->) _]
       |[(_ & (groups & groupRel & rel & Hlookup & Hgroup & Hin & Hgrants & ->) & _)
        |[(_ & _ & (key & rels & rel & parentPath & err' & Hentry & Hlen
                    & Hparent & Hrel & Hobject & Hcall & ->))
         |(_ & _ & _ & (Hpermission & _ & Hfriend & Hgrants
                        & hops & -> & Hlast & Hlength & Hwalk) & _)]]].
  - by apply Invariants.explanation_direct.
  - by eapply Invariants.explanation_group.
  - apply (Invariants.explanation_parent e subject action object key rels rel);
      try done.
    by apply (IH _ _ _ _ err').
  - by apply Invariants.explanation_social.
Qed.

Lemma explanation_begins (e : ReBAC.ReBACEnforcerImpl R)
    (subject action object path : string) :
  Invariants.explanation e subject action object path ->
  exists rest, path = subject +:+ rest.
Proof.
  induction 1 as [| | ? ? ? ? ? ? ? ? ? ? ? ? ? [rest ->] |];
    try apply render_begins.
  eexists. by rewrite string_app_assoc.
Qed.

Lemma explanation_ends (e : ReBAC.ReBACEnforcerImpl R)
    (subject action object path : string) :
  Invariants.explanation e subject action object path ->
  exists front, path = front +:+ object.
Proof.
  destruct 1 as [subject action object rel
                |subject action object groups groupRel rel
                |subject action object key rels rel parentPath
                |subject action object hops ? ? ? Hlast].
  - apply (render_ends subject [(domain.Relationship_ rel, object)]).
  - apply (render_ends subject [("member", domain.Object groupRel);
                                (domain.Relationship_ rel, object)]).
  - exists (parentPath +:+ " -> " +:+ nth 0 (strings.Split key ":") ""
              +:+ " -[parent]-> ").
    by rewrite !string_app_assoc.
  - rewrite <- Hlast. apply render_ends.
Qed.

(** C7 (as amended).  A path returned with true begins with the subject
    and ends with the object, and its shape follows the check that
    allowed the request.  A direct edge that grants the permission gives
    the subject, one arrow segment [ -[rel]-> ] and the object.  Without
    such an edge, a group of the subject that has one gives
    [subject -[member]-> group -[rel]-> object].  Without either, an edge
    to the object under a key ["p:parent"] for which the nested call of
    [Enforce] allows the permission on [p] gives the path of that call
    followed by [ -> p -[parent]-> object].  Without any of these, for
    "read" and "read_limited", the path is the one that
    [FindRelationshipPath] finds: the subject followed by at most three
    arrow segments along forward edges, with "friend" in it.  In the
    direct, group and social cases the path is a sequence of names of the
    cache separated by arrow segments; through nested calls, every
    returned path is an [Invariants.explanation]. *)
Theorem C7_path_begins_ends_and_shape (fuel : nat)
    (e : ReBAC.ReBACEnforcerImpl R) (subject object action path : string)
    (err : option domain.error)
    (Hallowed : ReBAC.Enforce (S fuel) e subject object action
                = Some (true, path, err)) :
  let permission := ReBAC.mapActionToPermission action in
  (exists rest, path = subject +:+ rest)
  /\ (exists front, path = front +:+ object)
  /\ Invariants.explanation e subject action object path
  /\ ((Invariants.direct_path e subject object permission path
       /\ Spec.arrow_path (ReBAC.relationships e) subject object path)
      \/ (~ Invariants.direct_rule e subject object permission
          /\ Invariants.group_path e subject object permission path
          /\ Spec.arrow_path (ReBAC.relationships e) subject object path)
      \/ (~ Invariants.direct_rule e subject object permission
          /\ ~ Invariants.group_rule e subject object permission
          /\ Invariants.parent_path (ReBAC.Enforce fuel e) e subject object
               permission path)
      \/ (~ Invariants.direct_rule e subject object permission
          /\ ~ Invariants.group_rule e subject object permission
          /\ ~ Invariants.parent_rule (ReBAC.Enforce fuel e) e subject object
                 permission
          /\ Invariants.social_path e subject object permission path
          /\ Spec.arrow_path (ReBAC.relationships e) subject object path)).
Proof.
  intros permission.
  pose proof (Enforce_explained _ _ _ _ _ _ _ Hallowed) as Hexplained.
  split; [by eapply explanation_begins|].
  split; [by eapply explanation_ends|].
  split; [done|].
  rewrite Enforce_S in Hallowed. by apply Enforce_body_branches in Hallowed.
Qed.

End ReBAC_paths.

(** Witness of C7 on scenario S4: the group path of alice to the source
    code. *)
Lemma C7_witness_scenario_S4 :
  let e := fixtures.graph_team in
  let path := "alice -[member]-> eng_team -[group_access]-> source_code" in
  let permission := ReBAC.mapActionToPermission "read" in
  (exists rest, path = "alice" +:+ rest)
  /\ (exists front, path = front +:+ "source_code")
  /\ Invariants.explanation e "alice" "read" "source_code" path
  /\ ((Invariants.direct_path e "alice" "source_code" permission path
       /\ Spec.arrow_path (ReBAC.relationships e) "alice" "source_code" path)
      \/ (~ Invariants.direct_rule e "alice" "source_code" permission
          /\ Invariants.group_path e "alice" "source_code" permission path
          /\ Spec.arrow_path (ReBAC.relationships e) "alice" "source_code" path)
      \/ (~ Invariants.direct_rule e "alice" "source_code" permission
          /\ ~ Invariants.group_rule e "alice" "source_code" permission
          /\ Invariants.parent_path (ReBAC.Enforce 0 e) e "alice" "source_code"
               permission path)
      \/ (~ Invariants.direct_rule e "alice" "source_code" permission
          /\ ~ Invariants.group_rule e "alice" "source_code" permission
          /\ ~ Invariants.parent_rule (ReBAC.Enforce 0 e) e "alice" "source_code"
                 permission
          /\ Invariants.social_path e "alice" "source_code" permission path
          /\ Spec.arrow_path (ReBAC.relationships e) "alice" "source_code" path)).
Proof.
  refine (C7_path_begins_ends_and_shape 0 fixtures.graph_team
            "alice" "source_code" "read"
            "alice -[member]-> eng_team -[group_access]-> source_code" None _).
  vm_compute. reflexivity.
Defined.

Lemma Count_render (subject : string) (hops : list (string * string))
    (c : ascii) :
  Forall (fun hop => strings.Count (fst hop) c = 0%nat
                     /\ strings.Count (snd hop) c = 0%nat) hops ->
  strings.Count (Spec.render subject hops) c
  = (strings.Count subject c + length hops * strings.Count " -[]-> " c)%nat.
Proof.
  intros Hhops. revert subject.
  induction Hhops as [|[rel node] hops [Hrel Hnode] _ IH]; intros subject.
  - simpl. lia.
  - unfold Spec.render in *. simpl fold_left. rewrite IH.
    unfold ReBAC.arrow. rewrite !Count_app. simpl in Hrel, Hnode.
    rewrite Hrel, Hnode.
    change (strings.Count " -[]-> " c)
      with (strings.Count (" -[" +:+ "]-> ") c).
    rewrite Count_app. simpl length. lia.
Qed.

(** C7 as stated fails in the hierarchical branch.  In
    [fixtures.graph_folder] alice owns the folder and the folder is the
    parent of doc.  The path returned for (alice, doc, read) repeats the
    folder after a bare [ -> ]: it has three arrows and two labels, so it
    is not a sequence of nodes separated by [ -[rel]-> ] segments. *)
Lemma C7_counterexample_hierarchical_path :
  ReBAC.Enforce 2 fixtures.graph_folder "alice" "doc" "read"
  = Some (true, "alice -[owner]-> folder -> folder -[parent]-> doc", None)
  /\ ~ Spec.arrow_path (ReBAC.relationships fixtures.graph_folder)
         "alice" "doc" "alice -[owner]-> folder -> folder -[parent]-> doc".
Proof.
  split; [vm_compute; reflexivity|].
  intros (hops & Hnamed & Hpath & _).
  assert (Hclean : forall c, c = ">"%char \/ c = "["%char ->
            Forall (fun hop => strings.Count (fst hop) c = 0%nat
                               /\ strings.Count (snd hop) c = 0%nat) hops).
  { intros c Hc. eapply Forall_impl; [exact Hnamed|].
    intros [rel node] [Hrel Hnode]. simpl in *.
    assert (Hnames : Forall (fun name => strings.Count name c = 0%nat)
              (Spec.names (ReBAC.relationships fixtures.graph_folder))).
    { destruct Hc as [-> | ->]; vm_compute; repeat constructor. }
    rewrite Forall_forall in Hnames. auto. }
  pose proof (Count_render "alice" hops ">" (Hclean _ (or_introl eq_refl)))
    as Harrows.
  pose proof (Count_render "alice" hops "[" (Hclean _ (or_intror eq_refl)))
    as Hlabels.
  rewrite <- Hpath in Harrows, Hlabels.
  vm_compute in Harrows, Hlabels. lia.
Qed.

(** ** Write-through: a failed repository write *)

Section Write_through.
Context {P A R : Type}.
Context {policy_repository : ABAC.ABACPolicyRepository P}.
Context {attribute_repository : ABAC.AttributeRepository A}.
Context {rebac_repository : ReBAC.ReBACRepository R}.

Lemma cached_unchanged (e e' : ABAC.ABACHandlerImpl P A)
    (h h' : gmap ABAC.loc domain.ABACPolicy) (policy : ABAC.loc) :
  ABAC.policies e' = ABAC.policies e ->
  (forall l, l <> policy -> h' !!! l = h !!! l) ->
  policy ∉ map snd (ABAC.policies e) ->
  ABAC.cached e' h' = ABAC.cached e h.
Proof.
  intros Hpolicies Hheap Hfresh. unfold ABAC.cached. rewrite Hpolicies.
  apply map_ext_in. intros [id pointer] Hin. simpl. rewrite Hheap; [done|].
  intros ->. apply Hfresh, list_elem_of_In, in_map_iff.
  by exists (id, policy).
Qed.

Lemma AddPolicy_failed_write (e : ABAC.ABACHandlerImpl P A)
    (h : gmap ABAC.loc domain.ABACPolicy) (now1 now2 : domain.Time)
    (policy : ABAC.loc) :
  is_Some (snd (ABAC.repo_AddPolicy (ABAC.policyRepo e)
                  (domain.set_UpdatedAt
                     (domain.set_CreatedAt (h !!! policy) now1) now2))) ->
  is_Some (fst (fst (ABAC.AddPolicy e h now1 now2 policy)))
  /\ ABAC.policies (snd (fst (ABAC.AddPolicy e h now1 now2 policy)))
     = ABAC.policies e
  /\ forall l, l <> policy ->
       snd (ABAC.AddPolicy e h now1 now2 policy) !!! l = h !!! l.
Proof.
  unfold ABAC.AddPolicy. intros Hfail.
  destruct (domain.Validate _); [by eauto|].
  destruct (GoMap.lookup _ _); [by eauto|].
  rewrite !lookup_total_insert_eq.
  destruct (ABAC.repo_AddPolicy _ _) as [[repo written] [err|]]; simpl in *.
  - split; [by eauto|]. split; [done|].
    intros other Hother. by rewrite !lookup_total_insert_ne.
  - by destruct Hfail.
Qed.

Lemma UpdatePolicy_failed_write (e : ABAC.ABACHandlerImpl P A)
    (h : gmap ABAC.loc domain.ABACPolicy) (now : domain.Time)
    (policy : ABAC.loc) :
  is_Some (snd (ABAC.repo_UpdatePolicy (ABAC.policyRepo e)
                  (domain.set_UpdatedAt (h !!! policy) now))) ->
  is_Some (fst (fst (ABAC.UpdatePolicy e h now policy)))
  /\ ABAC.policies (snd (fst (ABAC.UpdatePolicy e h now policy)))
     = ABAC.policies e
  /\ forall l, l <> policy ->
       snd (ABAC.UpdatePolicy e h now policy) !!! l = h !!! l.
Proof.
  unfold ABAC.UpdatePolicy. intros Hfail.
  destruct (domain.Validate _); [by eauto|].
  destruct (GoMap.lookup _ _); [|by eauto].
  rewrite !lookup_total_insert_eq.
  destruct (ABAC.repo_UpdatePolicy _ _) as [[repo written] [err|]]; simpl in *.
  - split; [by eauto|]. split; [done|].
    intros other Hother. by rewrite !lookup_total_insert_ne.
  - by destruct Hfail.
Qed.

(** C9 (as amended).  When the repository write of a mutating operation
    fails, the operation returns an error and the cache map holds the
    entries it held before: the same ids with the same policy pointers,
    the same keys with the same edges.  [AddPolicy] and [UpdatePolicy]
    have by then written the time stamps into the policy they were
    given, and into no other; the contents of the cache are therefore
    unchanged when that policy is not one the cache holds. *)
Theorem C9_failed_write_keeps_cache_entries :
  (forall (e : ABAC.ABACHandlerImpl P A) (h : gmap ABAC.loc domain.ABACPolicy)
     (now1 now2 : domain.Time) (policy : ABAC.loc),
      is_Some (snd (ABAC.repo_AddPolicy (ABAC.policyRepo e)
                      (domain.set_UpdatedAt
                         (domain.set_CreatedAt (h !!! policy) now1) now2))) ->
      is_Some (fst (fst (ABAC.AddPolicy e h now1 now2 policy)))
      /\ ABAC.policies (snd (fst (ABAC.AddPolicy e h now1 now2 policy)))
         = ABAC.policies e
      /\ (forall l, l <> policy ->
            snd (ABAC.AddPolicy e h now1 now2 policy) !!! l = h !!! l)
      /\ (policy ∉ map snd (ABAC.policies e) ->
          ABAC.cached (snd (fst (ABAC.AddPolicy e h now1 now2 policy)))
            (snd (ABAC.AddPolicy e h now1 now2 policy))
          = ABAC.cached e h))
  /\ (forall (e : ABAC.ABACHandlerImpl P A) (h : gmap ABAC.loc domain.ABACPolicy)
        (now : domain.Time) (policy : ABAC.loc),
         is_Some (snd (ABAC.repo_UpdatePolicy (ABAC.policyRepo e)
                         (domain.set_UpdatedAt (h !!! policy) now))) ->
         is_Some (fst (fst (ABAC.UpdatePolicy e h now policy)))
         /\ ABAC.policies (snd (fst (ABAC.UpdatePolicy e h now policy)))
            = ABAC.policies e
         /\ (forall l, l <> policy ->
               snd (ABAC.UpdatePolicy e h now policy) !!! l = h !!! l)
         /\ (policy ∉ map snd (ABAC.policies e) ->
             ABAC.cached (snd (fst (ABAC.UpdatePolicy e h now policy)))
               (snd (ABAC.UpdatePolicy e h now policy))
             = ABAC.cached e h))
  /\ (forall (e : ABAC.ABACHandlerImpl P A) (policyID : string),
         is_Some (snd (ABAC.repo_RemovePolicy (ABAC.policyRepo e) policyID)) ->
         is_Some (fst (ABAC.RemovePolicy e policyID))
         /\ ABAC.policies (snd (ABAC.RemovePolicy e policyID)) = ABAC.policies e)
  /\ (forall (g : ReBAC.ReBACEnforcerImpl R) (subject relationship object : string),
         is_Some (snd (ReBAC.repo_AddRelationship (ReBAC.repo g)
                         subject relationship object)) ->
         is_Some (fst (ReBAC.AddRelationship g subject relationship object))
         /\ ReBAC.relationships
              (snd (ReBAC.AddRelationship g subject relationship object))
            = ReBAC.relationships g)
  /\ (forall (g : ReBAC.ReBACEnforcerImpl R) (subject relationship object : string),
         is_Some (snd (ReBAC.repo_RemoveRelationship (ReBAC.repo g)
                         subject relationship object)) ->
         is_Some (fst (ReBAC.RemoveRelationship g subject relationship object))
         /\ ReBAC.relationships
              (snd (ReBAC.RemoveRelationship g subject relationship object))
            = ReBAC.relationships g).
Proof.
  split; [|split; [|split; [|split]]].
  - intros e h now1 now2 policy Hfail.
    destruct (AddPolicy_failed_write e h now1 now2 policy Hfail)
      as (Herr & Hpolicies & Hheap).
    repeat split; [done..|]. by apply cached_unchanged.
  - intros e h now policy Hfail.
    destruct (UpdatePolicy_failed_write e h now policy Hfail)
      as (Herr & Hpolicies & Hheap).
    repeat split; [done..|]. by apply cached_unchanged.
  - intros e policyID Hfail. unfold ABAC.RemovePolicy.
    destruct (GoMap.lookup _ _); [|by eauto].
    destruct (ABAC.repo_RemovePolicy _ _) as [repo [err|]]; simpl in *;
      [by eauto|by destruct Hfail].
  - intros g subject relationship object Hfail. unfold ReBAC.AddRelationship.
    destruct (ReBAC.repo_AddRelationship _ _ _ _) as [repo [err|]]; simpl in *;
      [by eauto|by destruct Hfail].
  - intros g subject relationship object Hfail. unfold ReBAC.RemoveRelationship.
    destruct (ReBAC.repo_RemoveRelationship _ _ _ _) as [repo [err|]];
      simpl in *; [by eauto|by destruct Hfail].
Qed.

End Write_through.

(** Witness of C9: the five operations against repositories that are
    down.  The policy given to [AddPolicy] has an ID that is not cached,
    the policy given to [UpdatePolicy] is a new object with the cached ID
    "P1": both calls get as far as the repository, and the error that
    [UpdatePolicy] returns is the one of the repository. *)
Lemma C9_witness_repository_down :
  ABAC.cached
    (snd (fst (ABAC.AddPolicy fixtures.abac_down fixtures.heap_new 200 201 2%nat)))
    (snd (ABAC.AddPolicy fixtures.abac_down fixtures.heap_new 200 201 2%nat))
  = ABAC.cached fixtures.abac_down fixtures.heap_new
  /\ (ABAC.cached
        (snd (fst (ABAC.UpdatePolicy fixtures.abac_down fixtures.heap_update
                     200 2%nat)))
        (snd (ABAC.UpdatePolicy fixtures.abac_down fixtures.heap_update 200 2%nat))
      = ABAC.cached fixtures.abac_down fixtures.heap_update
      /\ fst (fst (ABAC.UpdatePolicy fixtures.abac_down fixtures.heap_update
                     200 2%nat))
         = Some (domain.Wrapf "failed to update policy in repository"
                   fixtures.outage))
  /\ ABAC.policies (snd (ABAC.RemovePolicy fixtures.abac_down "P1"))
     = ABAC.policies fixtures.abac_down
  /\ ReBAC.relationships
       (snd (ReBAC.AddRelationship fixtures.graph_down "bob" "viewer" "doc"))
     = ReBAC.relationships fixtures.graph_down
  /\ ReBAC.relationships
       (snd (ReBAC.RemoveRelationship fixtures.graph_down
               "alice" "member" "eng_team"))
     = ReBAC.relationships fixtures.graph_down.
Proof.
  pose proof (C9_failed_write_keeps_cache_entries
                (P := bool)
                (A := gmap string (gmap string string)
                      * gmap string (gmap string string))
                (R := bool))
    as (Hadd & Hupdate & Hremove & Hrelate & Hunrelate).
  split; [|split; [|split; [|split]]].
  - apply Hadd; [by eexists|]. vm_compute. intros Hin.
    repeat (apply elem_of_cons in Hin as [Hin|Hin]; [discriminate|]).
    by apply elem_of_nil in Hin.
  - split; [|vm_compute; reflexivity].
    apply Hupdate; [by eexists|]. vm_compute. intros Hin.
    repeat (apply elem_of_cons in Hin as [Hin|Hin]; [discriminate|]).
    by apply elem_of_nil in Hin.
  - apply Hremove. by eexists.
  - apply Hrelate. by eexists.
  - apply Hunrelate. by eexists.
Defined.

(** C9 as stated fails when the policy given to [UpdatePolicy] is the one
    the cache holds, as it is for a caller that got it from
    [GetPolicyByID]: the time stamp is written through the pointer before
    the repository is asked, and stays although the write failed. *)
Lemma C9_counterexample_update_of_cached_policy :
  ABAC.GetPolicyByID fixtures.abac_down "P1" = (Some 0%nat, None)
  /\ fst (fst (ABAC.UpdatePolicy fixtures.abac_down fixtures.heap_s3 200 0%nat))
     = Some (domain.Wrapf "failed to update policy in repository"
               fixtures.outage)
  /\ ABAC.cached
       (snd (fst (ABAC.UpdatePolicy fixtures.abac_down fixtures.heap_s3 200 0%nat)))
       (snd (ABAC.UpdatePolicy fixtures.abac_down fixtures.heap_s3 200 0%nat))
     <> ABAC.cached fixtures.abac_down fixtures.heap_s3
  /\ domain.UpdatedAt
       (snd (ABAC.UpdatePolicy fixtures.abac_down fixtures.heap_s3 200 0%nat)
          !!! 0%nat) = 200
  /\ domain.UpdatedAt (fixtures.heap_s3 !!! 0%nat) = 100.
Proof.
  split; [reflexivity|]. split; [vm_compute; reflexivity|].
  split; [|split; vm_compute; reflexivity].
  vm_compute. discriminate.
Qed.

(** ** ReBAC: what the fuel of [Enforce] means *)

Section ReBAC_fuel.
Context {R : Type} {repository : ReBAC.ReBACRepository R}.

Lemma checkHierarchicalAccess_rels_mono
    (enforce enforce' : string -> string -> string
                        -> option (bool * string * option domain.error))
    (subject object permission parentObject : string)
    (rels : list domain.Relationship) (result : option string) :
  (forall s o a r, enforce s o a = Some r -> enforce' s o a = Some r) ->
  ReBAC.checkHierarchicalAccess_rels enforce subject object permission
    parentObject rels = Some result ->
  ReBAC.checkHierarchicalAccess_rels enforce' subject object permission
    parentObject rels = Some result.
Proof.
  intros Hle. induction rels as [|rel rels IH]; simpl; [done|].
  destruct (String.eqb _ _); [|exact IH].
  destruct (enforce subject parentObject permission) as [r|] eqn:Hcall; [|done].
  rewrite (Hle _ _ _ _ Hcall). destruct r as [[[] ?] ?]; [done|exact IH].
Qed.

Lemma checkHierarchicalAccess_keys_mono
    (enforce enforce' : string -> string -> string
                        -> option (bool * string * option domain.error))
    (subject object permission : string)
    (entries : GoMap.t (list domain.Relationship)) (result : bool * string) :
  (forall s o a r, enforce s o a = Some r -> enforce' s o a = Some r) ->
  ReBAC.checkHierarchicalAccess_keys enforce subject object permission entries
  = Some result ->
  ReBAC.checkHierarchicalAccess_keys enforce' subject object permission entries
  = Some result.
Proof.
  intros Hle. induction entries as [|[key rels] entries IH]; simpl; [done|].
  destruct (_ || _); [exact IH|].
  destruct (ReBAC.checkHierarchicalAccess_rels enforce _ _ _ _ _)
    as [r|] eqn:Hrels; [|done].
  rewrite (checkHierarchicalAccess_rels_mono _ _ _ _ _ _ _ _ Hle Hrels).
  destruct r; [done|exact IH].
Qed.

Lemma Enforce_body_mono
    (enforce enforce' : string -> string -> string
                        -> option (bool * string * option domain.error))
    (e : ReBAC.ReBACEnforcerImpl R) (subject object action : string)
    (result : bool * string * option domain.error) :
  (forall s o a r, enforce s o a = Some r -> enforce' s o a = Some r) ->
  ReBAC.Enforce_body enforce e subject object action = Some result ->
  ReBAC.Enforce_body enforce' e subject object action = Some result.
Proof.
  intros Hle. unfold ReBAC.Enforce_body, ReBAC.checkHierarchicalAccess.
  destruct (List.find _ _); [done|].
  destruct (ReBAC.checkGroupAccess _ _ _ _) as [[] ?]; [done|].
  destruct (ReBAC.checkHierarchicalAccess_keys enforce _ _ _ _)
    as [r|] eqn:Hkeys; [|done].
  by rewrite (checkHierarchicalAccess_keys_mono _ _ _ _ _ _ _ Hle Hkeys).
Qed.

(** A call that returns within some nesting depth returns the same with
    any deeper one: the result of a run does not depend on the fuel. *)
Lemma Enforce_fuel_mono (e : ReBAC.ReBACEnforcerImpl R) (fuel extra : nat) :
  forall (subject object action : string)
         (result : bool * string * option domain.error),
    ReBAC.Enforce fuel e subject object action = Some result ->
    ReBAC.Enforce (fuel + extra) e subject object action = Some result.
Proof.
  induction fuel as [|fuel IH]; intros subject object action result; [done|].
  change (S fuel + extra)%nat with (S (fuel + extra)). rewrite !Enforce_S.
  apply Enforce_body_mono. exact IH.
Qed.

(** Without a ["x:parent"] key in the cache there is no nested call, and
    [Enforce] returns. *)
Lemma Enforce_returns_without_parents (e : ReBAC.ReBACEnforcerImpl R)
    (fuel : nat) (subject object action : string) :
  Forall (fun entry : string * list domain.Relationship =>
            nth 1 (strings.Split (fst entry) ":") "" <> "parent")
         (ReBAC.relationships e) ->
  is_Some (ReBAC.Enforce (S fuel) e subject object action).
Proof.
  intros Hparents. rewrite Enforce_S.
  unfold ReBAC.Enforce_body, ReBAC.checkHierarchicalAccess.
  destruct (List.find _ _); [by eexists|].
  destruct (ReBAC.checkGroupAccess _ _ _ _) as [[] ?]; [by eexists|].
  assert (ReBAC.checkHierarchicalAccess_keys (ReBAC.Enforce fuel e) subject
            object (ReBAC.mapActionToPermission action) (ReBAC.relationships e)
          = Some (false, "")) as ->.
  { induction Hparents as [|[key rels] entries Hkey _ IH]; simpl; [done|].
    simpl in Hkey. apply String.eqb_neq in Hkey. rewrite Hkey.
    by rewrite orb_true_r. }
  destruct (_ || _); [|by eexists].
  destruct (ReBAC.checkSocialAccess _ _ _ _) as [[] ?]; by eexists.
Qed.

End ReBAC_fuel.

(** The cycle of [fixtures.graph_cycle] in every order in which [range]
    may visit the cache. *)
Lemma cycle_bodies_any_order :
  Forall
    (fun m : GoMap.t (list domain.Relationship) =>
       forall enforce : string -> string -> string
                        -> option (bool * string * option domain.error),
         (enforce "u" "b" "write" = None ->
          ReBAC.Enforce_body enforce
            (ReBAC.with_relationships fixtures.graph_cycle m) "u" "a" "write"
          = None)
         /\ (enforce "u" "a" "write" = None ->
             ReBAC.Enforce_body enforce
               (ReBAC.with_relationships fixtures.graph_cycle m) "u" "b" "write"
             = None))
    (permutations (ReBAC.relationships fixtures.graph_cycle)).
Proof.
  remember (permutations (ReBAC.relationships fixtures.graph_cycle))
    as orders eqn:Horders.
  vm_compute in Horders. subst orders.
  repeat (constructor;
          [intros enforce; split; intros H; vm_compute; by rewrite H|]).
  constructor.
Qed.

Lemma cycle_never_returns_any_order (m : GoMap.t (list domain.Relationship))
    (fuel : nat) :
  Permutation m (ReBAC.relationships fixtures.graph_cycle) ->
  ReBAC.Enforce fuel (ReBAC.with_relationships fixtures.graph_cycle m)
    "u" "a" "write" = None.
Proof.
  intros Hm. symmetry in Hm. apply permutations_Permutation in Hm.
  pose proof cycle_bodies_any_order as Hall.
  rewrite Forall_forall in Hall. specialize (Hall m Hm).
  enough (ReBAC.Enforce fuel (ReBAC.with_relationships fixtures.graph_cycle m)
            "u" "a" "write" = None
          /\ ReBAC.Enforce fuel (ReBAC.with_relationships fixtures.graph_cycle m)
               "u" "b" "write" = None) as [Ha _] by exact Ha.
  induction fuel as [|fuel [IHa IHb]]; [done|].
  rewrite !Enforce_S. destruct (Hall (ReBAC.Enforce fuel
    (ReBAC.with_relationships fixtures.graph_cycle m))) as [Ha Hb].
  split; [by apply Ha|by apply Hb].
Qed.


(* ================================================================== *)
(** * Part III: further properties of the engines                      *)
(* ================================================================== *)

(** *** Go maps *)

Lemma lookup_store_eq {V : Type} (m : GoMap.t V) (k : string) (v : V) :
  GoMap.lookup (GoMap.store m k v) k = Some v.
Proof.
  induction m as [|[k' v'] m IH]; simpl.
  - by rewrite String.eqb_refl.
  - destruct (String.eqb_spec k' k) as [->|Hne]; simpl.
    + by rewrite String.eqb_refl.
    + apply String.eqb_neq in Hne. by rewrite Hne.
Qed.

Lemma lookup_store_ne {V : Type} (m : GoMap.t V) (k k' : string) (v : V) :
  k' <> k -> GoMap.lookup (GoMap.store m k v) k' = GoMap.lookup m k'.
Proof.
  intros Hne. induction m as [|[k0 v0] m IH]; simpl.
  - destruct (String.eqb_spec k k'); congruence.
  - destruct (String.eqb_spec k0 k) as [->|Hne0]; simpl.
    + destruct (String.eqb_spec k k'); congruence.
    + destruct (String.eqb_spec k0 k'); congruence.
Qed.

Lemma lookup_delete_eq {V : Type} (m : GoMap.t V) (k : string) :
  GoMap.lookup (GoMap.delete m k) k = None.
Proof.
  induction m as [|[k' v'] m IH]; simpl; [done|].
  destruct (String.eqb_spec k' k) as [->|Hne]; simpl; [done|].
  apply String.eqb_neq in Hne. by rewrite Hne.
Qed.

Lemma lookup_delete_ne {V : Type} (m : GoMap.t V) (k k' : string) :
  k' <> k -> GoMap.lookup (GoMap.delete m k) k' = GoMap.lookup m k'.
Proof.
  intros Hne. induction m as [|[k0 v0] m IH]; simpl; [done|].
  destruct (String.eqb_spec k0 k) as [->|Hne0]; simpl.
  - destruct (String.eqb_spec k k'); congruence.
  - destruct (String.eqb_spec k0 k'); congruence.
Qed.

Lemma delete_absent {V : Type} (m : GoMap.t V) (k : string) :
  GoMap.lookup m k = None -> GoMap.delete m k = m.
Proof.
  induction m as [|[k' v'] m IH]; simpl; [done|].
  destruct (String.eqb k' k); [done|]. intros H. by rewrite IH.
Qed.

Lemma store_absent {V : Type} (m : GoMap.t V) (k : string) (v : V) :
  GoMap.lookup m k = None -> GoMap.store m k v = m ++ [(k, v)].
Proof.
  induction m as [|[k' v'] m IH]; simpl; [done|].
  destruct (String.eqb k' k); [done|]. intros H. by rewrite IH.
Qed.

Lemma store_present {V : Type} (m : GoMap.t V) (k : string) (v v' : V) :
  GoMap.lookup m k = Some v' -> map fst (GoMap.store m k v) = map fst m.
Proof.
  induction m as [|[k0 v0] m IH]; simpl; [done|].
  destruct (String.eqb_spec k0 k) as [->|Hne]; simpl; [done|].
  intros H. by rewrite IH.
Qed.

Lemma store_same {V : Type} (m : GoMap.t V) (k : string) (v : V) :
  GoMap.lookup m k = Some v -> GoMap.store m k v = m.
Proof.
  induction m as [|[k0 v0] m IH]; simpl; [done|].
  destruct (String.eqb_spec k0 k) as [->|Hne]; simpl.
  - by intros [= ->].
  - intros H. by rewrite IH.
Qed.

Lemma delete_store_absent {V : Type} (m : GoMap.t V) (k : string) (v : V) :
  GoMap.lookup m k = None -> GoMap.delete (GoMap.store m k v) k = m.
Proof.
  induction m as [|[k' v'] m IH]; simpl.
  - by rewrite String.eqb_refl.
  - destruct (String.eqb_spec k' k) as [->|Hne]; [done|].
    intros H. simpl. apply String.eqb_neq in Hne. rewrite Hne. by rewrite IH.
Qed.

(** *** [domain.Validate] *)

Lemma Validate_conditions_None (i : nat) (conds : list domain.PolicyCondition) :
  domain.Validate_conditions i conds = None
  <-> Forall Invariants.well_formed_condition conds.
Proof.
  revert i. induction conds as [|cond rest IH]; intros i; simpl.
  - split; [constructor|done].
  - unfold Invariants.well_formed_condition at 1.
    destruct (String.eqb_spec (domain.Type_ cond) "") as [Ht|Ht]; simpl.
    { split; [done|]. intros H. inversion H; subst. tauto. }
    destruct (String.eqb_spec (domain.Field cond) "") as [Hf|Hf]; simpl.
    { split; [done|]. intros H. inversion H; subst. tauto. }
    destruct (String.eqb_spec (domain.Operator cond) "") as [Ho|Ho]; simpl.
    { split; [done|]. intros H. inversion H; subst. tauto. }
    destruct (String.eqb_spec (domain.Value cond) "") as [Hv|Hv]; simpl.
    { split; [done|]. intros H. inversion H; subst. tauto. }
    destruct (String.eqb_spec (domain.LogicOp cond) "") as [Hl|Hl]; simpl.
    { rewrite IH. split; [intros H; constructor; tauto|].
      intros H. by inversion H. }
    destruct (String.eqb_spec (domain.LogicOp cond) "and") as [Ha|Ha]; simpl.
    { rewrite IH. split; [intros H; constructor; tauto|].
      intros H. by inversion H. }
    destruct (String.eqb_spec (domain.LogicOp cond) "or") as [Hr|Hr]; simpl.
    { rewrite IH. split; [intros H; constructor; tauto|].
      intros H. by inversion H. }
    split; [done|]. intros H. inversion H; subst. tauto.
Qed.

(** X1.  [Validate] accepts a policy exactly when its ID and its name are
    not empty, its effect is "allow" or "deny", and every condition has a
    non-empty type, field, operator and value and a logic operator that is
    empty, "and" or "or". *)
Theorem X1_Validate_accepts_exactly_the_well_formed (p : domain.ABACPolicy) :
  domain.Validate p = None
  <-> domain.ID p <> "" /\ domain.Name p <> ""
      /\ (domain.Effect p = "allow" \/ domain.Effect p = "deny")
      /\ Forall Invariants.well_formed_condition (domain.Conditions p).
Proof.
  unfold domain.Validate.
  destruct (String.eqb_spec (domain.ID p) "") as [Hi|Hi]; [split; [done|tauto]|].
  destruct (String.eqb_spec (domain.Name p) "") as [Hn|Hn]; [split; [done|tauto]|].
  destruct (String.eqb_spec (domain.Effect p) "allow") as [Ha|Ha]; simpl.
  { rewrite Validate_conditions_None. tauto. }
  destruct (String.eqb_spec (domain.Effect p) "deny") as [Hd|Hd]; simpl.
  { rewrite Validate_conditions_None. tauto. }
  split; [done|tauto].
Qed.

(** *** The administrative operations of the ABAC engine *)

Section ABAC_administration.
Context {P A : Type}.
Context {policy_repository : ABAC.ABACPolicyRepository P}.
Context {policy_reader : ABAC.ABACPolicyReader P}.

(** X2.  When [AddPolicy] returns no error, the policy it was given passed
    [Validate] and its ID was not cached; afterwards [GetPolicyByID]
    answers the ID of the written policy with the very pointer that was
    added, and every other ID as before. *)
Theorem X2_AddPolicy_then_GetPolicyByID (e : ABAC.ABACHandlerImpl P A)
    (h : gmap ABAC.loc domain.ABACPolicy) (now1 now2 : domain.Time)
    (policy : ABAC.loc)
    (Hadded : fst (fst (ABAC.AddPolicy e h now1 now2 policy)) = None) :
  let e' := snd (fst (ABAC.AddPolicy e h now1 now2 policy)) in
  let h' := snd (ABAC.AddPolicy e h now1 now2 policy) in
  domain.Validate (h !!! policy) = None
  /\ GoMap.lookup (ABAC.policies e) (domain.ID (h !!! policy)) = None
  /\ ABAC.GetPolicyByID e' (domain.ID (h' !!! policy)) = (Some policy, None)
  /\ forall policyID, policyID <> domain.ID (h' !!! policy) ->
       ABAC.GetPolicyByID e' policyID = ABAC.GetPolicyByID e policyID.
Proof.
  revert Hadded. unfold ABAC.AddPolicy.
  destruct (domain.Validate (h !!! policy)) as [err|]; [done|].
  destruct (GoMap.lookup (ABAC.policies e) (domain.ID (h !!! policy)))
    as [cachedPolicy|] eqn:Hfresh; [done|].
  destruct (ABAC.repo_AddPolicy _ _) as [[repo written] [err|]]; [done|].
  intros _. cbn [fst snd]. unfold ABAC.GetPolicyByID. cbn [ABAC.policies ABAC.with_policies].
  repeat split.
  - by rewrite lookup_store_eq.
  - intros policyID Hne. by rewrite lookup_store_ne.
Qed.

(** X3.  [RemovePolicy] of an ID that is not cached returns [ErrNotFound]
    and leaves the engine as it was, the repository included; when it
    returns no error the ID is no longer found and every other ID is
    answered as before. *)
Theorem X3_RemovePolicy_then_GetPolicyByID (e : ABAC.ABACHandlerImpl P A)
    (policyID : string) :
  (GoMap.lookup (ABAC.policies e) policyID = None ->
   ABAC.RemovePolicy e policyID = (Some domain.ErrNotFound, e))
  /\ (fst (ABAC.RemovePolicy e policyID) = None ->
      ABAC.GetPolicyByID (snd (ABAC.RemovePolicy e policyID)) policyID
      = (None, Some domain.ErrNotFound)
      /\ forall other, other <> policyID ->
           ABAC.GetPolicyByID (snd (ABAC.RemovePolicy e policyID)) other
           = ABAC.GetPolicyByID e other).
Proof.
  unfold ABAC.RemovePolicy. split.
  - by intros ->.
  - destruct (GoMap.lookup (ABAC.policies e) policyID); [|done].
    destruct (ABAC.repo_RemovePolicy _ _) as [repo [err|]]; [done|].
    intros _. unfold ABAC.GetPolicyByID. cbn [fst snd ABAC.policies ABAC.with_policies].
    split.
    + by rewrite lookup_delete_eq.
    + intros other Hne. by rewrite lookup_delete_ne.
Qed.

(** X4.  Adding a policy and then removing it by its ID gives back the
    cache as it was, when the repository has not changed the ID of the
    policy it wrote: every ID is answered as before, and the cache holds
    the entries it held, whatever the order in which they are ranged
    over. *)
Theorem X4_AddPolicy_then_RemovePolicy (e : ABAC.ABACHandlerImpl P A)
    (h : gmap ABAC.loc domain.ABACPolicy) (now1 now2 : domain.Time)
    (policy : ABAC.loc)
    (Hadded : fst (fst (ABAC.AddPolicy e h now1 now2 policy)) = None)
    (Hid : domain.ID (snd (ABAC.AddPolicy e h now1 now2 policy) !!! policy)
           = domain.ID (h !!! policy))
    (Hremoved : fst (ABAC.RemovePolicy
                       (snd (fst (ABAC.AddPolicy e h now1 now2 policy)))
                       (domain.ID (h !!! policy))) = None) :
  (forall policyID,
      ABAC.GetPolicyByID
        (snd (ABAC.RemovePolicy (snd (fst (ABAC.AddPolicy e h now1 now2 policy)))
                (domain.ID (h !!! policy)))) policyID
      = ABAC.GetPolicyByID e policyID)
  /\ Permutation
       (ABAC.policies
          (snd (ABAC.RemovePolicy
                  (snd (fst (ABAC.AddPolicy e h now1 now2 policy)))
                  (domain.ID (h !!! policy)))))
       (ABAC.policies e).
Proof.
  assert (ABAC.policies
            (snd (ABAC.RemovePolicy
                    (snd (fst (ABAC.AddPolicy e h now1 now2 policy)))
                    (domain.ID (h !!! policy))))
          = ABAC.policies e) as Hsame; [|unfold ABAC.GetPolicyByID; by rewrite Hsame].
  revert Hadded Hid Hremoved. unfold ABAC.AddPolicy.
  destruct (domain.Validate (h !!! policy)) as [err|]; [done|].
  destruct (GoMap.lookup (ABAC.policies e) (domain.ID (h !!! policy)))
    as [cachedPolicy|] eqn:Hfresh; [done|].
  destruct (ABAC.repo_AddPolicy _ _) as [[repo written] [err|]]; [done|].
  cbn [fst snd]. intros _ Hid. rewrite Hid. unfold ABAC.RemovePolicy.
  cbn [ABAC.policies ABAC.with_policies ABAC.policyRepo ABAC.with_policyRepo].
  rewrite lookup_store_eq.
  destruct (ABAC.repo_RemovePolicy _ _) as [repo' [err|]]; [done|].
  intros _. cbn [fst snd ABAC.policies ABAC.with_policies].
  by apply delete_store_absent.
Qed.

(** X5.  When [UpdatePolicy] returns no error and the repository has not
    changed the ID of the policy, the cache holds the same IDs as before,
    the ID of the policy now leads to the pointer that was passed in, and
    every other ID is answered as before. *)
Theorem X5_UpdatePolicy_keeps_the_cached_ids (e : ABAC.ABACHandlerImpl P A)
    (h : gmap ABAC.loc domain.ABACPolicy) (now : domain.Time)
    (policy : ABAC.loc)
    (Hupdated : fst (fst (ABAC.UpdatePolicy e h now policy)) = None)
    (Hid : domain.ID (snd (ABAC.UpdatePolicy e h now policy) !!! policy)
           = domain.ID (h !!! policy)) :
  Permutation
    (map fst (ABAC.policies (snd (fst (ABAC.UpdatePolicy e h now policy)))))
    (map fst (ABAC.policies e))
  /\ ABAC.GetPolicyByID (snd (fst (ABAC.UpdatePolicy e h now policy)))
       (domain.ID (h !!! policy)) = (Some policy, None)
  /\ forall other, other <> domain.ID (h !!! policy) ->
       ABAC.GetPolicyByID (snd (fst (ABAC.UpdatePolicy e h now policy))) other
       = ABAC.GetPolicyByID e other.
Proof.
  revert Hupdated Hid. unfold ABAC.UpdatePolicy.
  destruct (domain.Validate (h !!! policy)) as [err|]; [done|].
  destruct (GoMap.lookup (ABAC.policies e) (domain.ID (h !!! policy)))
    as [cachedPolicy|] eqn:Hcached; [|done].
  destruct (ABAC.repo_UpdatePolicy _ _) as [[repo written] [err|]]; [done|].
  cbn [fst snd]. intros _ Hid. rewrite Hid. unfold ABAC.GetPolicyByID.
  cbn [ABAC.policies ABAC.with_policies]. repeat split.
  - erewrite store_present; done.
  - by rewrite lookup_store_eq.
  - intros other Hne. by rewrite lookup_store_ne.
Qed.

Lemma lookup_loaded (h : gmap ABAC.loc domain.ABACPolicy)
    (loaded : list ABAC.loc) (policyID : string) :
  forall m : GoMap.t ABAC.loc,
    GoMap.lookup
      (fold_left
         (fun newPolicies policy =>
            GoMap.store newPolicies (domain.ID (h !!! policy)) policy)
         loaded m) policyID
    = match last (List.filter
                    (fun policy => String.eqb (domain.ID (h !!! policy)) policyID)
                    loaded) with
      | Some policy => Some policy
      | None => GoMap.lookup m policyID
      end.
Proof.
  induction loaded as [|policy rest IH]; intros m; simpl; [done|].
  rewrite IH. destruct (String.eqb_spec (domain.ID (h !!! policy)) policyID) as [<-|Hne].
  - rewrite last_cons. destruct (last _); [done|]. by rewrite lookup_store_eq.
  - destruct (last _); [done|]. by rewrite lookup_store_ne.
Qed.

(** X6.  [LoadPolicies] leaves the cache alone when the repository fails;
    otherwise it replaces the cache, and [GetPolicyByID] then answers an
    ID with the last policy of that ID that the repository returned, and
    with [ErrNotFound] when there is none, whatever was cached before. *)
Theorem X6_LoadPolicies_last_policy_of_an_id_wins (e : ABAC.ABACHandlerImpl P A)
    (h : gmap ABAC.loc domain.ABACPolicy) :
  (forall err, snd (ABAC.repo_GetAllPolicies (ABAC.policyRepo e)) = Some err ->
     ABAC.LoadPolicies e h
     = (Some (domain.Wrapf "failed to load policies from repository" err), e))
  /\ (snd (ABAC.repo_GetAllPolicies (ABAC.policyRepo e)) = None ->
      fst (ABAC.LoadPolicies e h) = None
      /\ forall policyID,
           ABAC.GetPolicyByID (snd (ABAC.LoadPolicies e h)) policyID
           = match last (List.filter
                           (fun policy =>
                              String.eqb (domain.ID (h !!! policy)) policyID)
                           (fst (ABAC.repo_GetAllPolicies (ABAC.policyRepo e)))) with
             | Some policy => (Some policy, None)
             | None => (None, Some domain.ErrNotFound)
             end).
Proof.
  unfold ABAC.LoadPolicies.
  destruct (ABAC.repo_GetAllPolicies (ABAC.policyRepo e)) as [loaded [err|]];
    cbn [fst snd]; split; try done.
  - by intros ? [= ->].
  - intros _. split; [done|]. intros policyID. unfold ABAC.GetPolicyByID.
    cbn [ABAC.policies ABAC.with_policies]. rewrite lookup_loaded.
    by destruct (last _).
Qed.

End ABAC_administration.

Lemma X2_witness_added_policy_is_found :
  ABAC.GetPolicyByID
    (snd (fst (ABAC.AddPolicy fixtures.abac_s3 fixtures.heap_new 200 201 2%nat)))
    "P3"
  = (Some 2%nat, None).
Proof.
  refine (proj1 (proj2 (proj2
            (X2_AddPolicy_then_GetPolicyByID fixtures.abac_s3 fixtures.heap_new
               200 201 2%nat _)))).
  vm_compute. reflexivity.
Defined.

Lemma X4_witness_cache_restored :
  (forall policyID,
      ABAC.GetPolicyByID
        (snd (ABAC.RemovePolicy
                (snd (fst (ABAC.AddPolicy fixtures.abac_s3 fixtures.heap_new
                             200 201 2%nat)))
                "P3")) policyID
      = ABAC.GetPolicyByID fixtures.abac_s3 policyID)
  /\ Permutation
       (ABAC.policies
          (snd (ABAC.RemovePolicy
                  (snd (fst (ABAC.AddPolicy fixtures.abac_s3 fixtures.heap_new
                               200 201 2%nat)))
                  "P3")))
       (ABAC.policies fixtures.abac_s3).
Proof.
  refine (X4_AddPolicy_then_RemovePolicy fixtures.abac_s3 fixtures.heap_new
            200 201 2%nat _ _ _); vm_compute; reflexivity.
Defined.

Lemma X5_witness_update_of_P1 :
  Permutation
    (map fst (ABAC.policies
                (snd (fst (ABAC.UpdatePolicy fixtures.abac_s3 fixtures.heap_s3
                             200 0%nat)))))
    (map fst (ABAC.policies fixtures.abac_s3)).
Proof.
  refine (proj1 (X5_UpdatePolicy_keeps_the_cached_ids fixtures.abac_s3
                   fixtures.heap_s3 200 0%nat _ _)); vm_compute; reflexivity.
Defined.

(** *** The evaluation of the ABAC engine *)

Section ABAC_evaluation.
Context {lib : GoLibrary} {P A : Type}.
Context {policy_repository : ABAC.ABACPolicyRepository P}.
Context {attribute_repository : ABAC.AttributeRepository A}.

(** X7.  In the environment of a request, "time" is the request's "hour"
    if it has one, else the request's "time" if it has one, else the hour
    of the clock; every other attribute is the request's if it has one,
    and otherwise "date" and "day" come from the clock and nothing else is
    defined. *)
Theorem X7_environment_of_a_request (now : ABAC.WallClock)
    (reqAttrs : gmap string string) :
  ABAC.environment now reqAttrs !! "time"
  = Some (default (default (strconv_Itoa (ABAC.Hour now)) (reqAttrs !! "time"))
                  (reqAttrs !! "hour"))
  /\ forall k, k <> "time" ->
       ABAC.environment now reqAttrs !! k
       = match reqAttrs !! k with
         | Some v => Some v
         | None =>
             if String.eqb k "date" then Some (ABAC.Date now)
             else if String.eqb k "day" then Some (ABAC.Weekday now)
             else None
         end.
Proof.
  unfold ABAC.environment. split.
  - destruct (reqAttrs !! "hour") as [hourStr|]; simpl.
    + by rewrite lookup_insert_eq.
    + rewrite lookup_union. destruct (reqAttrs !! "time") as [t|]; simpl.
      * by rewrite lookup_insert_eq.
      * by rewrite lookup_insert_eq.
  - intros k Hk.
    assert ((reqAttrs
             ∪ <["time" := strconv_Itoa (ABAC.Hour now)]>
                 (<["date" := ABAC.Date now]>
                    (<["day" := ABAC.Weekday now]> ∅))) !! k
            = match reqAttrs !! k with
              | Some v => Some v
              | None =>
                  if String.eqb k "date" then Some (ABAC.Date now)
                  else if String.eqb k "day" then Some (ABAC.Weekday now)
                  else None
              end) as Hunion.
    { rewrite lookup_union. rewrite lookup_insert_ne by done.
      destruct (String.eqb_spec k "date") as [->|Hdate].
      { rewrite lookup_insert_eq. by destruct (reqAttrs !! "date"). }
      rewrite lookup_insert_ne by done.
      destruct (String.eqb_spec k "day") as [->|Hday].
      { rewrite lookup_insert_eq. by destruct (reqAttrs !! "day"). }
      rewrite lookup_insert_ne by done. rewrite lookup_empty.
      by destruct (reqAttrs !! k). }
    destruct (reqAttrs !! "hour") as [hourStr|]; [|done].
    by rewrite lookup_insert_ne.
Qed.

(** X8.  The loop of [Enforce] decides by the first policy, in the order
    in which it is given them, that matches the request and whose effect
    is "allow" or "deny": it allows exactly when that effect is "allow",
    and denies when there is no such policy.  A matching policy with any
    other effect is passed over. *)
Theorem X8_first_decisive_policy_decides (h : gmap ABAC.loc domain.ABACPolicy)
    (sortedPolicies : list ABAC.loc) (ctx : ABAC.PolicyEvaluationContext) :
  ABAC.Enforce_loop h sortedPolicies ctx
  = match List.find
            (fun policy =>
               ABAC.evaluatePolicy (h !!! policy) ctx
               && (String.eqb (domain.Effect (h !!! policy)) "allow"
                   || String.eqb (domain.Effect (h !!! policy)) "deny"))
            sortedPolicies with
    | Some policy => String.eqb (domain.Effect (h !!! policy)) "allow"
    | None => false
    end.
Proof.
  induction sortedPolicies as [|policy rest IH]; simpl; [done|].
  destruct (ABAC.evaluatePolicy (h !!! policy) ctx); simpl; [|done].
  destruct (String.eqb (domain.Effect (h !!! policy)) "allow") eqn:Hallow;
    simpl; [done|].
  by destruct (String.eqb (domain.Effect (h !!! policy)) "deny").
Qed.

Lemma descending_order_unique {B : Type} (key : B -> Z) (l1 : list B) :
  forall l2 : list B,
    StronglySorted (fun x y => key y <= key x) l1 ->
    StronglySorted (fun x y => key y <= key x) l2 ->
    Permutation l1 l2 ->
    NoDup (map key l1) ->
    l1 = l2.
Proof.
  induction l1 as [|a l1 IH]; intros l2 Hs1 Hs2 Hperm Hnodup.
  - by apply Permutation_nil in Hperm.
  - destruct l2 as [|b l2].
    { symmetry in Hperm. by apply Permutation_nil in Hperm. }
    apply StronglySorted_inv in Hs1 as [Hs1 Ha].
    apply StronglySorted_inv in Hs2 as [Hs2 Hb].
    rewrite Forall_forall in Ha, Hb.
    apply NoDup_cons in Hnodup as [Hfresh Hnodup].
    assert (a = b) as ->.
    { assert (a ∈ b :: l2) as Hin1 by (rewrite <- Hperm; left).
      assert (b ∈ a :: l1) as Hin2 by (rewrite Hperm; left).
      apply elem_of_cons in Hin1 as [?|Hin1]; [done|].
      apply elem_of_cons in Hin2 as [?|Hin2]; [done|].
      exfalso. apply Hfresh.
      assert (key a = key b) as -> by (pose proof (Ha _ Hin2); pose proof (Hb _ Hin1); lia).
      by apply list_elem_of_fmap_2. }
    f_equal. apply IH; try done. by eapply Permutation_cons_inv.
Qed.

(** X9.  When the cached policies have pairwise different priorities, the
    decision of [Enforce] depends neither on the order in which the cache
    is ranged over nor on what [sort.Slice] does with ties: two engines
    over the same attribute repository whose caches hold the same entries
    decide every request alike. *)
Theorem X9_distinct_priorities_fix_the_decision {spec : GoLibrarySpec lib}
    (e1 e2 : ABAC.ABACHandlerImpl P A) (h : gmap ABAC.loc domain.ABACPolicy)
    (now : ABAC.WallClock) (subject object action : string)
    (reqAttrs : gmap string string)
    (Hattrs : ABAC.attrRepo e1 = ABAC.attrRepo e2)
    (Hsame : Permutation (ABAC.policies e1) (ABAC.policies e2))
    (Hdistinct : NoDup (map (fun policy => domain.Priority (h !!! policy))
                            (map snd (ABAC.policies e1)))) :
  ABAC.sorted_snapshot e1 h = ABAC.sorted_snapshot e2 h
  /\ ABAC.Enforce e1 h now subject object action reqAttrs
     = ABAC.Enforce e2 h now subject object action reqAttrs.
Proof.
  assert (ABAC.sorted_snapshot e1 h = ABAC.sorted_snapshot e2 h) as Hsnapshot.
  { unfold ABAC.sorted_snapshot.
    apply (descending_order_unique (fun policy => domain.Priority (h !!! policy))).
    - eapply StronglySorted_impl;
        [|apply sort_Slice_Sorted, priority_order_StrictWeakOrder].
      intros x y Hxy. simpl in Hxy. lia.
    - eapply StronglySorted_impl;
        [|apply sort_Slice_Sorted, priority_order_StrictWeakOrder].
      intros x y Hxy. simpl in Hxy. lia.
    - rewrite !sort_Slice_Permutation. by apply Permutation_map.
    - by rewrite sort_Slice_Permutation. }
  split; [done|]. unfold ABAC.Enforce. rewrite Hattrs, Hsnapshot. done.
Qed.

Lemma evaluatePolicy_loop_and (ctx : ABAC.PolicyEvaluationContext)
    (conditions : list domain.PolicyCondition) :
  forall (i : nat) (result : bool),
    Forall (fun condition => domain.LogicOp condition = ""
                             \/ domain.LogicOp condition = "and") conditions ->
    ABAC.evaluatePolicy_loop ctx conditions (S i) result "and"
    = result && forallb (fun condition => ABAC.evaluateCondition condition ctx)
                        conditions.
Proof.
  induction conditions as [|condition rest IH]; intros i result Hops; simpl.
  - by rewrite andb_true_r.
  - apply Forall_cons in Hops as [[->| ->] Hops]; simpl;
      rewrite IH by done; by rewrite andb_assoc.
Qed.

Lemma evaluatePolicy_loop_or (ctx : ABAC.PolicyEvaluationContext)
    (conditions : list domain.PolicyCondition) :
  forall (i : nat) (result : bool),
    Forall (fun condition => domain.LogicOp condition = "or") conditions ->
    ABAC.evaluatePolicy_loop ctx conditions (S i) result "or"
    = result || existsb (fun condition => ABAC.evaluateCondition condition ctx)
                        conditions.
Proof.
  induction conditions as [|condition rest IH]; intros i result Hops; simpl.
  - by rewrite orb_false_r.
  - apply Forall_cons in Hops as [-> Hops]; simpl.
    rewrite IH by done. by rewrite orb_assoc.
Qed.

(** X10.  A policy with at least one condition whose logic operators are
    all "and" or empty matches exactly when every condition holds; a
    policy whose logic operators are all "or" matches exactly when some
    condition holds. *)
Theorem X10_conjunctive_and_disjunctive_policies (policy : domain.ABACPolicy)
    (ctx : ABAC.PolicyEvaluationContext) :
  (domain.Conditions policy <> [] ->
   Forall (fun condition => domain.LogicOp condition = ""
                            \/ domain.LogicOp condition = "and")
          (domain.Conditions policy) ->
   ABAC.evaluatePolicy policy ctx
   = forallb (fun condition => ABAC.evaluateCondition condition ctx)
             (domain.Conditions policy))
  /\ (Forall (fun condition => domain.LogicOp condition = "or")
             (domain.Conditions policy) ->
      ABAC.evaluatePolicy policy ctx
      = existsb (fun condition => ABAC.evaluateCondition condition ctx)
                (domain.Conditions policy)).
Proof.
  unfold ABAC.evaluatePolicy.
  destruct (domain.Conditions policy) as [|condition rest]; simpl.
  - split; [done|]. done.
  - split.
    + intros _ Hops. apply Forall_cons in Hops as [[->| ->] Hops]; simpl;
        by rewrite evaluatePolicy_loop_and.
    + intros Hops. apply Forall_cons in Hops as [-> Hops]; simpl.
      by rewrite evaluatePolicy_loop_or.
Qed.

End ABAC_evaluation.

Lemma X9_witness_scenario_S3_either_order :
  ABAC.Enforce (lib := fixtures.library) fixtures.abac_s3 fixtures.heap_s3
    fixtures.noon "u" "doc" "read" ∅
  = ABAC.Enforce (lib := fixtures.library)
      (fixtures.abac true [("P1", 0%nat); ("P2", 1%nat)]) fixtures.heap_s3
      fixtures.noon "u" "doc" "read" ∅.
Proof.
  refine (proj2 (X9_distinct_priorities_fix_the_decision (spec := library_spec)
                   fixtures.abac_s3
                   (fixtures.abac true [("P1", 0%nat); ("P2", 1%nat)])
                   fixtures.heap_s3 fixtures.noon "u" "doc" "read" ∅ _ _ _)).
  - reflexivity.
  - apply perm_swap.
  - apply (bool_decide_unpack _). vm_compute. exact I.
Defined.

(** *** Permissions and start-up of the ReBAC engine *)

(** X11.  Mapping an action to a permission twice is the same as mapping
    it once. *)
Theorem X11_mapActionToPermission_idempotent (action : string) :
  ReBAC.mapActionToPermission (ReBAC.mapActionToPermission action)
  = ReBAC.mapActionToPermission action.
Proof.
  unfold ReBAC.mapActionToPermission at 2 3.
  destruct (String.eqb action "view") eqn:Hview; [reflexivity|].
  destruct (String.eqb action "edit") eqn:Hedit; [reflexivity|].
  destruct (String.eqb action "update") eqn:Hupdate; [reflexivity|].
  destruct (String.eqb action "modify") eqn:Hmodify; [reflexivity|].
  destruct (String.eqb action "remove") eqn:Hremove; [reflexivity|].
  destruct (String.eqb action "manage") eqn:Hmanage; [reflexivity|].
  destruct (String.eqb action "administer") eqn:Hadminister; [reflexivity|].
  simpl. unfold ReBAC.mapActionToPermission.
  by rewrite Hview, Hedit, Hupdate, Hmodify, Hremove, Hmanage, Hadminister.
Qed.

Section ReBAC_permissions.
Context {R : Type} {repository : ReBAC.ReBACRepository R}.
Context {loader : ReBAC.ReBACLoader R}.

(** X12.  A relationship grants a permission exactly when it has a
    permission list and that list holds the permission or "admin"; a
    relationship without a list grants nothing, and
    [CheckRelationshipPermission] answers what [Enforce] uses. *)
Theorem X12_relationship_grants (e : ReBAC.ReBACEnforcerImpl R)
    (relationship permission : string) :
  (ReBAC.hasPermissionThroughRelationship e relationship permission = true
   <-> exists perms, ReBAC.permissions e !! relationship = Some perms
                     /\ (permission ∈ perms \/ "admin" ∈ perms))
  /\ ReBAC.CheckRelationshipPermission e relationship permission
     = (ReBAC.hasPermissionThroughRelationship e relationship permission, None).
Proof.
  unfold ReBAC.hasPermissionThroughRelationship, ReBAC.CheckRelationshipPermission.
  destruct (ReBAC.permissions e !! relationship) as [perms|]; simpl.
  - split; [|done]. rewrite existsb_exists. split.
    + intros (perm & Hin & Hperm). exists perms. split; [done|].
      apply list_elem_of_In in Hin.
      apply orb_true_iff in Hperm as [Hperm|Hperm];
        apply String.eqb_eq in Hperm; subst; tauto.
    + intros (perms' & [= <-] & [Hin|Hin]); apply list_elem_of_In in Hin.
      * exists permission. split; [done|]. by rewrite String.eqb_refl.
      * exists "admin". split; [done|]. apply orb_true_r.
  - split; [|done]. split; [done|]. by intros (perms & ? & _).
Qed.

(** X13.  Start-up replays the store: when the repository returns the
    records that an engine was loaded from followed by an edge that the
    engine has added since, [loadFromDatabase] builds the very cache that
    the engine holds; and when the repository fails it keeps the cache it
    had and returns the error as it is. *)
Theorem X13_loadFromDatabase_replays_AddRelationship
    (e0 e1 : ReBAC.ReBACEnforcerImpl R)
    (records : list domain.Relationship) (subject relationship object : string) :
  (ReBAC.repo_LoadAllRelationships (ReBAC.repo e0) = (records, None) ->
   ReBAC.repo_LoadAllRelationships (ReBAC.repo e1)
   = (records ++ [{| domain.Subject := subject;
                     domain.Relationship_ := relationship;
                     domain.Object := object |}], None) ->
   snd (ReBAC.repo_AddRelationship (ReBAC.repo (snd (ReBAC.loadFromDatabase e0)))
          subject relationship object) = None ->
   ReBAC.relationships (snd (ReBAC.loadFromDatabase e1))
   = ReBAC.relationships
       (snd (ReBAC.AddRelationship (snd (ReBAC.loadFromDatabase e0))
               subject relationship object)))
  /\ (forall err,
        snd (ReBAC.repo_LoadAllRelationships (ReBAC.repo e0)) = Some err ->
        ReBAC.loadFromDatabase e0 = (Some err, e0)).
Proof.
  split.
  - intros Hload0 Hload1 Hadd.
    pose proof (AddRelationship_ok _ _ _ _ Hadd) as [-> _].
    unfold ReBAC.loadFromDatabase. rewrite Hload0, Hload1. cbn [snd].
    cbn [ReBAC.relationships ReBAC.with_relationships].
    by rewrite fold_left_app.
  - intros err. unfold ReBAC.loadFromDatabase.
    destruct (ReBAC.repo_LoadAllRelationships (ReBAC.repo e0)) as [loaded [err'|]];
      cbn [snd]; [|done]. by intros [= ->].
Qed.

End ReBAC_permissions.

(** *** The relationship cache *)

Lemma elem_store {V : Type} (m : GoMap.t V) (k : string) (v : V) :
  (k, v) ∈ GoMap.store m k v.
Proof.
  induction m as [|[k' v'] m IH]; simpl; [left|].
  destruct (String.eqb k' k); [left|by right].
Qed.

Lemma elem_store_other {V : Type} (m : GoMap.t V) (k k' : string) (v v' : V) :
  (k', v') ∈ m -> k' <> k -> (k', v') ∈ GoMap.store m k v.
Proof.
  intros Hin Hne. induction m as [|[k0 v0] m IH]; simpl; [by inversion Hin|].
  apply elem_of_cons in Hin as [[= <- <-]|Hin].
  - apply String.eqb_neq in Hne. rewrite Hne. left.
  - destruct (String.eqb k0 k); right; [done|by apply IH].
Qed.

Lemma elem_store_inv {V : Type} (m : GoMap.t V) (k k' : string) (v v' : V) :
  (k', v') ∈ GoMap.store m k v -> (k' = k /\ v' = v) \/ (k', v') ∈ m.
Proof.
  induction m as [|[k0 v0] m IH]; simpl.
  - intros Hin. apply list_elem_of_singleton in Hin as [= -> ->]. by left.
  - destruct (String.eqb k0 k).
    + intros Hin. apply elem_of_cons in Hin as [[= -> ->]|Hin]; [by left|].
      right. by right.
    + intros Hin. apply elem_of_cons in Hin as [[= -> ->]|Hin]; [right; left|].
      destruct (IH Hin) as [?|?]; [by left|right; by right].
Qed.

Lemma index_elem {V : Type} (m : GoMap.t (list V)) (k : string) (v : V) :
  v ∈ GoMap.index [] m k -> exists vs, (k, vs) ∈ m /\ v ∈ vs.
Proof.
  unfold GoMap.index. destruct (GoMap.lookup m k) as [vs|] eqn:Hlookup; simpl.
  - intros Hin. exists vs. split; [by apply lookup_elem|done].
  - by intros Hin%elem_of_nil.
Qed.

Lemma remove_first_elem (object : string) (rels rels' : list domain.Relationship)
    (rel : domain.Relationship) :
  ReBAC.remove_first object rels = Some rels' -> rel ∈ rels' -> rel ∈ rels.
Proof.
  revert rels'. induction rels as [|rel0 rest IH]; intros rels'; simpl; [done|].
  destruct (String.eqb (domain.Object rel0) object).
  - intros [= <-] Hin. by right.
  - destruct (ReBAC.remove_first object rest) as [rest'|]; simpl; [|done].
    intros [= <-] Hin. apply elem_of_cons in Hin as [->|Hin]; [left|].
    right. by eapply IH.
Qed.

Lemma keyed_store (m : GoMap.t (list domain.Relationship)) (key : string)
    (rels : list domain.Relationship) :
  Invariants.keyed m ->
  (forall rel, rel ∈ rels ->
     key = ReBAC.cache_key (domain.Subject rel) (domain.Relationship_ rel)) ->
  Invariants.keyed (GoMap.store m key rels).
Proof.
  intros Hm Hrels key' rels' rel Hin Hrel.
  apply elem_store_inv in Hin as [[-> ->]|Hin]; [by apply Hrels|by eapply Hm].
Qed.

Lemma keyed_insert (m : GoMap.t (list domain.Relationship))
    (subject relationship object : string) :
  Invariants.keyed m ->
  Invariants.keyed (ReBAC.cache_insert m subject relationship object).
Proof.
  intros Hm. unfold ReBAC.cache_insert.
  assert (Invariants.keyed
            (GoMap.store m (ReBAC.cache_key subject relationship)
               (GoMap.index [] m (ReBAC.cache_key subject relationship)
                  ++ [{| domain.Subject := subject;
                         domain.Relationship_ := relationship;
                         domain.Object := object |}]))) as Hm1.
  { apply keyed_store; [done|]. intros rel Hin.
    apply elem_of_app in Hin as [Hin|Hin].
    - apply index_elem in Hin as (vs & Hvs & Hin). by eapply Hm.
    - by apply list_elem_of_singleton in Hin as ->. }
  apply keyed_store; [done|]. intros rel Hin.
  apply elem_of_app in Hin as [Hin|Hin].
  - apply index_elem in Hin as (vs & Hvs & Hin). by eapply Hm1.
  - by apply list_elem_of_singleton in Hin as ->.
Qed.

Lemma keyed_remove (m : GoMap.t (list domain.Relationship))
    (subject relationship object : string) :
  Invariants.keyed m ->
  Invariants.keyed (ReBAC.cache_remove m subject relationship object).
Proof.
  intros Hm. unfold ReBAC.cache_remove.
  set (m1 := match ReBAC.remove_first object _ with
             | Some rels => _ | None => m end).
  assert (Invariants.keyed m1) as Hm1.
  { subst m1.
    destruct (ReBAC.remove_first object _) as [rels|] eqn:Hremove; [|done].
    apply keyed_store; [done|]. intros rel Hin.
    eapply remove_first_elem in Hin; [|exact Hremove].
    apply index_elem in Hin as (vs & Hvs & Hin). by eapply Hm. }
  destruct (ReBAC.remove_first subject _) as [rels|] eqn:Hremove; [|done].
  apply keyed_store; [done|]. intros rel Hin.
  eapply remove_first_elem in Hin; [|exact Hremove].
  apply index_elem in Hin as (vs & Hvs & Hin). by eapply Hm1.
Qed.

Lemma built_keyed (m : GoMap.t (list domain.Relationship)) :
  ReBAC.built m -> Invariants.keyed m.
Proof.
  induction 1 as [|m s r o _ IH|m s r o _ IH].
  - intros key rels rel Hin. by apply elem_of_nil in Hin.
  - by apply keyed_insert.
  - by apply keyed_remove.
Qed.

Lemma Split_cache_key (subject relationship : string) :
  length (strings.Split (ReBAC.cache_key subject relationship) ":") = 2%nat ->
  strings.Split (ReBAC.cache_key subject relationship) ":"
  = [subject; relationship].
Proof.
  unfold ReBAC.cache_key.
  change (":" +:+ relationship) with (String ":" relationship).
  rewrite Split_app, length_app, !Split_length. intros Hlen.
  rewrite !Split_no_separator by lia. done.
Qed.

Lemma Split_cache_key_plain (subject relationship : string) :
  strings.Count subject ":" = 0%nat -> strings.Count relationship ":" = 0%nat ->
  strings.Split (ReBAC.cache_key subject relationship) ":"
  = [subject; relationship].
Proof.
  intros Hs Hr. apply Split_cache_key. unfold ReBAC.cache_key.
  change (":" +:+ relationship) with (String ":" relationship).
  rewrite Split_app, length_app, !Split_length. lia.
Qed.

Section ReBAC_listing.
Context {R : Type} {repository : ReBAC.ReBACRepository R}.

(** X14.  On a cache that the engine has built, [GetRelationships] lists
    only edges whose relationship does not begin with "reverse_" (the
    reverse entries that the cache keeps are never listed), and for a
    non-empty subject only edges of that subject. *)
Theorem X14_GetRelationships_lists_forward_edges_of_the_subject
    (e : ReBAC.ReBACEnforcerImpl R) (subject : string)
    (rel : domain.Relationship)
    (Hbuilt : ReBAC.built (ReBAC.relationships e))
    (Hlisted : rel ∈ fst (ReBAC.GetRelationships e subject)) :
  strings.HasPrefix (domain.Relationship_ rel) "reverse_" = false
  /\ strings.Count (domain.Subject rel) ":" = 0%nat
  /\ (subject <> "" -> domain.Subject rel = subject).
Proof.
  apply built_keyed in Hbuilt.
  unfold ReBAC.GetRelationships in Hlisted. cbn [fst] in Hlisted.
  apply list_elem_of_In, in_flat_map in Hlisted as ([key rels] & Hentry & Hrel).
  apply list_elem_of_In in Hentry. cbn [fst snd] in Hrel.
  assert (Nat.eqb (length (strings.Split key ":")) 2 = true
          /\ strings.HasPrefix (nth 1 (strings.Split key ":") "") "reverse_" = false
          /\ (subject <> "" -> nth 0 (strings.Split key ":") "" = subject)
          /\ rel ∈ rels) as (Hlen & Hprefix & Hsubject & Hin).
  { destruct (String.eqb_spec subject "") as [->|Hne]; simpl in Hrel.
    - destruct (Nat.eqb (length (strings.Split key ":")) 2); simpl in Hrel; [|done].
      destruct (strings.HasPrefix _ _); simpl in Hrel; [done|].
      by apply list_elem_of_In in Hrel.
    - destruct (Nat.eqb (length (strings.Split key ":")) 2); simpl in Hrel; [|done].
      destruct (String.eqb_spec (nth 0 (strings.Split key ":") "") subject);
        simpl in Hrel; [|done].
      destruct (strings.HasPrefix _ _); simpl in Hrel; [done|].
      by apply list_elem_of_In in Hrel. }
  apply Nat.eqb_eq in Hlen.
  rewrite (Hbuilt _ _ _ Hentry Hin) in Hlen, Hprefix, Hsubject.
  pose proof (Split_cache_key _ _ Hlen) as Hparts.
  rewrite Hparts in Hprefix, Hsubject. simpl in Hprefix, Hsubject.
  repeat split; try done.
  pose proof (Split_length (ReBAC.cache_key (domain.Subject rel)
                              (domain.Relationship_ rel)) ":") as Hcount.
  rewrite Hlen in Hcount. unfold ReBAC.cache_key in Hcount.
  rewrite Count_app in Hcount.
  change (":" +:+ domain.Relationship_ rel)
    with (String ":" (domain.Relationship_ rel)) in Hcount.
  cbn [strings.Count] in Hcount. rewrite Ascii.eqb_refl in Hcount. lia.
Qed.

End ReBAC_listing.

Lemma cache_insert_holds (m : GoMap.t (list domain.Relationship))
    (subject relationship object : string) :
  exists rels,
    (ReBAC.cache_key subject relationship, rels)
      ∈ ReBAC.cache_insert m subject relationship object
    /\ {| domain.Subject := subject; domain.Relationship_ := relationship;
          domain.Object := object |} ∈ rels.
Proof.
  unfold ReBAC.cache_insert.
  set (rel := {| domain.Subject := subject; domain.Relationship_ := relationship;
                 domain.Object := object |}).
  set (key := ReBAC.cache_key subject relationship).
  set (m1 := GoMap.store m key (GoMap.index [] m key ++ [rel])).
  set (reverseKey := ReBAC.cache_reverseKey object relationship).
  destruct (String.eqb_spec key reverseKey) as [Heq|Hne].
  - eexists. split; [rewrite Heq; apply elem_store|].
    apply elem_of_app. left. unfold GoMap.index. rewrite <- Heq. subst m1.
    rewrite lookup_store_eq. simpl. apply elem_of_app. right. left.
  - eexists. split; [apply elem_store_other; [apply elem_store|done]|].
    apply elem_of_app. right. left.
Qed.

Section ReBAC_added_edge.
Context {R : Type} {repository : ReBAC.ReBACRepository R}.

Lemma added_edge_is_direct (e : ReBAC.ReBACEnforcerImpl R)
    (subject relationship object : string) :
  strings.Count subject ":" = 0%nat ->
  strings.Count relationship ":" = 0%nat ->
  strings.HasPrefix relationship "reverse_" = false ->
  snd (ReBAC.repo_AddRelationship (ReBAC.repo e) subject relationship object)
  = None ->
  {| domain.Subject := subject; domain.Relationship_ := relationship;
     domain.Object := object |}
    ∈ ReBAC.getDirectRelationships
        (snd (ReBAC.AddRelationship e subject relationship object))
        subject object.
Proof.
  intros Hs Hr Hprefix Hrepo.
  pose proof (AddRelationship_ok _ _ _ _ Hrepo) as [Hcache _].
  unfold ReBAC.getDirectRelationships. rewrite Hcache.
  destruct (cache_insert_holds (ReBAC.relationships e) subject relationship object)
    as (rels & Hentry & Hrel).
  apply list_elem_of_In, in_flat_map. eexists. split.
  { apply list_elem_of_In. exact Hentry. }
  cbn [fst snd]. rewrite Split_cache_key_plain by done.
  cbn [length nth Nat.eqb andb]. rewrite String.eqb_refl, Hprefix.
  cbn [andb negb]. apply list_elem_of_In, list_elem_of_filter.
  split; [|done]. cbn [domain.Object]. by rewrite String.eqb_refl.
Qed.

(** X15.  After [AddRelationship] has stored an edge whose subject and
    relationship hold no ":" and whose relationship does not begin with
    "reverse_", [GetRelationships] lists the edge, both for its subject
    and for the empty subject that asks for all edges. *)
Theorem X15_added_edge_is_listed (e : ReBAC.ReBACEnforcerImpl R)
    (subject relationship object : string)
    (Hsubject : strings.Count subject ":" = 0%nat)
    (Hrelationship : strings.Count relationship ":" = 0%nat)
    (Hforward : strings.HasPrefix relationship "reverse_" = false)
    (Hrepo : snd (ReBAC.repo_AddRelationship (ReBAC.repo e)
                    subject relationship object) = None) :
  {| domain.Subject := subject; domain.Relationship_ := relationship;
     domain.Object := object |}
    ∈ fst (ReBAC.GetRelationships
             (snd (ReBAC.AddRelationship e subject relationship object)) subject)
  /\ {| domain.Subject := subject; domain.Relationship_ := relationship;
        domain.Object := object |}
       ∈ fst (ReBAC.GetRelationships
                (snd (ReBAC.AddRelationship e subject relationship object)) "").
Proof.
  pose proof (AddRelationship_ok _ _ _ _ Hrepo) as [Hcache _].
  destruct (cache_insert_holds (ReBAC.relationships e) subject relationship object)
    as (rels & Hentry & Hrel).
  unfold ReBAC.GetRelationships. cbn [fst]. rewrite Hcache. split.
  - apply list_elem_of_In, in_flat_map. eexists. split.
    { apply list_elem_of_In. exact Hentry. }
    cbn [fst snd]. rewrite Split_cache_key_plain by done. simpl.
    rewrite String.eqb_refl, Hforward. simpl.
    destruct (negb (String.eqb subject "")); by apply list_elem_of_In.
  - apply list_elem_of_In, in_flat_map. eexists. split.
    { apply list_elem_of_In. exact Hentry. }
    cbn [fst snd]. rewrite Split_cache_key_plain by done. simpl.
    rewrite Hforward. simpl. by apply list_elem_of_In.
Qed.

(** X16.  After [AddRelationship] has stored such an edge from a subject
    to an object, [Enforce] allows the subject on the object every action
    whose permission the relationship grants, at once (without looking at
    groups, parents or friends), and explains it by a direct edge whose
    relationship grants the permission. *)
Theorem X16_added_edge_grants (e : ReBAC.ReBACEnforcerImpl R)
    (subject relationship object action : string) (fuel : nat)
    (Hsubject : strings.Count subject ":" = 0%nat)
    (Hrelationship : strings.Count relationship ":" = 0%nat)
    (Hforward : strings.HasPrefix relationship "reverse_" = false)
    (Hrepo : snd (ReBAC.repo_AddRelationship (ReBAC.repo e)
                    subject relationship object) = None)
    (Hgrants : ReBAC.hasPermissionThroughRelationship e relationship
                 (ReBAC.mapActionToPermission action) = true) :
  exists via,
    ReBAC.Enforce (S fuel)
      (snd (ReBAC.AddRelationship e subject relationship object))
      subject object action
    = Some (true, ReBAC.arrow subject via object, None)
    /\ ReBAC.hasPermissionThroughRelationship e via
         (ReBAC.mapActionToPermission action) = true.
Proof.
  pose proof (added_edge_is_direct e _ _ _ Hsubject Hrelationship Hforward Hrepo)
    as Hdirect.
  pose proof (AddRelationship_ok _ _ _ _ Hrepo) as [_ Hpermissions].
  set (e' := snd (ReBAC.AddRelationship e subject relationship object)) in *.
  assert (forall r p, ReBAC.hasPermissionThroughRelationship e' r p
                      = ReBAC.hasPermissionThroughRelationship e r p) as Hsame.
  { intros r p. unfold ReBAC.hasPermissionThroughRelationship.
    by rewrite Hpermissions. }
  rewrite Enforce_S. unfold ReBAC.Enforce_body.
  destruct (List.find _ (ReBAC.getDirectRelationships e' subject object))
    as [rel|] eqn:Hfind.
  - exists (domain.Relationship_ rel). split; [done|].
    apply find_some in Hfind as [_ Hrel]. by rewrite <- Hsame.
  - exfalso. apply list_elem_of_In in Hdirect.
    pose proof (find_none _ _ Hfind _ Hdirect) as Hnone. simpl in Hnone.
    rewrite Hsame in Hnone. congruence.
Qed.

End ReBAC_added_edge.

Lemma X14_witness_listing_of_alice :
  strings.HasPrefix "member" "reverse_" = false
  /\ strings.Count "alice" ":" = 0%nat
  /\ ("alice" <> "" -> "alice" = "alice").
Proof.
  refine (X14_GetRelationships_lists_forward_edges_of_the_subject
            fixtures.graph_team "alice"
            {| domain.Subject := "alice"; domain.Relationship_ := "member";
               domain.Object := "eng_team" |} _ _).
  - apply (ReBAC.built_insert
             (ReBAC.cache_insert [] "alice" "member" "eng_team")
             "eng_team" "group_access" "source_code").
    apply ReBAC.built_insert, ReBAC.built_empty.
  - apply (proj2 (list_elem_of_In _ _)). vm_compute. left. reflexivity.
Defined.

Lemma X15_witness_bob_views_doc :
  {| domain.Subject := "bob"; domain.Relationship_ := "viewer";
     domain.Object := "doc" |}
    ∈ fst (ReBAC.GetRelationships
             (snd (ReBAC.AddRelationship fixtures.graph_team "bob" "viewer" "doc"))
             "bob").
Proof.
  refine (proj1 (X15_added_edge_is_listed fixtures.graph_team
                   "bob" "viewer" "doc" _ _ _ _)); reflexivity.
Defined.

Lemma X16_witness_bob_reads_doc :
  exists via,
    ReBAC.Enforce 1
      (snd (ReBAC.AddRelationship fixtures.graph_team "bob" "viewer" "doc"))
      "bob" "doc" "view"
    = Some (true, ReBAC.arrow "bob" via "doc", None)
    /\ ReBAC.hasPermissionThroughRelationship fixtures.graph_team via
         (ReBAC.mapActionToPermission "view") = true.
Proof.
  refine (X16_added_edge_grants fixtures.graph_team "bob" "viewer" "doc" "view"
            0 _ _ _ _ _); reflexivity.
Defined.

Lemma store_store {V : Type} (m : GoMap.t V) (k : string) (a b : V) :
  GoMap.store (GoMap.store m k a) k b = GoMap.store m k b.
Proof.
  induction m as [|[k0 v0] m IH]; simpl.
  - by rewrite String.eqb_refl.
  - destruct (String.eqb k0 k) eqn:Hk; simpl.
    + by rewrite String.eqb_refl.
    + by rewrite Hk, IH.
Qed.

Lemma store_between {V : Type} (m : GoMap.t V) (k k' : string) (a b c : V) :
  k <> k' ->
  GoMap.store (GoMap.store (GoMap.store m k a) k' b) k c
  = GoMap.store (GoMap.store m k c) k' b.
Proof.
  intros Hne. induction m as [|[k0 v0] m IH]; simpl.
  - apply String.eqb_neq in Hne.
    by repeat (rewrite ?String.eqb_refl, ?Hne; simpl).
  - destruct (String.eqb_spec k0 k) as [->|Hk]; simpl.
    + apply String.eqb_neq in Hne.
      by repeat (rewrite ?String.eqb_refl, ?Hne; simpl).
    + destruct (String.eqb_spec k0 k') as [->|Hk']; simpl.
      * apply String.eqb_neq in Hk.
        repeat (rewrite ?String.eqb_refl, ?Hk; simpl). by rewrite store_store.
      * apply String.eqb_neq in Hk, Hk'.
        repeat (rewrite ?Hk, ?Hk'; simpl). by rewrite IH.
Qed.

Lemma store_index {V : Type} (m : GoMap.t (list V)) (k : string) :
  exists extra,
    GoMap.store m k (GoMap.index [] m k) = m ++ extra
    /\ Forall (fun entry => snd entry = []) extra.
Proof.
  unfold GoMap.index. destruct (GoMap.lookup m k) as [v|] eqn:Hlookup; simpl.
  - exists []. by rewrite store_same, List.app_nil_r.
  - exists [(k, [])]. rewrite store_absent by done. split; [done|].
    by constructor.
Qed.

Lemma remove_first_snoc (object : string) (rels : list domain.Relationship)
    (rel : domain.Relationship) :
  Forall (fun rel' => domain.Object rel' <> object) rels ->
  domain.Object rel = object ->
  ReBAC.remove_first object (rels ++ [rel]) = Some rels.
Proof.
  intros Hrels Hrel. induction Hrels as [|rel0 rest Hne _ IH]; simpl.
  - rewrite Hrel. by rewrite String.eqb_refl.
  - apply String.eqb_neq in Hne. by rewrite Hne, IH.
Qed.

Lemma string_length_app (a b : string) :
  String.length (a +:+ b) = (String.length a + String.length b)%nat.
Proof. induction a as [|c a IH]; simpl; [done|]. by rewrite IH. Qed.

Lemma string_app_inv_tail (a b r : string) : a +:+ r = b +:+ r -> a = b.
Proof.
  revert b. induction a as [|c a IH]; intros b Heq.
  - destruct b as [|d b]; [done|]. apply (f_equal String.length) in Heq.
    rewrite !string_length_app in Heq. simpl in Heq. lia.
  - destruct b as [|d b].
    + apply (f_equal String.length) in Heq.
      rewrite !string_length_app in Heq. simpl in Heq. lia.
    + rewrite !string_app_cons in Heq. injection Heq as -> Heq.
      f_equal. by apply IH.
Qed.

Lemma string_last_char (a b : string) (c d : ascii) :
  a +:+ String c "" = b +:+ String d "" -> c = d.
Proof.
  revert b. induction a as [|x a IH]; intros b Heq.
  - destruct b as [|y b];
      rewrite ?string_app_nil_l, ?string_app_cons in Heq; [congruence|].
    injection Heq as _ Heq. destruct b; by rewrite ?string_app_cons in Heq.
  - destruct b as [|y b];
      rewrite ?string_app_nil_l, ?string_app_cons in Heq.
    + injection Heq as _ Heq. destruct a; by rewrite ?string_app_cons in Heq.
    + injection Heq as _ Heq. by eapply IH.
Qed.

Lemma cache_key_is_no_reverseKey (subject relationship object : string) :
  ReBAC.cache_key subject relationship
  <> ReBAC.cache_reverseKey object relationship.
Proof.
  unfold ReBAC.cache_key, ReBAC.cache_reverseKey. intros Heq.
  rewrite <- !string_app_assoc in Heq. apply string_app_inv_tail in Heq.
  change ":reverse_" with (":reverse" +:+ "_") in Heq.
  rewrite <- string_app_assoc in Heq. by apply string_last_char in Heq.
Qed.

Lemma remove_after_insert (m : GoMap.t (list domain.Relationship))
    (subject relationship object : string) :
  Forall (fun rel => domain.Object rel <> object)
         (GoMap.index [] m (ReBAC.cache_key subject relationship)) ->
  Forall (fun rel => domain.Object rel <> subject)
         (GoMap.index [] m (ReBAC.cache_reverseKey object relationship)) ->
  exists extra,
    ReBAC.cache_remove (ReBAC.cache_insert m subject relationship object)
      subject relationship object
    = m ++ extra
    /\ Forall (fun entry => snd entry = []) extra.
Proof.
  intros Hfresh Hfresh'.
  pose proof (cache_key_is_no_reverseKey subject relationship object) as Hne.
  unfold ReBAC.cache_remove, ReBAC.cache_insert.
  set (key := ReBAC.cache_key subject relationship) in *.
  set (reverseKey := ReBAC.cache_reverseKey object relationship) in *.
  set (rel := {| domain.Subject := subject; domain.Relationship_ := relationship;
                 domain.Object := object |}).
  set (rev := {| domain.Subject := object;
                 domain.Relationship_ := "reverse_" +:+ relationship;
                 domain.Object := subject |}).
  set (old := GoMap.index [] m key) in *.
  set (old' := GoMap.index [] m reverseKey) in *.
  assert (GoMap.index [] (GoMap.store m key (old ++ [rel])) reverseKey = old')
    as Hindex1.
  { unfold GoMap.index. by rewrite lookup_store_ne. }
  rewrite Hindex1.
  assert (GoMap.index []
            (GoMap.store (GoMap.store m key (old ++ [rel])) reverseKey
               (old' ++ [rev])) key = old ++ [rel]) as Hindex2.
  { unfold GoMap.index. rewrite lookup_store_ne by done.
    by rewrite lookup_store_eq. }
  rewrite Hindex2, remove_first_snoc by done.
  rewrite store_between by done.
  assert (GoMap.index []
            (GoMap.store (GoMap.store m key old) reverseKey (old' ++ [rev]))
            reverseKey = old' ++ [rev]) as Hindex3.
  { unfold GoMap.index. by rewrite lookup_store_eq. }
  rewrite Hindex3, remove_first_snoc by done.
  rewrite store_store.
  destruct (store_index m key) as (extra1 & Hstore1 & Hextra1).
  fold old in Hstore1. rewrite Hstore1.
  destruct (store_index (m ++ extra1) reverseKey) as (extra2 & Hstore2 & Hextra2).
  assert (GoMap.index [] (m ++ extra1) reverseKey = old') as Hindex4.
  { rewrite <- Hstore1. unfold GoMap.index. by rewrite lookup_store_ne. }
  rewrite Hindex4 in Hstore2. rewrite Hstore2.
  exists (extra1 ++ extra2). split; [by rewrite app_assoc|].
  by apply Forall_app.
Qed.

Lemma flat_map_empty_entries {V B : Type} (f : string * list V -> list B)
    (m extra : GoMap.t (list V)) :
  (forall k, f (k, []) = []) ->
  Forall (fun entry => snd entry = []) extra ->
  flat_map f (m ++ extra) = flat_map f m.
Proof.
  intros Hf Hextra. rewrite flat_map_app.
  assert (flat_map f extra = []) as ->; [|by rewrite List.app_nil_r].
  induction Hextra as [|[k v] extra Hv _ IH]; simpl; [done|].
  simpl in Hv. subst v. by rewrite Hf, IH.
Qed.

Section ReBAC_round_trip.
Context {R : Type} {repository : ReBAC.ReBACRepository R}.

(** X17.  Adding an edge and then removing it gives back the cache as it
    was, followed at most by entries with empty edge lists for keys that
    were new, when the cache held neither an edge of that subject and
    relationship to the object nor a reverse entry back to the subject;
    [GetRelationships] and the direct edges that [Enforce] looks at are
    then what they were. *)
Theorem X17_RemoveRelationship_undoes_AddRelationship
    (e : ReBAC.ReBACEnforcerImpl R) (subject relationship object : string)
    (Hfresh : Forall (fun rel => domain.Object rel <> object)
                (GoMap.index [] (ReBAC.relationships e)
                   (ReBAC.cache_key subject relationship)))
    (Hfresh' : Forall (fun rel => domain.Object rel <> subject)
                 (GoMap.index [] (ReBAC.relationships e)
                    (ReBAC.cache_reverseKey object relationship)))
    (Hadd : snd (ReBAC.repo_AddRelationship (ReBAC.repo e)
                   subject relationship object) = None)
    (Hremove : snd (ReBAC.repo_RemoveRelationship
                      (ReBAC.repo
                         (snd (ReBAC.AddRelationship e subject relationship object)))
                      subject relationship object) = None) :
  let e' :=
    snd (ReBAC.RemoveRelationship
           (snd (ReBAC.AddRelationship e subject relationship object))
           subject relationship object) in
  (exists extra,
      ReBAC.relationships e' = ReBAC.relationships e ++ extra
      /\ Forall (fun entry => snd entry = []) extra)
  /\ (forall s, ReBAC.GetRelationships e' s = ReBAC.GetRelationships e s)
  /\ (forall s o, ReBAC.getDirectRelationships e' s o
                  = ReBAC.getDirectRelationships e s o).
Proof.
  intros e'.
  assert (ReBAC.relationships e'
          = ReBAC.cache_remove
              (ReBAC.cache_insert (ReBAC.relationships e)
                 subject relationship object)
              subject relationship object) as Hcache.
  { subst e'. revert Hremove. unfold ReBAC.AddRelationship at 1 2.
    destruct (ReBAC.repo_AddRelationship _ _ _ _) as [r [err|]]; [done|].
    cbn [snd]. unfold ReBAC.RemoveRelationship.
    cbn [ReBAC.repo ReBAC.with_relationships ReBAC.with_repo].
    destruct (ReBAC.repo_RemoveRelationship _ _ _ _) as [r' [err|]]; [done|].
    done. }
  destruct (remove_after_insert (ReBAC.relationships e) subject relationship
              object Hfresh Hfresh') as (extra & Hextra & Hempty).
  rewrite Hextra in Hcache. split; [by exists extra|]. split.
  - intros s. unfold ReBAC.GetRelationships. rewrite Hcache. f_equal.
    apply flat_map_empty_entries; [|done]. intros k. cbn [fst snd].
    by repeat destruct (_ : bool).
  - intros s o. unfold ReBAC.getDirectRelationships. rewrite Hcache.
    apply flat_map_empty_entries; [|done]. intros k. cbn [fst snd].
    by destruct (_ : bool).
Qed.

End ReBAC_round_trip.

Lemma X17_witness_bob_views_doc :
  ReBAC.GetRelationships
    (snd (ReBAC.RemoveRelationship
            (snd (ReBAC.AddRelationship fixtures.graph_team "bob" "viewer" "doc"))
            "bob" "viewer" "doc")) "alice"
  = ReBAC.GetRelationships fixtures.graph_team "alice".
Proof.
  refine (proj1 (proj2 (X17_RemoveRelationship_undoes_AddRelationship
                          fixtures.graph_team "bob" "viewer" "doc" _ _ _ _))
            "alice");
    try reflexivity; vm_compute; constructor.
Defined.

(** *** The path search and the recursion of the ReBAC engine *)

Section ReBAC_search.
Context {R : Type} {repository : ReBAC.ReBACRepository R}.

(** X18.  A path that [FindRelationshipPath] finds is the subject followed
    by arrow segments along consecutive forward edges of the cache (no
    reverse entry is followed), it ends at the target, and it has at most
    [maxDepth] segments, or at most five when [maxDepth] is not
    positive. *)
Theorem X18_found_path_is_a_bounded_walk (e : ReBAC.ReBACEnforcerImpl R)
    (subject targetObject : string) (maxDepth : Z) (path : string)
    (Hfound : ReBAC.FindRelationshipPath e subject targetObject maxDepth
              = (true, path)) :
  exists hops,
    path = Spec.render subject hops
    /\ Spec.last_node subject hops = targetObject
    /\ Z.of_nat (length hops) <= (if maxDepth <=? 0 then 5 else maxDepth)
    /\ Invariants.walk (ReBAC.relationships e) subject hops.
Proof.
  revert Hfound. unfold ReBAC.FindRelationshipPath.
  destruct (ReBAC.bfs _ _ _ _ _ _) as [[found path']|] eqn:Hbfs; simpl; [|done].
  intros [= -> ->]. eapply bfs_walk; [|exact Hbfs].
  constructor; [|constructor]. by exists [].
Qed.

(** X19.  The search loop of [FindRelationshipPath] comes to an end on
    every cache, cyclic ones included, within [bfs_bound] iterations:
    [FindRelationshipPath] returns what the loop returns. *)
Theorem X19_path_search_terminates (e : ReBAC.ReBACEnforcerImpl R)
    (subject targetObject : string) (maxDepth : Z) :
  ReBAC.bfs (ReBAC.bfs_bound (ReBAC.relationships e)) (ReBAC.relationships e)
    targetObject (if maxDepth <=? 0 then 5 else maxDepth) ∅
    [{| ReBAC.node := subject; ReBAC.path := subject; ReBAC.depth := 0 |}]
  = Some (ReBAC.FindRelationshipPath e subject targetObject maxDepth).
Proof.
  unfold ReBAC.FindRelationshipPath.
  destruct (bfs_bound_enough (ReBAC.relationships e) subject targetObject
              (if maxDepth <=? 0 then 5 else maxDepth)) as [result ->].
  done.
Qed.

Lemma checkHierarchicalAccess_rels_returns
    (enforce : string -> string -> string
               -> option (bool * string * option domain.error))
    (subject object permission parentObject : string)
    (rels : list domain.Relationship) :
  (Exists (fun rel => domain.Object rel = object) rels ->
   is_Some (enforce subject parentObject permission)) ->
  is_Some (ReBAC.checkHierarchicalAccess_rels enforce subject object permission
             parentObject rels).
Proof.
  induction rels as [|rel rest IH]; intros Hcall; simpl; [by eexists|].
  destruct (String.eqb_spec (domain.Object rel) object) as [Heq|Hne].
  - destruct Hcall as [[[hasAccess parentPath] err] Hresult]; [by left|].
    rewrite Hresult. destruct hasAccess; [by eexists|].
    apply IH. intros _. by eexists.
  - apply IH. intros Hex. apply Hcall. by right.
Qed.

Lemma checkHierarchicalAccess_keys_returns
    (enforce : string -> string -> string
               -> option (bool * string * option domain.error))
    (subject object permission : string)
    (entries : GoMap.t (list domain.Relationship)) :
  Forall
    (fun entry : string * list domain.Relationship =>
       let parts := strings.Split (fst entry) ":" in
       length parts = 2%nat -> nth 1 parts "" = "parent" ->
       Exists (fun rel => domain.Object rel = object) (snd entry) ->
       is_Some (enforce subject (nth 0 parts "") permission))
    entries ->
  is_Some (ReBAC.checkHierarchicalAccess_keys enforce subject object permission
             entries).
Proof.
  induction 1 as [|[key rels] entries Hentry _ IH]; simpl; [by eexists|].
  cbn [fst snd] in Hentry.
  destruct (Nat.eqb_spec (length (strings.Split key ":")) 2) as [Hlen|_];
    simpl; [|done].
  destruct (String.eqb_spec (nth 1 (strings.Split key ":") "") "parent")
    as [Hparent|_]; simpl; [|done].
  destruct (checkHierarchicalAccess_rels_returns enforce subject object permission
              (nth 0 (strings.Split key ":") "") rels (Hentry Hlen Hparent))
    as [[path|] ->]; [by eexists|done].
Qed.

Lemma Enforce_ranked (e : ReBAC.ReBACEnforcerImpl R) (rank : string -> nat)
    (Hranked : Invariants.ranked_parents rank (ReBAC.relationships e) = true)
    (fuel : nat) :
  forall subject object action,
    (rank object < fuel)%nat ->
    is_Some (ReBAC.Enforce fuel e subject object action).
Proof.
  induction fuel as [|fuel IH]; intros subject object action Hrank; [lia|].
  rewrite Enforce_S. unfold ReBAC.Enforce_body, ReBAC.checkHierarchicalAccess.
  destruct (List.find _ _); [by eexists|].
  destruct (ReBAC.checkGroupAccess _ _ _ _) as [[] ?]; [by eexists|].
  destruct (checkHierarchicalAccess_keys_returns (ReBAC.Enforce fuel e) subject
              object (ReBAC.mapActionToPermission action) (ReBAC.relationships e))
    as [[hierarchicalAccess hierarchicalPath] ->].
  { unfold Invariants.ranked_parents in Hranked.
    rewrite forallb_forall in Hranked.
    apply Forall_forall. intros [key rels] Hin. cbn [fst snd].
    intros Hlen Hparent Hex. apply IH.
    apply list_elem_of_In, Hranked in Hin. cbn [fst snd] in Hin.
    rewrite Hlen, Hparent in Hin. simpl in Hin.
    rewrite forallb_forall in Hin.
    apply Exists_exists in Hex as (rel & Hrel & <-).
    apply list_elem_of_In, Hin, Nat.ltb_lt in Hrel. lia. }
  destruct hierarchicalAccess; [by eexists|].
  destruct (_ || _); [|by eexists].
  destruct (ReBAC.checkSocialAccess _ _ _ _) as [[] ?]; by eexists.
Qed.

(** X20.  [Enforce] returns whenever the parent edges of the cache go down
    a rank (so that no object is its own ancestor): nesting its calls one
    level deeper than the rank of the object is enough, and deeper nesting
    gives the same result. *)
Theorem X20_Enforce_returns_on_ranked_parents (e : ReBAC.ReBACEnforcerImpl R)
    (rank : string -> nat) (subject object action : string)
    (Hranked : Invariants.ranked_parents rank (ReBAC.relationships e) = true) :
  exists result,
    forall extra,
      ReBAC.Enforce (S (rank object) + extra) e subject object action
      = Some result.
Proof.
  destruct (Enforce_ranked e rank Hranked (S (rank object)) subject object action)
    as [result Hresult]; [lia|].
  exists result. intros extra. by apply Enforce_fuel_mono.
Qed.

End ReBAC_search.

Lemma X18_witness_friend_of_friend :
  exists hops,
    "alice -[friend]-> bob -[friend]-> carol" = Spec.render "alice" hops
    /\ Spec.last_node "alice" hops = "carol"
    /\ Z.of_nat (length hops) <= 3
    /\ Invariants.walk (ReBAC.relationships fixtures.graph_friends) "alice" hops.
Proof.
  refine (X18_found_path_is_a_bounded_walk fixtures.graph_friends
            "alice" "carol" 3 "alice -[friend]-> bob -[friend]-> carol" _).
  vm_compute. reflexivity.
Defined.

Lemma X20_witness_folder_and_doc :
  exists result,
    forall extra,
      ReBAC.Enforce (S (if String.eqb "doc" "doc" then 1 else 0) + extra)
        fixtures.graph_folder "alice" "doc" "read"
      = Some result.
Proof.
  refine (X20_Enforce_returns_on_ranked_parents fixtures.graph_folder
            (fun name => if String.eqb name "doc" then 1%nat else 0%nat)
            "alice" "doc" "read" _).
  vm_compute. reflexivity.
Defined.

(** *** The sort of [main.go]'s policy engine *)

Lemma lookup_swapped (s : list domain.ABACPolicy) (i j k : nat)
    (pi pj : domain.ABACPolicy) :
  s !! i = Some pi -> s !! j = Some pj ->
  <[j := pi]> (<[i := pj]> s) !! k
  = if decide (k = j) then Some pi
    else if decide (k = i) then Some pj else s !! k.
Proof.
  intros Hi Hj. apply lookup_lt_Some in Hi, Hj.
  destruct (decide (k = j)) as [->|Hkj].
  - apply list_lookup_insert_eq. by rewrite length_insert.
  - rewrite list_lookup_insert_ne by done.
    destruct (decide (k = i)) as [->|Hki].
    + by apply list_lookup_insert_eq.
    + by rewrite list_lookup_insert_ne.
Qed.

Lemma swap_if_lower_length (s : list domain.ABACPolicy) (i j : nat) :
  length (main.swap_if_lower s i j) = length s.
Proof.
  unfold main.swap_if_lower.
  destruct (s !! i) as [pi|]; [|done]. destruct (s !! j) as [pj|]; [|done].
  destruct (_ <? _); [|done]. by rewrite !length_insert.
Qed.

Lemma swap_if_lower_Permutation (s : list domain.ABACPolicy) (i j : nat) :
  Permutation (main.swap_if_lower s i j) s.
Proof.
  unfold main.swap_if_lower.
  destruct (s !! i) as [pi|] eqn:Hi; [|done].
  destruct (s !! j) as [pj|] eqn:Hj; [|done].
  destruct (_ <? _); [|done].
  apply Permutation_inj. split; [by rewrite !length_insert|].
  exists (fun k => if decide (k = j) then i else if decide (k = i) then j else k).
  split.
  - intros a b. repeat destruct (decide _); intros; subst; congruence.
  - intros k. rewrite (lookup_swapped s i j k pi pj) by done.
    repeat destruct (decide _); by subst.
Qed.

Lemma swap_if_lower_step (s : list domain.ABACPolicy) (i j : nat) :
  (i < j)%nat ->
  Invariants.descending_upto i s -> Invariants.leads i j s ->
  Invariants.descending_upto i (main.swap_if_lower s i j)
  /\ Invariants.leads i (S j) (main.swap_if_lower s i j).
Proof.
  intros Hij Hdesc Hleads. unfold main.swap_if_lower.
  destruct (s !! i) as [pi|] eqn:Hi.
  2:{ split; [done|]. intros b x y _ Hx. congruence. }
  destruct (s !! j) as [pj|] eqn:Hj.
  2:{ split; [done|]. intros b x y Hb Hx Hy.
      destruct (decide (b = j)) as [->|Hbj]; [congruence|].
      apply (Hleads b x y); [lia|congruence|done]. }
  destruct (Z.ltb_spec (domain.Priority pi) (domain.Priority pj)) as [Hlt|Hge].
  - split.
    + intros a b x y Ha Hab.
      rewrite !(lookup_swapped s i j _ pi pj) by done.
      destruct (decide (a = j)) as [->|_]; [lia|].
      destruct (decide (a = i)) as [->|_]; [lia|]. intros Hx.
      destruct (decide (b = j)) as [->|_].
      { intros [= <-]. apply (Hdesc a i x pi); done. }
      destruct (decide (b = i)) as [->|_].
      { intros [= <-]. apply (Hdesc a j x pj); [done|lia|done|done]. }
      intros Hy. by apply (Hdesc a b x y).
    + intros b x y Hb.
      rewrite !(lookup_swapped s i j _ pi pj) by done.
      destruct (decide (i = j)) as [->|_]; [lia|].
      destruct (decide (i = i)) as [_|?]; [|done]. intros [= <-].
      destruct (decide (b = j)) as [->|Hbj]; [intros [= <-]; lia|].
      destruct (decide (b = i)) as [->|_]; [lia|]. intros Hy.
      assert (domain.Priority y <= domain.Priority pi)
        by (apply (Hleads b pi y); [lia|done|done]).
      lia.
  - split; [done|]. intros b x y Hb Hx Hy.
    destruct (decide (b = j)) as [->|Hbj].
    + assert (x = pi) as -> by congruence. assert (y = pj) as -> by congruence.
      lia.
    + apply (Hleads b x y); [lia|done|done].
Qed.

Lemma inner_loop_sorts (i len : nat) :
  forall (j0 : nat) (s : list domain.ABACPolicy),
    (i < j0)%nat ->
    Invariants.descending_upto i s -> Invariants.leads i j0 s ->
    let s' := fold_left (fun s j => main.swap_if_lower s i j) (seq j0 len) s in
    length s' = length s /\ Permutation s' s
    /\ Invariants.descending_upto i s' /\ Invariants.leads i (j0 + len) s'.
Proof.
  induction len as [|len IH]; intros j0 s Hij Hdesc Hleads; simpl.
  - by rewrite Nat.add_0_r.
  - destruct (swap_if_lower_step s i j0 Hij Hdesc Hleads) as [Hdesc' Hleads'].
    destruct (IH (S j0) (main.swap_if_lower s i j0)) as (Hlen & Hperm & Hd & Hl);
      [lia|done|done|].
    rewrite Hlen, swap_if_lower_length. split; [done|].
    split; [by rewrite Hperm, swap_if_lower_Permutation|].
    split; [done|]. by replace (j0 + S len)%nat with (S j0 + len)%nat by lia.
Qed.

Lemma outer_loop_sorts (len : nat) :
  forall (i0 : nat) (s : list domain.ABACPolicy),
    Invariants.descending_upto i0 s ->
    let s' :=
      fold_left
        (fun s i =>
           fold_left (fun s j => main.swap_if_lower s i j)
                     (seq (S i) (length s - S i)) s)
        (seq i0 len) s in
    length s' = length s /\ Permutation s' s
    /\ Invariants.descending_upto (i0 + len) s'.
Proof.
  induction len as [|len IH]; intros i0 s Hdesc; simpl.
  - by rewrite Nat.add_0_r.
  - destruct (inner_loop_sorts i0 (length s - S i0) (S i0) s)
      as (Hlen & Hperm & Hdesc' & Hleads); [lia|done| |].
    { intros b x y Hb. lia. }
    set (s1 := fold_left (fun s j => main.swap_if_lower s i0 j)
                         (seq (S i0) (length s - S i0)) s) in *.
    destruct (IH (S i0) s1) as (Hlen' & Hperm' & Hdesc'').
    { intros a b x y Ha Hab Hx Hy.
      destruct (decide (a = i0)) as [->|Hne].
      - apply (Hleads b x y); [|done|done].
        apply lookup_lt_Some in Hy. lia.
      - apply (Hdesc' a b x y); [lia|done|done|done]. }
    rewrite Hlen', Hlen. split; [done|].
    split; [by rewrite Hperm'|].
    by replace (i0 + S len)%nat with (S i0 + len)%nat by lia.
Qed.

Lemma descending_StronglySorted (s : list domain.ABACPolicy) :
  Invariants.descending_upto (length s) s ->
  StronglySorted (fun p q => domain.Priority q <= domain.Priority p) s.
Proof.
  induction s as [|p s IH]; intros Hdesc; constructor.
  - apply IH. intros a b x y Ha Hab Hx Hy.
    apply (Hdesc (S a) (S b) x y); simpl; [lia|lia|done|done].
  - apply Forall_forall. intros q Hq.
    apply list_elem_of_lookup in Hq as [k Hk].
    apply (Hdesc 0%nat (S k) p q); simpl; [lia|lia|done|done].
Qed.

(** X21.  The hand-written sort of [PolicyEngine.Evaluate] rearranges the
    snapshot (no policy is lost or repeated) into descending order of
    priority. *)
Theorem X21_sort_by_priority_sorts (s : list domain.ABACPolicy) :
  Permutation (main.sort_by_priority s) s
  /\ StronglySorted (fun p q => domain.Priority q <= domain.Priority p)
       (main.sort_by_priority s).
Proof.
  unfold main.sort_by_priority.
  destruct (outer_loop_sorts (length s) 0 s) as (Hlen & Hperm & Hdesc).
  { intros a b x y Ha. lia. }
  split; [done|]. apply descending_StronglySorted. by rewrite Hlen.
Qed.

(** *** The rows of the policy repository *)

Lemma condition_row_round_trip (conditions : list domain.PolicyCondition) :
  map (fun condDB =>
         {| domain.CondID := sqlite.CondID condDB;
            domain.PolicyID := sqlite.PolicyID condDB;
            domain.Type_ := sqlite.Type_ condDB;
            domain.Field := sqlite.Field condDB;
            domain.Operator := sqlite.Operator condDB;
            domain.Value := sqlite.Value condDB;
            domain.LogicOp := sqlite.LogicOp condDB |})
      (map (fun cond =>
              {| sqlite.CondID := domain.CondID cond;
                 sqlite.PolicyID := domain.PolicyID cond;
                 sqlite.Type_ := domain.Type_ cond;
                 sqlite.Field := domain.Field cond;
                 sqlite.Operator := domain.Operator cond;
                 sqlite.Value := domain.Value cond;
                 sqlite.LogicOp := domain.LogicOp cond |})
           conditions)
  = conditions.
Proof. induction conditions as [|[] rest IH]; simpl; [done|]. by rewrite IH. Qed.

Lemma row_condition_round_trip (conditions : list sqlite.PolicyConditionDB) :
  map (fun cond =>
         {| sqlite.CondID := domain.CondID cond;
            sqlite.PolicyID := domain.PolicyID cond;
            sqlite.Type_ := domain.Type_ cond;
            sqlite.Field := domain.Field cond;
            sqlite.Operator := domain.Operator cond;
            sqlite.Value := domain.Value cond;
            sqlite.LogicOp := domain.LogicOp cond |})
      (map (fun condDB =>
              {| domain.CondID := sqlite.CondID condDB;
                 domain.PolicyID := sqlite.PolicyID condDB;
                 domain.Type_ := sqlite.Type_ condDB;
                 domain.Field := sqlite.Field condDB;
                 domain.Operator := sqlite.Operator condDB;
                 domain.Value := sqlite.Value condDB;
                 domain.LogicOp := sqlite.LogicOp condDB |})
           conditions)
  = conditions.
Proof. induction conditions as [|[] rest IH]; simpl; [done|]. by rewrite IH. Qed.

(** X22.  Turning a policy into its database row and back keeps every
    field of the policy and of its conditions, and the conditions in
    their order: the engines read the same policy.  The same holds for a
    row turned into a policy and back.  The slice of conditions that comes
    back is a made one, never nil: the round trip gives back the very
    policy, or the very row, exactly when its slice of conditions was not
    nil, and a nil slice comes back as an empty slice that is not nil. *)
Theorem X22_policy_row_round_trip :
  (forall policy : sqlite.ABACPolicy,
      sqlite.toDomainABACPolicy (sqlite.toABACPolicyDB policy)
      = sqlite.with_made_Conditions policy
      /\ sqlite.policy_of (sqlite.toDomainABACPolicy (sqlite.toABACPolicyDB policy))
         = sqlite.policy_of policy
      /\ (sqlite.toDomainABACPolicy (sqlite.toABACPolicyDB policy) = policy
          <-> sqlite.policy_Conditions policy <> sqlite.nil_slice))
  /\ (forall policyDB : sqlite.ABACPolicyDB,
         sqlite.toABACPolicyDB (sqlite.toDomainABACPolicy policyDB)
         = sqlite.with_made_ConditionsDB policyDB
         /\ (sqlite.toABACPolicyDB (sqlite.toDomainABACPolicy policyDB) = policyDB
             <-> sqlite.Conditions policyDB <> sqlite.nil_slice))
  /\ (forall policy : sqlite.ABACPolicy,
         sqlite.Conditions (sqlite.toABACPolicyDB policy) <> sqlite.nil_slice)
  /\ (forall policyDB : sqlite.ABACPolicyDB,
         sqlite.policy_Conditions (sqlite.toDomainABACPolicy policyDB)
         <> sqlite.nil_slice).
Proof.
  assert (forall policy : sqlite.ABACPolicy,
            sqlite.toDomainABACPolicy (sqlite.toABACPolicyDB policy)
            = sqlite.with_made_Conditions policy) as Hpolicy.
  { intros policy.
    unfold sqlite.toDomainABACPolicy, sqlite.toABACPolicyDB,
      sqlite.with_made_Conditions.
    cbn [sqlite.ID sqlite.Name sqlite.Description sqlite.Effect sqlite.Priority
         sqlite.CreatedAt sqlite.UpdatedAt sqlite.Conditions sqlite.elements].
    by rewrite condition_row_round_trip. }
  assert (forall policyDB : sqlite.ABACPolicyDB,
            sqlite.toABACPolicyDB (sqlite.toDomainABACPolicy policyDB)
            = sqlite.with_made_ConditionsDB policyDB) as Hrow.
  { intros policyDB.
    unfold sqlite.toDomainABACPolicy, sqlite.toABACPolicyDB,
      sqlite.with_made_ConditionsDB.
    cbn [sqlite.policy_ID sqlite.policy_Name sqlite.policy_Description
         sqlite.policy_Effect sqlite.policy_Priority sqlite.policy_CreatedAt
         sqlite.policy_UpdatedAt sqlite.policy_Conditions sqlite.elements].
    by rewrite row_condition_round_trip. }
  split; [|split; [|split]].
  - intros policy. rewrite Hpolicy. split; [done|]. split.
    + by destruct policy as [? ? ? ? ? [|conditions] ? ?].
    + destruct policy as [? ? ? ? ? [|conditions] ? ?];
        unfold sqlite.with_made_Conditions; simpl; split; try done;
        intros Hnil; by contradict Hnil.
  - intros policyDB. rewrite Hrow. split; [done|].
    destruct policyDB as [? ? ? ? ? ? ? [|conditions]];
      unfold sqlite.with_made_ConditionsDB; simpl; split; try done;
      intros Hnil; by contradict Hnil.
  - done.
  - done.
Qed.

(** *** The dispatcher, the RBAC engine and the ACL engine *)

(** X23.  The dispatcher of the core never allows a request by itself:
    when it answers "allowed", the model is one of the four model names,
    the engine of that model is there, and it is that engine which allowed
    the request, with the same error value. *)
Theorem X23_dispatcher_allows_only_what_an_engine_allows
    (s : services.AuthorizationServiceImpl) (model : domain.AccessControlModel)
    (subject object action : string) (attributes : gmap string string)
    (err : option domain.error)
    (Hallowed : services.Enforce s model subject object action attributes
                = (true, err)) :
  (model = domain.ModelACL
   /\ exists enforcer, services.aclEnforcer s = Some enforcer
        /\ services.acl_Enforce enforcer subject object action = (true, err))
  \/ (model = domain.ModelRBAC
      /\ exists enforcer, services.rbacEnforcer s = Some enforcer
           /\ services.rbac_Enforce enforcer subject object action = (true, err))
  \/ (model = domain.ModelABAC
      /\ exists enforcer, services.abacEnforcer s = Some enforcer
           /\ services.abac_Enforce enforcer subject object action attributes
              = (true, err))
  \/ (model = domain.ModelReBAC
      /\ exists enforcer path, services.rebacEnforcer s = Some enforcer
           /\ services.rebac_Enforce enforcer subject object action
              = (true, path, err)).
Proof.
  revert Hallowed. unfold services.Enforce.
  destruct (String.eqb_spec model domain.ModelACL) as [->|_].
  { destruct (services.aclEnforcer s) as [enforcer|]; [|done].
    intros Hallowed. left. split; [done|]. by exists enforcer. }
  destruct (String.eqb_spec model domain.ModelRBAC) as [->|_].
  { destruct (services.rbacEnforcer s) as [enforcer|]; [|done].
    intros Hallowed. right. left. split; [done|]. by exists enforcer. }
  destruct (String.eqb_spec model domain.ModelABAC) as [->|_].
  { destruct (services.abacEnforcer s) as [enforcer|]; [|done].
    intros Hallowed. right. right. left. split; [done|]. by exists enforcer. }
  destruct (String.eqb_spec model domain.ModelReBAC) as [->|_]; [|done].
  destruct (services.rebacEnforcer s) as [enforcer|]; [|done].
  destruct (services.rebac_Enforce enforcer subject object action)
    as [[allowed path] err'] eqn:Hengine.
  intros [= -> ->]. right. right. right. split; [done|].
  by exists enforcer, path.
Qed.

Section RBAC_and_ACL.
Context {R : Type} {rbac_repository : RBAC.RBACPolicyRepository R}.
Context {Q : Type} {acl_repository : ACL.ACLPolicyRepository Q}.

(** X24.  The RBAC engine asks for the roles of the subject only when no
    policy names the subject itself: a policy for the subject allows the
    request even if the role lookup would fail; without one, a failing
    role lookup denies the request with its error; and a failing policy
    read denies it with the error of the read. *)
Theorem X24_RBAC_reads_roles_only_when_needed (e : RBAC.RBACEnforcerImpl R)
    (subject object action : string) :
  (forall policies,
      RBAC.GetPolicy (RBAC.repo e) = (policies, None) ->
      [subject; object; action] ∈ policies ->
      RBAC.Enforce e subject object action = (true, None))
  /\ (forall policies roles err,
         RBAC.GetPolicy (RBAC.repo e) = (policies, None) ->
         [subject; object; action] ∉ policies ->
         RBAC.GetRolesForUser (RBAC.repo e) subject = (roles, Some err) ->
         RBAC.Enforce e subject object action = (false, Some err))
  /\ (forall policies err,
         RBAC.GetPolicy (RBAC.repo e) = (policies, Some err) ->
         RBAC.Enforce e subject object action = (false, Some err)).
Proof.
  unfold RBAC.Enforce. repeat split.
  - intros policies -> Hin. apply existsb_matches in Hin. by rewrite Hin.
  - intros policies roles err -> Hnotin ->.
    destruct (existsb _ policies) eqn:Hdirect; [|done].
    by apply existsb_matches in Hdirect.
  - by intros policies err ->.
Qed.

(** X25.  The ACL engine allows a request exactly when the policy list of
    the repository holds the triple of subject, object and action, with
    no role, wildcard or prefix matching; when the repository fails it
    denies the request and returns the error. *)
Theorem X25_ACL_exact_match (e : ACL.ACLEnforcerImpl Q)
    (subject object action : string) :
  (forall policies,
      ACL.GetPolicy (ACL.repo e) = (policies, None) ->
      ACL.Enforce e subject object action
      = (bool_decide ([subject; object; action] ∈ policies), None))
  /\ (forall policies err,
         ACL.GetPolicy (ACL.repo e) = (policies, Some err) ->
         ACL.Enforce e subject object action = (false, Some err)).
Proof.
  unfold ACL.Enforce. split.
  - intros policies ->.
    destruct (existsb _ policies) eqn:Hdirect.
    + apply existsb_matches in Hdirect. by rewrite bool_decide_eq_true_2.
    + rewrite bool_decide_eq_false_2; [done|]. intros Hin.
      apply existsb_matches in Hin. congruence.
  - by intros policies err ->.
Qed.

End RBAC_and_ACL.

Lemma X23_witness_rbac_engine_allowed :
  (domain.ModelRBAC = domain.ModelACL
   /\ exists enforcer,
        services.aclEnforcer fixtures.service_allowing = Some enforcer
        /\ services.acl_Enforce enforcer "alice" "data" "write" = (true, None))
  \/ (domain.ModelRBAC = domain.ModelRBAC
      /\ exists enforcer,
           services.rbacEnforcer fixtures.service_allowing = Some enforcer
           /\ services.rbac_Enforce enforcer "alice" "data" "write" = (true, None))
  \/ (domain.ModelRBAC = domain.ModelABAC
      /\ exists enforcer,
           services.abacEnforcer fixtures.service_allowing = Some enforcer
           /\ services.abac_Enforce enforcer "alice" "data" "write" ∅
              = (true, None))
  \/ (domain.ModelRBAC = domain.ModelReBAC
      /\ exists enforcer path,
           services.rebacEnforcer fixtures.service_allowing = Some enforcer
           /\ services.rebac_Enforce enforcer "alice" "data" "write"
              = (true, path, None)).
Proof.
  refine (X23_dispatcher_allows_only_what_an_engine_allows
            fixtures.service_allowing domain.ModelRBAC "alice" "data" "write" ∅
            None _).
  reflexivity.
Defined.

(** *** The decision of the ReBAC engine *)

Section ReBAC_decision.
Context {R : Type} {repository : ReBAC.ReBACRepository R}.

(** X26.  When a call of [Enforce] returns, it allows exactly when one of
    its four rules applies to the mapped permission: a direct edge grants
    it, or a group that the subject is a member of has a direct edge that
    grants it, or the nested call allows it on a parent of the object, or
    (for "read" and "read_limited") a path of at most three segments that
    contains "friend" leads to the object and "friend" grants
    "read_limited".  It never returns an error, and a denial carries no
    path. *)
Theorem X26_Enforce_allows_by_its_four_rules (e : ReBAC.ReBACEnforcerImpl R)
    (fuel : nat) (subject object action : string)
    (allowed : bool) (path : string) (err : option domain.error)
    (Hreturns : ReBAC.Enforce (S fuel) e subject object action
                = Some (allowed, path, err)) :
  let permission := ReBAC.mapActionToPermission action in
  (allowed = true
   <-> Invariants.direct_rule e subject object permission
       \/ Invariants.group_rule e subject object permission
       \/ Invariants.parent_rule (ReBAC.Enforce fuel e) e subject object permission
       \/ Invariants.social_rule e subject object permission)
  /\ err = None
  /\ (allowed = false -> path = "").
Proof.
  intros permission. revert Hreturns. rewrite Enforce_S.
  unfold ReBAC.Enforce_body. fold permission.
  pose proof (find_direct e subject object permission) as Hdirect.
  destruct (List.find _ _) as [rel|].
  { intros [= <- <- <-]. repeat split; try done. intros _. left.
    apply Hdirect. by eexists. }
  assert (~ Invariants.direct_rule e subject object permission) as Hno_direct.
  { intros Hrule. by apply Hdirect in Hrule as [? ?]. }
  pose proof (checkGroupAccess_decides e subject object permission) as Hgroup.
  destruct (ReBAC.checkGroupAccess e subject object permission)
    as [groupAccess groupPath]. simpl in Hgroup. destruct groupAccess.
  { intros [= <- <- <-]. repeat split; try done. intros _. right. left.
    by apply Hgroup. }
  assert (~ Invariants.group_rule e subject object permission) as Hno_group.
  { intros Hrule. by apply Hgroup in Hrule. }
  unfold ReBAC.checkHierarchicalAccess.
  destruct (ReBAC.checkHierarchicalAccess_keys _ _ _ _ _)
    as [[hierarchicalAccess hierarchicalPath]|] eqn:Hkeys; [|done].
  pose proof (checkHierarchicalAccess_keys_decides _ _ _ _ _ _ Hkeys) as Hparent.
  simpl in Hparent. destruct hierarchicalAccess.
  { intros [= <- <- <-]. repeat split; try done. intros _. right. right. left.
    by apply Hparent. }
  assert (~ Invariants.parent_rule (ReBAC.Enforce fuel e) e subject object
              permission) as Hno_parent.
  { intros Hrule. by apply Hparent in Hrule. }
  pose proof (checkSocialAccess_decides e subject object) as Hsocial.
  destruct (String.eqb_spec permission "read") as [Hread|Hread]; simpl.
  { destruct (ReBAC.checkSocialAccess e subject object 3)
      as [socialAccess socialPath]. simpl in Hsocial. destruct socialAccess.
    - intros [= <- <- <-]. repeat split; try done. intros _. right. right. right.
      split; [by left|]. by apply Hsocial.
    - intros [= <- <- <-]. repeat split; try done.
      intros [?|[?|[?|[_ Hrule]]]]; try done. by apply Hsocial in Hrule. }
  destruct (String.eqb_spec permission "read_limited") as [Hlimited|Hlimited];
    simpl.
  { destruct (ReBAC.checkSocialAccess e subject object 3)
      as [socialAccess socialPath]. simpl in Hsocial. destruct socialAccess.
    - intros [= <- <- <-]. repeat split; try done. intros _. right. right. right.
      split; [by right|]. by apply Hsocial.
    - intros [= <- <- <-]. repeat split; try done.
      intros [?|[?|[?|[_ Hrule]]]]; try done. by apply Hsocial in Hrule. }
  intros [= <- <- <-]. repeat split; try done.
  intros [?|[?|[?|[[?|?] _]]]]; done.
Qed.

End ReBAC_decision.

Lemma X26_witness_scenario_S4 :
  let permission := ReBAC.mapActionToPermission "edit" in
  (true = true
   <-> Invariants.direct_rule fixtures.graph_team "alice" "source_code" permission
       \/ Invariants.group_rule fixtures.graph_team "alice" "source_code" permission
       \/ Invariants.parent_rule (ReBAC.Enforce 0 fixtures.graph_team)
            fixtures.graph_team "alice" "source_code" permission
       \/ Invariants.social_rule fixtures.graph_team "alice" "source_code"
            permission)
  /\ @None domain.error = None
  /\ (true = false
      -> "alice -[member]-> eng_team -[group_access]-> source_code" = "").
Proof.
  refine (X26_Enforce_allows_by_its_four_rules fixtures.graph_team 0
            "alice" "source_code" "edit" true
            "alice -[member]-> eng_team -[group_access]-> source_code" None _).
  vm_compute. reflexivity.
Defined.

(** *** Removing edges that are not there, and edges that are there twice *)

Lemma remove_first_absent (object : string) (rels : list domain.Relationship) :
  Forall (fun rel => domain.Object rel <> object) rels ->
  ReBAC.remove_first object rels = None.
Proof.
  induction 1 as [|rel rest Hne _ IH]; simpl; [done|].
  apply String.eqb_neq in Hne. by rewrite Hne, IH.
Qed.

Lemma remove_first_keeps_last (object : string) (rels : list domain.Relationship)
    (rel : domain.Relationship) :
  Exists (fun rel' => domain.Object rel' = object) rels ->
  exists rels', ReBAC.remove_first object (rels ++ [rel]) = Some rels'
                /\ rel ∈ rels'.
Proof.
  induction rels as [|rel0 rest IH]; intros Hexists; [by inversion Hexists|].
  simpl. destruct (String.eqb_spec (domain.Object rel0) object) as [Heq|Hne].
  - eexists. split; [done|]. apply elem_of_app. right. left.
  - inversion Hexists as [? ? Hhere|? ? Hlater]; subst; [done|].
    destruct (IH Hlater) as (rels' & -> & Hin). simpl.
    eexists. split; [done|]. by right.
Qed.

Section ReBAC_removal.
Context {R : Type} {repository : ReBAC.ReBACRepository R}.

(** X27.  [RemoveRelationship] of an edge that the cache does not hold
    (no edge of that subject and relationship to the object, and no
    reverse entry back to the subject) returns no error when the
    repository accepts the removal, and leaves the cache as it was. *)
Theorem X27_RemoveRelationship_of_an_absent_edge (e : ReBAC.ReBACEnforcerImpl R)
    (subject relationship object : string)
    (Habsent : Forall (fun rel => domain.Object rel <> object)
                 (GoMap.index [] (ReBAC.relationships e)
                    (ReBAC.cache_key subject relationship)))
    (Habsent' : Forall (fun rel => domain.Object rel <> subject)
                  (GoMap.index [] (ReBAC.relationships e)
                     (ReBAC.cache_reverseKey object relationship)))
    (Hrepo : snd (ReBAC.repo_RemoveRelationship (ReBAC.repo e)
                    subject relationship object) = None) :
  fst (ReBAC.RemoveRelationship e subject relationship object) = None
  /\ ReBAC.relationships
       (snd (ReBAC.RemoveRelationship e subject relationship object))
     = ReBAC.relationships e.
Proof.
  revert Hrepo. unfold ReBAC.RemoveRelationship.
  destruct (ReBAC.repo_RemoveRelationship _ _ _ _) as [r [err|]]; [done|].
  intros _. cbn [fst snd ReBAC.relationships ReBAC.with_relationships].
  split; [done|]. unfold ReBAC.cache_remove.
  rewrite (remove_first_absent _ _ Habsent).
  by rewrite (remove_first_absent _ _ Habsent').
Qed.

(** X28.  Edges are kept with their multiplicity and removed one at a
    time: when an edge from the subject to the object under the
    relationship is already cached, adding the edge once more and removing
    it once leaves [Enforce] a direct edge of that relationship from the
    subject to the object. *)
Theorem X28_removal_takes_one_edge_at_a_time (e : ReBAC.ReBACEnforcerImpl R)
    (subject relationship object : string)
    (Hsubject : strings.Count subject ":" = 0%nat)
    (Hrelationship : strings.Count relationship ":" = 0%nat)
    (Hforward : strings.HasPrefix relationship "reverse_" = false)
    (Hcached : Exists (fun rel => domain.Object rel = object)
                 (GoMap.index [] (ReBAC.relationships e)
                    (ReBAC.cache_key subject relationship)))
    (Hadd : snd (ReBAC.repo_AddRelationship (ReBAC.repo e)
                   subject relationship object) = None)
    (Hremove : snd (ReBAC.repo_RemoveRelationship
                      (ReBAC.repo
                         (snd (ReBAC.AddRelationship e subject relationship object)))
                      subject relationship object) = None) :
  {| domain.Subject := subject; domain.Relationship_ := relationship;
     domain.Object := object |}
    ∈ ReBAC.getDirectRelationships
        (snd (ReBAC.RemoveRelationship
                (snd (ReBAC.AddRelationship e subject relationship object))
                subject relationship object))
        subject object.
Proof.
  set (e' := snd (ReBAC.RemoveRelationship
                    (snd (ReBAC.AddRelationship e subject relationship object))
                    subject relationship object)).
  set (rel := {| domain.Subject := subject; domain.Relationship_ := relationship;
                 domain.Object := object |}).
  assert (ReBAC.relationships e'
          = ReBAC.cache_remove
              (ReBAC.cache_insert (ReBAC.relationships e)
                 subject relationship object)
              subject relationship object) as Hcache.
  { subst e'. revert Hremove. unfold ReBAC.AddRelationship at 1 2.
    destruct (ReBAC.repo_AddRelationship _ _ _ _) as [r [err|]]; [done|].
    cbn [snd]. unfold ReBAC.RemoveRelationship.
    cbn [ReBAC.repo ReBAC.with_relationships ReBAC.with_repo].
    destruct (ReBAC.repo_RemoveRelationship _ _ _ _) as [r' [err|]]; [done|].
    done. }
  assert (exists rels,
             (ReBAC.cache_key subject relationship, rels) ∈ ReBAC.relationships e'
             /\ rel ∈ rels) as (rels & Hentry & Hrel).
  { rewrite Hcache.
    pose proof (cache_key_is_no_reverseKey subject relationship object) as Hne.
    unfold ReBAC.cache_remove, ReBAC.cache_insert. fold rel.
    set (key := ReBAC.cache_key subject relationship) in *.
    set (reverseKey := ReBAC.cache_reverseKey object relationship) in *.
    set (old := GoMap.index [] (ReBAC.relationships e) key) in *.
    set (m1 := GoMap.store (ReBAC.relationships e) key (old ++ [rel])).
    set (m2 := GoMap.store m1 reverseKey _).
    assert (GoMap.index [] m2 key = old ++ [rel]) as ->.
    { unfold GoMap.index. subst m2 m1. rewrite lookup_store_ne by done.
      by rewrite lookup_store_eq. }
    destruct (remove_first_keeps_last object old rel Hcached)
      as (rels & -> & Hin).
    exists rels. split; [|done].
    destruct (ReBAC.remove_first subject _) as [rels'|].
    - apply elem_store_other; [apply elem_store|done].
    - apply elem_store. }
  unfold ReBAC.getDirectRelationships.
  apply list_elem_of_In, in_flat_map. eexists. split.
  { apply list_elem_of_In. exact Hentry. }
  cbn [fst snd]. rewrite Split_cache_key_plain by done.
  cbn [length nth Nat.eqb andb]. rewrite String.eqb_refl, Hforward.
  cbn [andb negb]. apply list_elem_of_In, list_elem_of_filter.
  split; [|done]. cbn [domain.Object rel]. by rewrite String.eqb_refl.
Qed.

End ReBAC_removal.

Lemma X27_witness_bob_is_no_member :
  ReBAC.relationships
    (snd (ReBAC.RemoveRelationship fixtures.graph_team "bob" "member" "eng_team"))
  = ReBAC.relationships fixtures.graph_team.
Proof.
  refine (proj2 (X27_RemoveRelationship_of_an_absent_edge fixtures.graph_team
                   "bob" "member" "eng_team" _ _ _)).
  - vm_compute. constructor.
  - vm_compute. constructor; [discriminate|constructor].
  - reflexivity.
Defined.

Lemma X28_witness_alice_added_twice :
  {| domain.Subject := "alice"; domain.Relationship_ := "member";
     domain.Object := "eng_team" |}
    ∈ ReBAC.getDirectRelationships
        (snd (ReBAC.RemoveRelationship
                (snd (ReBAC.AddRelationship fixtures.graph_team
                        "alice" "member" "eng_team"))
                "alice" "member" "eng_team"))
        "alice" "eng_team".
Proof.
  refine (X28_removal_takes_one_edge_at_a_time fixtures.graph_team
            "alice" "member" "eng_team" _ _ _ _ _ _); try reflexivity.
  vm_compute. left. reflexivity.
Defined.

(** *** A policy that has just been added *)

Lemma store_values {V : Type} (m : GoMap.t V) (k : string) (v x : V) :
  x ∈ map snd (GoMap.store m k v) -> x = v \/ x ∈ map snd m.
Proof.
  intros Hin. apply list_elem_of_fmap in Hin as ([k' v'] & -> & Hin).
  apply elem_store_inv in Hin as [[_ ->]|Hin]; [by left|].
  right. apply list_elem_of_fmap. by exists (k', v').
Qed.

Section ABAC_added_policy.
Context {lib : GoLibrary} {spec : GoLibrarySpec lib} {P A : Type}.
Context {policy_repository : ABAC.ABACPolicyRepository P}.
Context {attribute_repository : ABAC.AttributeRepository A}.

(** X29.  A policy that [AddPolicy] has added decides every request that
    it matches, by its effect, when its priority is above the priority of
    every policy that was cached before; the pointer that was added must
    not be one of the cached pointers, the repository must have left the
    effect of the policy as it was, and the two attribute reads must
    succeed. *)
Theorem X29_added_policy_of_highest_priority_decides
    (e : ABAC.ABACHandlerImpl P A) (h : gmap ABAC.loc domain.ABACPolicy)
    (now1 now2 : domain.Time) (policy : ABAC.loc)
    (now : ABAC.WallClock) (subject object action : string)
    (reqAttrs : gmap string string)
    (Hadded : fst (fst (ABAC.AddPolicy e h now1 now2 policy)) = None)
    (Hfresh : policy ∉ map snd (ABAC.policies e))
    (Hkept : domain.Effect (snd (ABAC.AddPolicy e h now1 now2 policy) !!! policy)
             = domain.Effect (h !!! policy))
    (Hhighest :
       Forall (fun cachedPolicy =>
                 domain.Priority (h !!! cachedPolicy)
                 < domain.Priority
                     (snd (ABAC.AddPolicy e h now1 now2 policy) !!! policy))
              (map snd (ABAC.policies e)))
    (Huser : snd (ABAC.GetUserAttributes (ABAC.attrRepo e) subject) = None)
    (Hobject : snd (ABAC.GetObjectAttributes (ABAC.attrRepo e) object) = None)
    (Hmatch :
       ABAC.evaluatePolicy
         (snd (ABAC.AddPolicy e h now1 now2 policy) !!! policy)
         (ABAC.request_context e now subject object action reqAttrs) = true) :
  ABAC.Enforce (snd (fst (ABAC.AddPolicy e h now1 now2 policy)))
    (snd (ABAC.AddPolicy e h now1 now2 policy))
    now subject object action reqAttrs
  = (String.eqb (domain.Effect (h !!! policy)) "allow", None).
Proof.
  assert (domain.Effect (h !!! policy) = "allow"
          \/ domain.Effect (h !!! policy) = "deny") as Heffect.
  { revert Hadded. unfold ABAC.AddPolicy.
    destruct (domain.Validate (h !!! policy)) as [err|] eqn:Hvalid; [done|].
    intros _. unfold domain.Validate in Hvalid.
    destruct (String.eqb (domain.ID (h !!! policy)) ""); [done|].
    destruct (String.eqb (domain.Name (h !!! policy)) ""); [done|].
    destruct (String.eqb_spec (domain.Effect (h !!! policy)) "allow"); [by left|].
    destruct (String.eqb_spec (domain.Effect (h !!! policy)) "deny"); [by right|].
    done. }
  revert Hadded Hkept Hhighest Hmatch. unfold ABAC.AddPolicy.
  destruct (domain.Validate (h !!! policy)) as [err|]; [done|].
  destruct (GoMap.lookup (ABAC.policies e) (domain.ID (h !!! policy)))
    as [cachedPolicy|]; [done|].
  destruct (ABAC.repo_AddPolicy _ _) as [[repo written] [err|]]; [done|].
  cbn [fst snd]. intros _.
  set (h' := <[policy := written]> _).
  set (e' := ABAC.with_policies _ _).
  intros Hkept Hhighest Hmatch.
  rewrite Enforce_reads_ok by done.
  change (ABAC.request_context e' now subject object action reqAttrs)
    with (ABAC.request_context e now subject object action reqAttrs).
  assert (exists rest, ABAC.sorted_snapshot e' h' = policy :: rest) as [rest ->].
  { pose proof (sort_Slice_Permutation _
                  (fun i j => domain.Priority (h' !!! i) >? domain.Priority (h' !!! j))
                  (map snd (ABAC.policies e'))) as Hperm.
    pose proof (sort_Slice_Sorted _ _ (map snd (ABAC.policies e'))
                  (priority_order_StrictWeakOrder h')) as Hsorted.
    fold (ABAC.sorted_snapshot e' h') in Hperm, Hsorted.
    assert (policy ∈ ABAC.sorted_snapshot e' h') as Hin.
    { rewrite Hperm. apply list_elem_of_fmap. eexists (_, policy).
      split; [done|]. apply elem_store. }
    destruct (ABAC.sorted_snapshot e' h') as [|first rest]; [by inversion Hin|].
    exists rest. f_equal.
    destruct (decide (first = policy)) as [|Hne]; [done|]. exfalso.
    assert (first ∈ map snd (ABAC.policies e')) as Hfirst
      by (rewrite <- Hperm; left).
    apply store_values in Hfirst as [?|Hfirst]; [done|].
    rewrite Forall_forall in Hhighest. apply Hhighest in Hfirst.
    apply elem_of_cons in Hin as [?|Hin]; [done|].
    apply StronglySorted_inv in Hsorted as [_ Hfirst_leads].
    rewrite Forall_forall in Hfirst_leads. apply Hfirst_leads in Hin.
    assert (h' !!! first = h !!! first) as Hsame.
    { subst h'. by rewrite !lookup_total_insert_ne. }
    rewrite Hsame in Hin. lia. }
  simpl. rewrite Hmatch, Hkept.
  by destruct Heffect as [-> | ->].
Qed.

End ABAC_added_policy.

Lemma X29_witness_policy_P3_of_priority_200 :
  ABAC.Enforce (lib := fixtures.library)
    (snd (fst (ABAC.AddPolicy fixtures.abac_s3 fixtures.heap_top 200 201 2%nat)))
    (snd (ABAC.AddPolicy fixtures.abac_s3 fixtures.heap_top 200 201 2%nat))
    fixtures.noon "u" "doc" "read" ∅
  = (String.eqb (domain.Effect (fixtures.heap_top !!! 2%nat)) "allow", None).
Proof.
  refine (X29_added_policy_of_highest_priority_decides (spec := library_spec)
            fixtures.abac_s3 fixtures.heap_top 200 201 2%nat
            fixtures.noon "u" "doc" "read" ∅ _ _ _ _ _ _ _);
    try (vm_compute; reflexivity).
  - apply (bool_decide_unpack _). vm_compute. exact I.
  - apply (bool_decide_unpack _). vm_compute. exact I.
Defined.

(** *** Completeness of the path search *)

Lemma StronglySorted_app_intro {B : Type} (Rel : B -> B -> Prop) (l1 l2 : list B) :
  StronglySorted Rel l1 -> StronglySorted Rel l2 ->
  (forall a b, a ∈ l1 -> b ∈ l2 -> Rel a b) ->
  StronglySorted Rel (l1 ++ l2).
Proof.
  induction l1 as [|x l1 IH]; intros Hs1 Hs2 Hcross; simpl; [done|].
  apply StronglySorted_inv in Hs1 as [Hs1 Hx]. constructor.
  - apply IH; [done|done|]. intros a b Ha Hb. apply Hcross; [by right|done].
  - apply Forall_app. split; [done|]. apply Forall_forall. intros b Hb.
    apply Hcross; [left|done].
Qed.

Lemma last_node_app (source : string) (hops1 hops2 : list (string * string)) :
  Spec.last_node source (hops1 ++ hops2)
  = Spec.last_node (Spec.last_node source hops1) hops2.
Proof.
  revert source. induction hops1 as [|[r n] hops1 IH]; intros source; [done|].
  simpl. by rewrite !last_node_cons, IH.
Qed.

Lemma walk_app (m : GoMap.t (list domain.Relationship))
    (hops1 hops2 : list (string * string)) :
  forall source,
    Invariants.walk m source (hops1 ++ hops2) ->
    Invariants.walk m (Spec.last_node source hops1) hops2.
Proof.
  induction hops1 as [|[r n] hops1 IH]; intros source Hwalk; [done|].
  destruct Hwalk as [_ Hwalk]. rewrite last_node_cons. by apply IH.
Qed.

Lemma last_visit (v : string) (hops : list (string * string)) :
  forall source,
    v ∈ source :: map snd hops ->
    exists hops1 hops2,
      hops = hops1 ++ hops2
      /\ Spec.last_node source hops1 = v
      /\ v ∉ map snd hops2.
Proof.
  induction hops as [|[r n] hops IH]; intros source Hin.
  - exists [], []. repeat split; [|apply not_elem_of_nil].
    by apply list_elem_of_singleton in Hin.
  - destruct (decide (v ∈ n :: map snd hops)) as [Hlater|Hnot].
    + destruct (IH n Hlater) as (hops1 & hops2 & -> & Hlast & Hnotin).
      exists ((r, n) :: hops1), hops2. repeat split; [|done].
      by rewrite last_node_cons.
    + exists [], ((r, n) :: hops). repeat split; [|done].
      apply elem_of_cons in Hin as [->|Hin]; done.
Qed.

Lemma successors_complete (m : GoMap.t (list domain.Relationship))
    (visited : gset string) (current : ReBAC.queue_item)
    (relationship target : string) :
  Invariants.edge m (ReBAC.node current) relationship target ->
  target ∉ visited ->
  exists item,
    item ∈ ReBAC.successors m visited current
    /\ ReBAC.node item = target
    /\ ReBAC.depth item = ReBAC.depth current + 1.
Proof.
  intros (key & rels & rel & Hentry & Hrel & Hparts & Hforward & Hobject) Hfresh.
  eexists {| ReBAC.node := target; ReBAC.path := _;
             ReBAC.depth := ReBAC.depth current + 1 |}.
  split; [|done]. unfold ReBAC.successors.
  apply list_elem_of_In, in_flat_map. exists (key, rels).
  split; [by apply list_elem_of_In|]. cbn [fst snd]. rewrite Hparts.
  cbn [length nth Nat.eqb negb orb]. rewrite String.eqb_refl, Hforward.
  cbn [negb]. apply in_flat_map. exists rel.
  split; [by apply list_elem_of_In|]. rewrite Hobject.
  rewrite bool_decide_eq_false_2 by done. left. reflexivity.
Qed.

Lemma layered_same_depth (d : Z) (queue : list ReBAC.queue_item) :
  Forall (fun item => ReBAC.depth item = d) queue -> Invariants.layered queue.
Proof.
  induction 1 as [|item queue Hitem Hqueue IH]; constructor; [done|].
  eapply Forall_impl; [exact Hqueue|]. intros other Hother. simpl in Hother. lia.
Qed.

Lemma bfs_complete (m : GoMap.t (list domain.Relationship))
    (targetObject : string) (maxDepth : Z) (fuel : nat) :
  forall (visited : gset string) (queue : list ReBAC.queue_item)
         (result : bool * string),
    Invariants.layered queue ->
    (exists item hops,
        item ∈ queue
        /\ Invariants.walk m (ReBAC.node item) hops
        /\ Spec.last_node (ReBAC.node item) hops = targetObject
        /\ ReBAC.depth item + Z.of_nat (length hops) <= maxDepth
        /\ (ReBAC.node item ∉ visited)
        /\ Forall (fun hop => snd hop ∉ visited) hops) ->
    ReBAC.bfs fuel m targetObject maxDepth visited queue = Some result ->
    fst result = true.
Proof.
  induction fuel as [|fuel IH]; intros visited queue result Hlayered Hreach;
    [done|].
  destruct Hreach as (item & hops & Hitem & Hwalk & Hlast & Hdepth & Hnode & Hhops).
  destruct queue as [|current queue]; [by apply elem_of_nil in Hitem|].
  apply StronglySorted_inv in Hlayered as [Hlayered Hcurrent].
  rewrite Forall_forall in Hcurrent.
  rewrite bfs_cons.
  destruct (Z.gtb_spec (ReBAC.depth current) maxDepth) as [Hdeep|_].
  { apply IH; [done|]. exists item, hops. repeat split; try done.
    apply elem_of_cons in Hitem as [->|Hitem]; [lia|done]. }
  destruct (String.eqb_spec (ReBAC.node current) targetObject) as [_|Hother];
    [by intros [= <-]|].
  case_bool_decide as Hvisited.
  { apply IH; [done|]. exists item, hops. repeat split; try done.
    apply elem_of_cons in Hitem as [->|Hitem]; done. }
  set (visited' := {[ReBAC.node current]} ∪ visited).
  assert (Forall (fun next => ReBAC.depth next = ReBAC.depth current + 1)
                 (ReBAC.successors m visited' current)) as Hnext.
  { apply Forall_forall. intros next Hin.
    by apply successors_edge in Hin as (? & _ & _ & ?). }
  apply IH.
  { apply StronglySorted_app_intro; [done|by eapply layered_same_depth|].
    intros a b Ha Hb. rewrite Forall_forall in Hnext.
    rewrite (Hnext b Hb). pose proof (Hcurrent a Ha). simpl in *. lia. }
  assert (ReBAC.depth current <= ReBAC.depth item) as Hbefore.
  { apply elem_of_cons in Hitem as [->|Hitem]; [lia|].
    pose proof (Hcurrent item Hitem). simpl in *. lia. }
  destruct (decide (ReBAC.node current ∈ ReBAC.node item :: map snd hops))
    as [Hon|Hoff].
  - destruct (last_visit _ _ _ Hon) as (hops1 & hops2 & -> & Hlast1 & Hnotin).
    apply walk_app in Hwalk. rewrite last_node_app, Hlast1 in Hlast.
    rewrite Hlast1 in Hwalk.
    destruct hops2 as [|[relationship next] hops3]; [done|].
    destruct Hwalk as [Hedge Hwalk]. rewrite last_node_cons in Hlast.
    apply Forall_app in Hhops as [_ Hhops].
    apply Forall_cons in Hhops as [Hnext_fresh Hhops]. simpl in Hnext_fresh.
    assert (next ∉ visited') as Hfresh.
    { subst visited'. apply not_elem_of_union. split; [|done].
      intros Heq%elem_of_singleton. apply Hnotin. subst next. left. }
    destruct (successors_complete m visited' current relationship next Hedge
                Hfresh) as (item' & Hin' & Hnode' & Hdepth').
    exists item', hops3. rewrite Hnode', Hdepth'. repeat split; try done.
    + apply elem_of_app. by right.
    + rewrite length_app in Hdepth. simpl in Hdepth. lia.
    + apply Forall_forall. intros hop Hhop. subst visited'.
      apply not_elem_of_union. split.
      * intros Heq%elem_of_singleton. apply Hnotin. right.
        apply list_elem_of_fmap. by exists hop.
      * rewrite Forall_forall in Hhops. by apply Hhops.
  - exists item, hops. repeat split; try done.
    + apply elem_of_app. left.
      apply elem_of_cons in Hitem as [->|Hitem]; [|done].
      exfalso. apply Hoff. left.
    + subst visited'. apply not_elem_of_union. split; [|done].
      intros Heq%elem_of_singleton. apply Hoff. rewrite Heq. left.
    + apply Forall_forall. intros hop Hhop. subst visited'.
      apply not_elem_of_union. split.
      * intros Heq%elem_of_singleton. apply Hoff. right.
        apply list_elem_of_fmap. by exists hop.
      * rewrite Forall_forall in Hhops. by apply Hhops.
Qed.

Section ReBAC_reachability.
Context {R : Type} {repository : ReBAC.ReBACRepository R}.

(** X30.  [FindRelationshipPath] finds every target that can be reached:
    whenever consecutive forward edges of the cache lead from the subject
    to the target in at most [maxDepth] segments (five when [maxDepth] is
    not positive), it answers "found". *)
Theorem X30_reachable_targets_are_found (e : ReBAC.ReBACEnforcerImpl R)
    (subject targetObject : string) (maxDepth : Z)
    (hops : list (string * string))
    (Hwalk : Invariants.walk (ReBAC.relationships e) subject hops)
    (Hlast : Spec.last_node subject hops = targetObject)
    (Hlength : Z.of_nat (length hops) <= (if maxDepth <=? 0 then 5 else maxDepth)) :
  fst (ReBAC.FindRelationshipPath e subject targetObject maxDepth) = true.
Proof.
  unfold ReBAC.FindRelationshipPath.
  destruct (bfs_bound_enough (ReBAC.relationships e) subject targetObject
              (if maxDepth <=? 0 then 5 else maxDepth)) as [result Hresult].
  rewrite Hresult. simpl. eapply bfs_complete; [| |exact Hresult].
  - constructor; [constructor|constructor].
  - eexists _, hops. split; [left|]. cbn [ReBAC.node ReBAC.depth].
    repeat split; try done.
    apply Forall_forall. intros hop _. apply not_elem_of_empty.
Qed.

End ReBAC_reachability.

Lemma X30_witness_friend_of_friend :
  fst (ReBAC.FindRelationshipPath fixtures.graph_friends "alice" "carol" 2) = true.
Proof.
  refine (X30_reachable_targets_are_found fixtures.graph_friends
            "alice" "carol" 2 [("friend", "bob"); ("friend", "carol")] _ _ _).
  - split; [|split; [|exact I]].
    + exists "alice:friend",
        [{| domain.Subject := "alice"; domain.Relationship_ := "friend";
            domain.Object := "bob" |}],
        {| domain.Subject := "alice"; domain.Relationship_ := "friend";
           domain.Object := "bob" |}.
      repeat split; try reflexivity; [|left].
      apply (proj2 (list_elem_of_In _ _)). vm_compute. left. reflexivity.
    + exists "bob:friend",
        [{| domain.Subject := "bob"; domain.Relationship_ := "friend";
            domain.Object := "carol" |}],
        {| domain.Subject := "bob"; domain.Relationship_ := "friend";
           domain.Object := "carol" |}.
      repeat split; try reflexivity; [|left].
      apply (proj2 (list_elem_of_In _ _)). vm_compute. right. right. left.
      reflexivity.
  - reflexivity.
  - vm_compute. discriminate.
Defined.
